(** * nodes7: the item-group read planner, grouped reads and writes, and the
      endpoint's area read/write helpers

    A shallow embedding of [src/s7itemGroup.js] (class [S7ItemGroup] and
    the comparator [itemListSorter]) and of the [readVars], [writeVars],
    [readArea] and [writeArea] methods of [src/s7endpoint.js].

    JavaScript numbers that hold addresses, lengths and sizes are
    modelled as [Z]; [null]/[undefined] as [None]; a [Buffer] as a list of
    bytes; the insertion-ordered [Map] of items as an association list;
    the plain object that [readAllItems] returns as a finite map of its own
    properties; mutable objects as explicit state passing.  A
    [while]/[for] loop that the source can run forever takes a fuel
    argument and reports [Diverge] when it runs out. *)

From Stdlib Require Import ZArith List String Bool Lia Strings.Byte.
From Stdlib Require Import Sorting.Sorted Sorting.Permutation.
From Stdlib Require Import Strings.Ascii.
From stdpp Require Import base option list strings gmap.
Import ListNotations.
Local Open Scope Z_scope.

(** ** JavaScript values and helpers *)

(** A [Buffer]. *)
Definition Buffer := list byte.

(** Truthiness of a number-or-undefined ([!x] is its negation): [null],
    [undefined] and [0] are falsy, every other integer is truthy. *)
Definition truthy (x : option Z) : bool :=
  match x with
  | None => false
  | Some n => negb (n =? 0)
  end.

(** Loose inequality [a != b] between numbers, [null] and [undefined]. *)
Definition loose_neq (a b : option Z) : bool :=
  match a, b with
  | None, None => false
  | Some x, Some y => negb (x =? y)
  | _, _ => true
  end.

(** Strict equality [a === b] of two number-or-undefined values. *)
Definition strict_eq (a b : option Z) : bool :=
  match a, b with
  | None, None => true
  | Some x, Some y => x =? y
  | _, _ => false
  end.

(** [ToInt32]: wrap-around to a signed 32-bit integer. *)
Definition to_int32 (x : Z) : Z :=
  let m := x mod 2 ^ 32 in
  if m <? 2 ^ 31 then m else m - 2 ^ 32.

(** The JavaScript operator [x << n] on numbers. *)
Definition js_shl (x n : Z) : Z :=
  to_int32 (Z.shiftl (to_int32 x) (n mod 32)).

(** Index adjustment of [Buffer.prototype.slice]: a negative index counts
    from the end, and the result is clamped to the buffer. *)
Definition slice_index (len i : Z) : Z :=
  if i <? 0 then Z.max 0 (len + i) else Z.min i len.

(** [buf.slice(start, end)]. *)
Definition slice (buf : Buffer) (start end_ : Z) : Buffer :=
  let len := Z.of_nat (List.length buf) in
  let s := slice_index len start in
  let e := slice_index len end_ in
  if e <=? s then [] else take (Z.to_nat (e - s)) (drop (Z.to_nat s) buf).

(** ** Errors *)

(** The context object attached to a [NodeS7Error]. *)
Inductive Info : Type :=
| InfoPart (area : Z) (db : option Z) (address length : Z)
| InfoTag (tag : string).

(** The [code] of a [NodeS7Error]: a symbolic kind, or the numeric return
    code of the PLC. *)
Inductive ErrKind : Type :=
| ERR_ILLEGAL_STATE
| ERR_INVALID_ARGUMENT
| ERR_NOT_CONNECTED
| ERR_ITEM_TOO_BIG
| ERR_UNEXPECTED_RESPONSE
| ERR_PARSE_ADDR
| RetCode (code : Z).

(** What a [throw] (or a rejected promise) carries. *)
Inductive Exn : Type :=
| NodeS7Error (kind : ErrKind) (info : option Info)
| Error (msg : string)
| TypeError
| RangeError.

(** The outcome of running a method: it returns, it throws, or the model
    ran out of fuel inside a loop. *)
Inductive Result (A : Type) : Type :=
| Ok (a : A)
| Throw (e : Exn)
| Diverge.
Arguments Ok {A} a.
Arguments Throw {A} e.
Arguments Diverge {A}.

(** ** Protocol constants *)

Module constants.
  (** Modelled from the spec: [constants.json] is not part of the sources
      at hand; the values are the ones of the specification's wire
      compatibility table. *)
Module area.
Definition INPUTS : Z := 0x81.
Definition OUTPUTS : Z := 0x82.
Definition FLAGS : Z := 0x83.
Definition DB : Z := 0x84.
Definition COUNTER : Z := 0x1C.
Definition TIMER : Z := 0x1D.
End area.
Module transport.
Definition BIT : Z := 0x01.
Definition BYTE : Z := 0x02.
End transport.
Module dataTransport.
    (** Modelled from the spec: the data transport codes written in front
        of a payload ([BBIT] for bit access, [BBYTE] for byte/word/dword
        access). *)
Definition BBIT : Z := 0x03.
Definition BBYTE : Z := 0x04.
End dataTransport.
Module retval.
Definition DATA_OK : Z := 0xFF.
End retval.
End constants.

(** ** Items *)

(** Modelled from the spec: the class [S7Item] lives in [s7item.js], which
    is not part of the sources at hand.  The record holds the properties
    of an item that the item group and the sorter read. *)
Record S7Item : Type := mkItem {
  name : string;
  addrtype : string;
  areaCode : Z;
  dbNumber : option Z;
  offset : Z;
  bitOffset : Z;
  byteLength : Z;
  byteLengthWithFill : Z;
  readTransportCode : Z;
  writeTransportCode : Z;
  buffer : Buffer
}.

(** The copy descriptor that [_getCopyBufferOffsets] returns. *)
Record CopyOffsets : Type := mkOffsets {
  sourceOffset : Z;
  destOffset : Z;
  byteCount : Z
}.

(** ** itemListSorter *)

(** [a < b] on two number-or-undefined values: comparing with [undefined]
    is always false. *)
Definition js_lt (a b : option Z) : bool :=
  match a, b with
  | Some x, Some y => x <? y
  | _, _ => false
  end.

(** The comparator handed to [Array.prototype.sort].  It falls off its end
    when no test fires and so returns [undefined], which [sort] reads as
    [0]. *)
Definition itemListSorter (a b : S7Item) : Z :=
  if areaCode a <? areaCode b then -1
  else if areaCode a >? areaCode b then 1
  else if (String.eqb (addrtype a) "DB" && js_lt (dbNumber a) (dbNumber b))%bool then -1
  else if (String.eqb (addrtype a) "DB" && js_lt (dbNumber b) (dbNumber a))%bool then 1
  else if offset a <? offset b then -1
  else if offset a >? offset b then 1
  else if bitOffset a <? bitOffset b then -1
  else if bitOffset a >? bitOffset b then 1
  else if byteLength a >? byteLength b then -1
  else if byteLength a <? byteLength b then 1
  else 0.

(** [Array.prototype.sort(cmp)]: a stable sort (ECMAScript 2019), written
    as an insertion sort. An element stays in front of the elements that
    followed it in the input unless the comparator puts it strictly
    after them.  For a comparator that is a total preorder every stable
    sort returns this list; for another comparator the order that the
    JavaScript engine returns is its own choice. *)
Fixpoint sort_insert {A} (cmp : A -> A -> Z) (x : A) (l : list A) : list A :=
  match l with
  | [] => [x]
  | y :: l' => if cmp x y <=? 0 then x :: y :: l' else y :: sort_insert cmp x l'
  end.

Definition array_sort {A} (cmp : A -> A -> Z) (l : list A) : list A :=
  foldr (sort_insert cmp) [] l.

(** ** Read packets *)

(** One part of a read packet: the object literal that
    [_prepareReadPackets] builds. *)
Module Part.
Record t : Type := mk {
    items : list S7Item;
    offsets : list CopyOffsets;
    area : Z;
    db : option Z;
    transport : Z;
    address : Z;
    length : Z
  }.

  (** [part.length += n] *)
Definition add_length (n : Z) (p : t) : t :=
    mk (items p) (offsets p) (area p) (db p) (transport p) (address p) (length p + n).

  (** [part.items.push(item)] *)
Definition push_item (item : S7Item) (p : t) : t :=
    mk (items p ++ [item]) (offsets p) (area p) (db p) (transport p) (address p) (length p).

  (** [part.offsets = offs] for the offsets computed so far. *)
Definition set_offsets (offs : list CopyOffsets) (p : t) : t :=
    mk (items p) offs (area p) (db p) (transport p) (address p) (length p).
End Part.

(** A read packet is an array of parts; a plan is an array of packets. *)
Definition Packet := list Part.t.
Definition Plan := list Packet.

(** ** The planner: S7ItemGroup._prepareReadPackets *)

Module Planner.

Definition reqHeaderSize : Z := 12.
Definition resHeaderSize : Z := 14.
Definition reqPartSize : Z := 12.
Definition resPartSize : Z := 4.

  (** The local variables of the packing loop.  The arrays are kept with
      their newest element first: the head of [packets] is the packet pushed
      last onto [this._readPackets], with the part pushed last as its head.
      The flags [packet] and [part] tell whether the variables of the same
      name still reference those two objects or are [null]/[undefined].
      [pktReqLength] and [pktResLength] are [undefined] until the first
      packet is opened and are only read behind a test of [packet]; they
      start at 0 here. *)
Record State : Type := mkState {
    packets : list (list Part.t);
    packet : bool;
    part : bool;
    pktReqLength : Z;
    pktResLength : Z;
    lastItem : option S7Item
  }.

Definition init : State := mkState [] false false 0 0 None.

  (** The object that the variable [part] references, if any. *)
Definition current_part (st : State) : option Part.t :=
    if (packet st && part st)%bool then
      match packets st with
      | (p :: _) :: _ => Some p
      | _ => None
      end
    else None.

  (** Replace the newest part of the newest packet (a mutation of the
      object that [part] references). *)
Definition set_current_part (p : Part.t) (pkts : list (list Part.t)) : list (list Part.t) :=
    match pkts with
    | (_ :: ps) :: rest => (p :: ps) :: rest
    | _ => pkts
    end.

  (** [packet.push(part)] on the newest packet. *)
Definition push_part (p : Part.t) (pkts : list (list Part.t)) : list (list Part.t) :=
    match pkts with
    | ps :: rest => (p :: ps) :: rest
    | [] => []
    end.

  (** The object literal of a freshly opened part. *)
Definition new_part (item : S7Item) (partOffset partLength : Z) : Part.t :=
    Part.mk [item] [] (areaCode item) (dbNumber item) (readTransportCode item)
            partOffset partLength.

  (** The arrays in source order. *)
Definition plan_of (pkts : list (list Part.t)) : Plan := rev (map (@rev Part.t) pkts).

Section WithGroup.
    (** [this._skipOptimization], [this._optimizationGap] and
        [this._endpoint.pduSize - 18]. *)
Variable _skipOptimization : bool.
Variable _optimizationGap : Z.
Variable maxPayloadSize : Z.

    (** [_isOptimizable(a, b)]; [a] is [undefined] for the first item. *)
Definition _isOptimizable (a : option S7Item) (b : S7Item) : bool :=
      negb _skipOptimization &&
      match a with
      | None => false
      | Some a =>
          (areaCode a =? areaCode b)
          && ((areaCode b =? constants.area.DB)
              || (areaCode b =? constants.area.INPUTS)
              || (areaCode b =? constants.area.OUTPUTS)
              || (areaCode b =? constants.area.FLAGS))
          && strict_eq (dbNumber a) (dbNumber b)
          && (Z.abs (offset b - offset a - byteLength a) <? _optimizationGap)
      end.

    (** Which arm of the [if / else if / else] chain one round of the
        [while] loop takes. *)
Inductive Branch : Type := SamePart (p : Part.t) | NewPart | NewPacket.

Definition choose_branch (st : State) (item : S7Item) (itemLength itemOffset : Z) : Branch :=
      let minRequiredLength := Z.min itemLength _optimizationGap in
      match current_part st with
      | Some p =>
          if _isOptimizable (lastItem st) item
             && (pktResLength st + (itemOffset + minRequiredLength)
                 - (Part.address p + Part.length p) <=? maxPayloadSize)
          then SamePart p
          else if (pktReqLength st + reqPartSize <=? maxPayloadSize)
                  && (pktResLength st + resPartSize + minRequiredLength <=? maxPayloadSize)
          then NewPart else NewPacket
      | None =>
          if packet st
             && (pktReqLength st + reqPartSize <=? maxPayloadSize)
             && (pktResLength st + resPartSize + minRequiredLength <=? maxPayloadSize)
          then NewPart else NewPacket
      end.

    (** The loop variables of one item: [itemComplete], [itemLength],
        [itemOffset]. *)
Record ItemVars : Type := mkVars {
      itemComplete : bool;
      itemLength : Z;
      itemOffset : Z
    }.

    (** One round of [while (!itemComplete)], without the final
        [if (!itemComplete)]. *)
Definition round (st : State) (item : S7Item) (v : ItemVars) : State * ItemVars :=
      let remainingLength := maxPayloadSize - pktResLength st in
      match choose_branch st item (itemLength v) (itemOffset v) with
      | SamePart p =>
          let addedLength :=
            Z.max (Part.length p) ((itemOffset v - Part.address p) + itemLength v)
            - Part.length p in
          if addedLength <=? remainingLength then
            (mkState (set_current_part (Part.push_item item (Part.add_length addedLength p))
                                       (packets st))
                     (packet st) (part st) (pktReqLength st)
                     (pktResLength st + addedLength) (lastItem st),
             mkVars true (itemLength v) (itemOffset v))
          else
            let p' := Part.add_length remainingLength p in
            let consumedItemLength := Part.length p' - (itemOffset v - Part.address p') in
            (mkState (set_current_part (Part.push_item item p') (packets st))
                     (packet st) (part st) (pktReqLength st)
                     (pktResLength st + remainingLength) (lastItem st),
             mkVars false (itemLength v - consumedItemLength)
                    (itemOffset v + consumedItemLength))
      | NewPart =>
          let partOffset := itemOffset v in
          if pktResLength st + resPartSize + itemLength v <=? maxPayloadSize then
            let partLength := itemLength v in
            (mkState (push_part (new_part item partOffset partLength) (packets st))
                     (packet st) true (pktReqLength st + reqPartSize)
                     (pktResLength st + (resPartSize + partLength)) (lastItem st),
             mkVars true (itemLength v) (itemOffset v))
          else
            let consumedItemLength := maxPayloadSize - pktResLength st - resPartSize in
            let partLength := consumedItemLength in
            (mkState (push_part (new_part item partOffset partLength) (packets st))
                     (packet st) true (pktReqLength st + reqPartSize)
                     (pktResLength st + (resPartSize + partLength)) (lastItem st),
             mkVars false (itemLength v - consumedItemLength)
                    (itemOffset v + consumedItemLength))
      | NewPacket =>
          let pktReqLength0 := reqHeaderSize in
          let pktResLength0 := resHeaderSize in
          let partOffset := itemOffset v in
          if pktResLength0 + resPartSize + itemLength v <=? maxPayloadSize then
            let partLength := itemLength v in
            (mkState ([new_part item partOffset partLength] :: packets st)
                     true true (pktReqLength0 + reqPartSize)
                     (pktResLength0 + (resPartSize + partLength)) (lastItem st),
             mkVars true (itemLength v) (itemOffset v))
          else
            let consumedItemLength := maxPayloadSize - pktResLength0 - resPartSize in
            let partLength := consumedItemLength in
            (mkState ([new_part item partOffset partLength] :: packets st)
                     true true (pktReqLength0 + reqPartSize)
                     (pktResLength0 + (resPartSize + partLength)) (lastItem st),
             mkVars false (itemLength v - consumedItemLength)
                    (itemOffset v + consumedItemLength))
      end.

    (** [packet = null; part = null;] *)
Definition forget_packet (st : State) : State :=
      mkState (packets st) false false (pktReqLength st) (pktResLength st) (lastItem st).

    (** [while (!itemComplete) { ... }] for one item. *)
Fixpoint while_item (fuel : nat) (st : State) (item : S7Item) (v : ItemVars)
      : option State :=
      match fuel with
      | O => None
      | S fuel' =>
          let '(st', v') := round st item v in
          if itemComplete v' then Some st'
          else while_item fuel' (forget_packet st') item v'
      end.

    (** The body of [for (const item of items)]. *)
Definition place_item (fuel : nat) (st : State) (item : S7Item) : option State :=
      match while_item fuel st item (mkVars false (byteLength item) (offset item)) with
      | Some st' =>
          Some (mkState (packets st') (packet st') (part st') (pktReqLength st')
                        (pktResLength st') (Some item))
      | None => None
      end.

    (** [for (const item of items) { ... }] *)
Fixpoint place_items (fuel : nat) (st : State) (items : list S7Item) : option State :=
      match items with
      | [] => Some st
      | item :: rest =>
          match place_item fuel st item with
          | Some st' => place_items fuel st' rest
          | None => None
          end
      end.
End WithGroup.

Section Offsets.
    (** [item._getCopyBufferOffsets(partAddress, partLength)], a method of
        the class [S7Item]; it answers [null] when it finds no bytes of the
        item in the window. *)
Variable _getCopyBufferOffsets : S7Item -> Z -> Z -> option CopyOffsets.

    (** The innermost loop of the offsets pass: the offsets stored so far,
        and whether every item got one. *)
Fixpoint item_offsets (its : list S7Item) (addr len : Z) : list CopyOffsets * bool :=
      match its with
      | [] => ([], true)
      | item :: rest =>
          match _getCopyBufferOffsets item addr len with
          | None => ([], false)
          | Some o =>
              let '(os, ok) := item_offsets rest addr len in (o :: os, ok)
          end
      end.

    (** The loop over the parts of one packet; a part after the failing
        one is left as it was. *)
Fixpoint part_offsets (ps : list Part.t) : list Part.t * bool :=
      match ps with
      | [] => ([], true)
      | p :: rest =>
          let '(os, ok) := item_offsets (Part.items p) (Part.address p) (Part.length p) in
          if ok then
            let '(rest', ok') := part_offsets rest in
            (Part.set_offsets os p :: rest', ok')
          else (Part.set_offsets os p :: rest, false)
      end.

    (** The loop over the packets. *)
Fixpoint packet_offsets (pkts : Plan) : Plan * bool :=
      match pkts with
      | [] => ([], true)
      | pkt :: rest =>
          let '(pkt', ok) := part_offsets pkt in
          if ok then
            let '(rest', ok') := packet_offsets rest in
            (pkt' :: rest', ok')
          else (pkt' :: rest, false)
      end.
End Offsets.

End Planner.

(** ** The connection, seen from the endpoint *)

(** An element of the array handed to [readVars]; a part of a read packet
    is used as one (its extra properties are ignored). *)
Record VarItem : Type := mkVarItem {
  vi_area : Z;
  vi_db : option Z;
  vi_transport : Z;
  vi_address : Z;
  vi_length : Z
}.

(** An element of the array handed to [writeVars]. *)
Record WriteItem : Type := mkWriteItem {
  wi_area : Z;
  wi_db : option Z;
  wi_address : Z;
  wi_transport : Z;
  wi_dataTransport : Z;
  wi_data : Buffer;
  wi_length : Z
}.

(** The address specification that [readVars] and [writeVars] build for
    the connection ([syntax] is always [S7ANY]). *)
Record S7Any : Type := mkS7Any {
  any_area : Z;
  any_db : option Z;
  any_transport : Z;
  any_address : Z;
  any_length : Z
}.

(** The data element that [writeVars] builds next to each address. *)
Record WriteData : Type := mkWriteData {
  transportSize : Z;
  wd_data : Buffer
}.

(** An element of the array a ReadVar job resolves to. *)
Record ReadRes : Type := mkReadRes {
  returnCode : Z;
  data : Buffer
}.

(** An element of the array a WriteVar job resolves to. *)
Record WriteRes : Type := mkWriteRes {
  w_returnCode : Z
}.

(** A settled promise. *)
Inductive Settled (A : Type) : Type :=
| Resolved (a : A)
| Rejected (e : Exn).
Arguments Resolved {A} a.
Arguments Rejected {A} e.

(** [await Promise.all(promises)].  When several promises reject, the
    JavaScript one reports the rejection that happened first in time; the
    model has no clock and reports the one of lowest index. *)
Fixpoint promise_all {A} (ps : list (Settled A)) : Settled (list A) :=
  match ps with
  | [] => Resolved []
  | Rejected e :: _ => Rejected e
  | Resolved a :: rest =>
      match promise_all rest with
      | Resolved l => Resolved (a :: l)
      | Rejected e => Rejected e
      end
  end.

(** Modelled from the spec: the class [S7Connection] is not part of the
    sources at hand.  Its [requestReadVars] and [requestWriteVar] run one
    job each and settle with an array of results; the first argument is the
    position of the job among the jobs that one call of a method issues. *)
Record Connection : Type := mkConnection {
  requestReadVars : nat -> list S7Any -> Settled (list ReadRes);
  requestWriteVar : nat -> list S7Any -> list WriteData -> Settled (list WriteRes)
}.

(** ** S7Endpoint *)

Module S7Endpoint.

Inductive ConnState : Type :=
| CONN_DISCONNECTED | CONN_CONNECTING | CONN_CONNECTED | CONN_DISCONNECTING.

Definition ConnState_eqb (a b : ConnState) : bool :=
  match a, b with
  | CONN_DISCONNECTED, CONN_DISCONNECTED
  | CONN_CONNECTING, CONN_CONNECTING
  | CONN_CONNECTED, CONN_CONNECTED
  | CONN_DISCONNECTING, CONN_DISCONNECTING => true
  | _, _ => false
  end.

Record t : Type := mk {
  _connectionState : ConnState;
  _pduSize : option Z
}.

(** [_initParams()] *)
Definition _initParams : t := mk CONN_DISCONNECTED None.

(** [get isConnected()] *)
Definition isConnected (e : t) : bool := ConnState_eqb (_connectionState e) CONN_CONNECTED.

(** [get pduSize()] *)
Definition pduSize (e : t) : option Z := _pduSize e.

(** [ToNumber] of the pdu size inside an arithmetic expression: [null]
    counts as 0. *)
Definition to_number (x : option Z) : Z := default 0 x.

(** The address conversion shared by [readVars] and [writeVars]. *)
Definition s7any_address (transport address : Z) : Z :=
  if transport =? constants.transport.BIT then address else js_shl address 3.

(** [readVars(items)], as the job number [job] of the calling method. *)
Definition readVars (conn : Connection) (e : t) (job : nat) (items : list VarItem)
  : Settled (list ReadRes) :=
  if negb (isConnected e) then Rejected (NodeS7Error ERR_NOT_CONNECTED None)
  else
    requestReadVars conn job
      (map (fun item => mkS7Any (vi_area item) (vi_db item) (vi_transport item)
                          (s7any_address (vi_transport item) (vi_address item))
                          (vi_length item)) items).

(** [writeVars(items)], as the job number [job] of the calling method. *)
Definition writeVars (conn : Connection) (e : t) (job : nat) (items : list WriteItem)
  : Settled (list WriteRes) :=
  if negb (isConnected e) then Rejected (NodeS7Error ERR_NOT_CONNECTED None)
  else
    requestWriteVar conn job
      (map (fun item => mkS7Any (wi_area item) (wi_db item) (wi_transport item)
                          (s7any_address (wi_transport item) (wi_address item))
                          (wi_length item)) items)
      (map (fun item => mkWriteData (wi_dataTransport item) (wi_data item)) items).

(** The [for (let ptr = 0; ptr < length; ptr += maxPayload)] loop of
    [readArea]: the [item] arrays handed to [readVars], in order. *)
Fixpoint readArea_requests (fuel : nat) (area address length : Z) (db : option Z)
  (maxPayload ptr : Z) : option (list (list VarItem)) :=
  if ptr <? length then
    match fuel with
    | O => None
    | S fuel' =>
        match readArea_requests fuel' area address length db maxPayload (ptr + maxPayload) with
        | Some rest =>
            Some ([mkVarItem area db constants.transport.BYTE (address + ptr)
                     (Z.min (length - ptr) maxPayload)] :: rest)
        | None => None
        end
    end
  else Some [].

(** The [for (const res of results)] loop of [readArea]: the payloads
    pushed onto [data]. *)
Fixpoint readArea_collect (results : list (list ReadRes)) : Result (list Buffer) :=
  match results with
  | [] => Ok []
  | res :: rest =>
      if (1 <? List.length res)%nat then Throw (NodeS7Error ERR_UNEXPECTED_RESPONSE None)
      else
        match res with
        | [] => Throw TypeError
        | r :: _ =>
            if negb (returnCode r =? constants.retval.DATA_OK)
            then Throw (NodeS7Error (RetCode (returnCode r)) None)
            else
              match readArea_collect rest with
              | Ok bufs => Ok (data r :: bufs)
              | Throw e => Throw e
              | Diverge => Diverge
              end
        end
  end.

(** Issue the jobs of a list of requests, numbering them from [job]. *)
Fixpoint issue {Req Res} (send : nat -> Req -> Settled Res) (job : nat) (reqs : list Req)
  : list (Settled Res) :=
  match reqs with
  | [] => []
  | r :: rest => send job r :: issue send (S job) rest
  end.

(** [readArea(area, address, length, db)] *)
Definition readArea (conn : Connection) (fuel : nat) (e : t)
  (area address length : Z) (db : option Z) : Result Buffer :=
  if negb (isConnected e) then Throw (NodeS7Error ERR_NOT_CONNECTED None)
  else
    let maxPayload := to_number (_pduSize e) - 18 in
    match readArea_requests fuel area address length db maxPayload 0 with
    | None => Diverge
    | Some requests =>
        match promise_all (issue (readVars conn e) 0%nat requests) with
        | Rejected err => Throw err
        | Resolved results =>
            match readArea_collect results with
            | Ok bufs => Ok (concat bufs)
            | Throw err => Throw err
            | Diverge => Diverge
            end
        end
    end.

(** The [for (let ptr = 0; ptr < dataLength; ptr += maxPayload)] loop of
    [writeArea]: the [item] arrays handed to [writeVars], in order. *)
Fixpoint writeArea_requests (fuel : nat) (area address : Z) (data : Buffer) (db : option Z)
  (maxPayload ptr : Z) : option (list (list WriteItem)) :=
  let dataLength := Z.of_nat (List.length data) in
  if ptr <? dataLength then
    match fuel with
    | O => None
    | S fuel' =>
        match writeArea_requests fuel' area address data db maxPayload (ptr + maxPayload) with
        | Some rest =>
            let chunk := slice data ptr (Z.min (dataLength - ptr) maxPayload) in
            Some ([mkWriteItem area db (address + ptr) constants.transport.BYTE
                     constants.dataTransport.BBYTE chunk (Z.of_nat (List.length chunk))]
                  :: rest)
        | None => None
        end
    end
  else Some [].

(** The [for (const res of results)] loop of [writeArea]. *)
Fixpoint writeArea_check (results : list (list WriteRes)) : Result unit :=
  match results with
  | [] => Ok tt
  | res :: rest =>
      if (1 <? List.length res)%nat then Throw (NodeS7Error ERR_UNEXPECTED_RESPONSE None)
      else
        match res with
        | [] => Throw TypeError
        | r :: _ =>
            if negb (w_returnCode r =? constants.retval.DATA_OK)
            then Throw (NodeS7Error (RetCode (w_returnCode r)) None)
            else writeArea_check rest
        end
  end.

(** [writeArea(area, address, data, db)] *)
Definition writeArea (conn : Connection) (fuel : nat) (e : t)
  (area address : Z) (data : Buffer) (db : option Z) : Result unit :=
  if negb (isConnected e) then Throw (NodeS7Error ERR_NOT_CONNECTED None)
  else
    let maxPayload := to_number (_pduSize e) - 28 in
    match writeArea_requests fuel area address data db maxPayload 0 with
    | None => Diverge
    | Some requests =>
        match promise_all (issue (writeVars conn e) 0%nat requests) with
        | Rejected err => Throw err
        | Resolved results => writeArea_check results
        end
    end.

End S7Endpoint.

(** ** S7ItemGroup *)

(** The insertion-ordered [Map<string, S7Item>]. *)
Module ItemMap.

Definition t := list (string * S7Item).

(** [map.get(key)] *)
Fixpoint get (key : string) (m : t) : option S7Item :=
  match m with
  | [] => None
  | (k, v) :: rest => if String.eqb k key then Some v else get key rest
  end.

(** [map.set(key, value)]: an existing key keeps its place. *)
Fixpoint set (key : string) (value : S7Item) (m : t) : t :=
  match m with
  | [] => [(key, value)]
  | (k, v) :: rest =>
      if String.eqb k key then (k, value) :: rest else (k, v) :: set key value rest
  end.

(** [map.delete(key)] *)
Fixpoint delete (key : string) (m : t) : t :=
  match m with
  | [] => []
  | (k, v) :: rest => if String.eqb k key then rest else (k, v) :: delete key rest
  end.

(** [Array.from(map.values())] *)
Definition values (m : t) : list S7Item := map snd m.

(** Run [f] on the object stored under [key], if there is one. *)
Fixpoint update (key : string) (f : S7Item -> S7Item) (m : t) : t :=
  match m with
  | [] => []
  | (k, v) :: rest =>
      if String.eqb k key then (k, f v) :: rest else (k, v) :: update key f rest
  end.

End ItemMap.

(** An argument that is a tag: an [S7Item], a string, or anything else. *)
Inductive Tag : Type :=
| TagItem (item : S7Item)
| TagString (s : string)
| TagOther.

(** The [tags] argument of [addItems], [removeItems] and [writeItems]: a
    single value or an array.  [ArgMissing] stands for [undefined], [null]
    and every other falsy value that is no string; a single [TagOther] is a
    truthy value. *)
Inductive TagsArg : Type :=
| ArgMissing
| ArgOne (tag : Tag)
| ArgArray (tags : list Tag).

(** The options object of the constructor. *)
Record Opts : Type := mkOpts {
  skipOptimization : option bool;
  optimizationGap : option Z
}.

Record S7ItemGroup : Type := mkGroup {
  (** [this._endpoint]: [true] while it references the endpoint, [false]
      once [destroy] has set it to [null] *)
  _endpoint : bool;
  _skipOptimization : bool;
  _optimizationGap : Z;
  _items : ItemMap.t;
  _readPackets : option Plan;
  _translationCallback : string -> string;
  _lastRequestTime : option Z
}.

(** The endpoint, the item group built on it, and whether the group's
    [_funcInvalidateReadPackets] is registered for the endpoint's
    ['pdu-size'] event. *)
Record World : Type := mkWorld {
  endpoint : S7Endpoint.t;
  group : S7ItemGroup;
  listening : bool
}.

Definition with_group (w : World) (g : S7ItemGroup) : World :=
  mkWorld (endpoint w) g (listening w).

Definition with_items (g : S7ItemGroup) (m : ItemMap.t) : S7ItemGroup :=
  mkGroup (_endpoint g) (_skipOptimization g) (_optimizationGap g) m (_readPackets g)
          (_translationCallback g) (_lastRequestTime g).

Definition with_readPackets (g : S7ItemGroup) (p : option Plan) : S7ItemGroup :=
  mkGroup (_endpoint g) (_skipOptimization g) (_optimizationGap g) (_items g) p
          (_translationCallback g) (_lastRequestTime g).

Definition with_lastRequestTime (g : S7ItemGroup) (t : option Z) : S7ItemGroup :=
  mkGroup (_endpoint g) (_skipOptimization g) (_optimizationGap g) (_items g)
          (_readPackets g) (_translationCallback g) t.

(** [_defaultTranslationCallback(tag)] *)
Definition _defaultTranslationCallback (tag : string) : string := tag.

(** [new S7ItemGroup(s7endpoint, opts)]: [opts.optimizationGap || 5], and
    the listener for ['pdu-size'] is registered. *)
Definition constructor (s7endpoint : S7Endpoint.t) (opts : Opts) : World :=
  mkWorld s7endpoint
    (mkGroup true
       (default false (skipOptimization opts))
       (if truthy (optimizationGap opts) then default 5 (optimizationGap opts) else 5)
       [] None _defaultTranslationCallback None)
    true.

(** [_invalidateReadPackets()] *)
Definition _invalidateReadPackets (g : S7ItemGroup) : S7ItemGroup :=
  with_readPackets g None.

(** [destroy()] on a group that has its endpoint. *)
Definition destroy (w : World) : World :=
  mkWorld (endpoint w)
    (mkGroup false (_skipOptimization (group w)) (_optimizationGap (group w)) [] None
             (_translationCallback (group w)) (_lastRequestTime (group w)))
    false.

(** A call of [destroy()].  On a group that was destroyed before,
    [this._endpoint] is [null]: the first statement throws a [TypeError]
    and nothing changes. *)
Definition destroy_call (w : World) : Result unit * World :=
  if _endpoint (group w) then (Ok tt, destroy w) else (Throw TypeError, w).

(** [S7Endpoint._onConnectionConnected()], with [connPduSize] the pdu size
    of the connection: the ['pdu-size'] event is emitted, and its listeners
    run, before the endpoint stores the new size. *)
Definition _onConnectionConnected (connPduSize : option Z) (w : World) : World :=
  let g :=
    if (loose_neq (S7Endpoint._pduSize (endpoint w)) connPduSize && listening w)%bool
    then _invalidateReadPackets (group w) else group w in
  mkWorld (S7Endpoint.mk S7Endpoint.CONN_CONNECTED connPduSize) g (listening w).

(** Any other change of the endpoint's connection state; the pdu size is
    kept. *)
Definition set_connectionState (s : S7Endpoint.ConnState) (w : World) : World :=
  mkWorld (S7Endpoint.mk s (S7Endpoint._pduSize (endpoint w))) (group w) (listening w).

Section Collaborators.

(** Modelled from the spec: the class [S7Item] is not part of the sources
    at hand.  [S7Item_new tag addr] is [new S7Item(tag, addr)], which fails
    with [ERR_PARSE_ADDR] on a malformed address; the other variables are
    its methods [_getCopyBufferOffsets], [getWriteBuffer],
    [_copyFromBuffer], and [value] after [updateValueFromBuffer()].
    [_copyFromBuffer item data offsets] is the call
    [item._copyFromBuffer(data, offsets)]: whether it returns or throws,
    and the item it leaves; [offsets] is [None] when the caller hands it
    [undefined]. *)
Variable Value : Type.
Variable S7Item_new : string -> string -> option S7Item.
Variable _getCopyBufferOffsets : S7Item -> Z -> Z -> option CopyOffsets.
Variable getWriteBuffer : S7Item -> Value -> Buffer.
Variable _copyFromBuffer : S7Item -> Buffer -> option CopyOffsets -> Result unit * S7Item.
Variable updated_value : S7Item -> Value.

(** The connection behind the endpoint, and the time a request takes. *)
Variable conn : Connection.
Variable hrtime : Z.

(** [_prepareReadPackets()]: the outcome and the group it leaves behind. *)
Definition _prepareReadPackets (fuel : nat) (pduSize : option Z) (g : S7ItemGroup)
  : Result unit * S7ItemGroup :=
  if negb (truthy pduSize) then (Throw (NodeS7Error ERR_ILLEGAL_STATE None), g)
  else
    let items := ItemMap.values (_items g) in
    if (List.length items =? 0)%nat then (Ok tt, with_readPackets g (Some []))
    else
      let items := array_sort itemListSorter items in
      let maxPayloadSize := S7Endpoint.to_number pduSize - 18 in
      match Planner.place_items (_skipOptimization g) (_optimizationGap g) maxPayloadSize
              fuel Planner.init items with
      | None => (Diverge, g)
      | Some st =>
          let '(plan, ok) :=
            Planner.packet_offsets _getCopyBufferOffsets
              (Planner.plan_of (Planner.packets st)) in
          if ok then (Ok tt, with_readPackets g (Some plan))
          else (Throw (Error "Couldn't calculate offsets for item. Please report as a bug"),
                with_readPackets g (Some plan))
      end.

(** The body of the loop of [addItems] for one tag. *)
Definition addItem (g : S7ItemGroup) (tag : Tag) : Result S7ItemGroup :=
  match tag with
  | TagItem item => Ok (with_items g (ItemMap.set (name item) item (_items g)))
  | TagString s =>
      match S7Item_new s (_translationCallback g s) with
      | Some item => Ok (with_items g (ItemMap.set s item (_items g)))
      | None => Throw (NodeS7Error ERR_PARSE_ADDR None)
      end
  | TagOther => Throw (NodeS7Error ERR_INVALID_ARGUMENT None)
  end.

(** [for (const tag of tagsArr)]: a throw leaves the group with the items
    set so far. *)
Fixpoint addItems_loop (g : S7ItemGroup) (tagsArr : list Tag) : Result unit * S7ItemGroup :=
  match tagsArr with
  | [] => (Ok tt, g)
  | tag :: rest =>
      match addItem g tag with
      | Ok g' => addItems_loop g' rest
      | Throw e => (Throw e, g)
      | Diverge => (Diverge, g)
      end
  end.

(** [addItems(tags)] *)
Definition addItems (tags : TagsArg) (g : S7ItemGroup) : Result unit * S7ItemGroup :=
  let tagsArr :=
    match tags with
    | ArgArray l => l
    | ArgOne t => [t]
    | ArgMissing => [TagOther]
    end in
  match addItems_loop g tagsArr with
  | (Ok _, g') => (Ok tt, _invalidateReadPackets g')
  | (r, g') => (r, g')
  end.

(** [!tags] for the argument of [removeItems]: [undefined], [null] and the
    empty string are falsy. *)
Definition falsy_tags (tags : TagsArg) : bool :=
  match tags with
  | ArgMissing => true
  | ArgOne (TagString s) => String.eqb s ""
  | _ => false
  end.

(** [this._items.delete(tag)]: only a string can be a key of the map. *)
Definition delete_tag (m : ItemMap.t) (tag : Tag) : ItemMap.t :=
  match tag with
  | TagString s => ItemMap.delete s m
  | _ => m
  end.

(** [removeItems(tags)] *)
Definition removeItems (tags : TagsArg) (g : S7ItemGroup) : S7ItemGroup :=
  let items :=
    if falsy_tags tags then []
    else match tags with
         | ArgArray l => fold_left delete_tag l (_items g)
         | ArgOne t => delete_tag (_items g) t
         | ArgMissing => []
         end in
  _invalidateReadPackets (with_items g items).

(** The part of a read packet, as [readVars] reads it. *)
Definition part_request (p : Part.t) : VarItem :=
  mkVarItem (Part.area p) (Part.db p) (Part.transport p) (Part.address p) (Part.length p).

(** The context object of the errors that [readAllItems] throws for a
    request part. *)
Definition part_info (p : Part.t) : Info :=
  InfoPart (Part.area p) (Part.db p) (Part.address p) (Part.length p).

(** [item._copyFromBuffer(resPart.data, offset)] for one item of a part.
    The items of a plan are the objects stored in the map, found here under
    their name (an item of which the map knows nothing is the object of the
    plan itself); the call changes the stored object, also when it
    throws. *)
Definition copy_item (item : S7Item) (offset : option CopyOffsets) (resData : Buffer)
  (m : ItemMap.t) : Result unit * ItemMap.t :=
  let '(r, item') :=
    _copyFromBuffer (default item (ItemMap.get (name item) m)) resData offset in
  (r, ItemMap.update (name item) (fun _ => item') m).

(** [for (let k = 0; k < reqPart.items.length; k++)]: copy the response data
    into each item of the part, [items[k]] with [offsets[k]], which is
    [undefined] when the part has fewer offsets than items.  The first copy
    that throws ends the loop. *)
Fixpoint copy_items (its : list S7Item) (offs : list CopyOffsets) (resData : Buffer)
  (m : ItemMap.t) : Result unit * ItemMap.t :=
  match its with
  | [] => (Ok tt, m)
  | item :: its' =>
      match copy_item item (head offs) resData m with
      | (Ok _, m') => copy_items its' (tail offs) resData m'
      | (r, m') => (r, m')
      end
  end.

(** [for (let j = 0; j < req.length; j++)]: [res[j]] is [undefined] when
    the response has fewer parts than the request. *)
Fixpoint parse_parts (req : list Part.t) (res : list ReadRes) (m : ItemMap.t)
  : Result unit * ItemMap.t :=
  match req with
  | [] => (Ok tt, m)
  | reqPart :: req' =>
      match res with
      | [] => (Throw (NodeS7Error ERR_UNEXPECTED_RESPONSE (Some (part_info reqPart))), m)
      | resPart :: res' =>
          if negb (returnCode resPart =? constants.retval.DATA_OK) then
            (Throw (NodeS7Error (RetCode (returnCode resPart)) (Some (part_info reqPart))), m)
          else
            match copy_items (Part.items reqPart) (Part.offsets reqPart) (data resPart) m with
            | (Ok _, m') => parse_parts req' res' m'
            | (r, m') => (r, m')
            end
      end
  end.

(** [for (let i = 0; i < this._readPackets.length; i++)] *)
Fixpoint parse_packets (plan : Plan) (responses : list (list ReadRes)) (m : ItemMap.t)
  : Result unit * ItemMap.t :=
  match plan with
  | [] => (Ok tt, m)
  | req :: plan' =>
      match responses with
      | [] => (Throw TypeError, m)
      | res :: responses' =>
          match parse_parts req res m with
          | (Ok _, m') => parse_packets plan' responses' m'
          | (r, m') => (r, m')
          end
      end
  end.

(** What a method of the group leaves behind: its outcome, the world
    after it, and the packets it handed to the endpoint's [readVars] or
    [writeVars]. *)
Record Run (A Req : Type) : Type := mkRun {
  outcome : Result A;
  after : World;
  issued : list Req
}.
Arguments mkRun {A Req} outcome after issued.
Arguments outcome {A Req} r.
Arguments after {A Req} r.
Arguments issued {A Req} r.

(** [result[key] = value] on an object created by [{}].  The key
    [__proto__] names the accessor of [Object.prototype], whose setter
    makes no own property; every other key becomes, or stays, an own
    property that holds the value.  (The setter makes a value that is an
    object the prototype of [result]; the model does not follow what such
    a prototype may do to the assignments after it.) *)
Definition object_set (key : string) (value : Value) (result : gmap string Value)
  : gmap string Value :=
  if String.eqb key "__proto__" then result else <[key := value]> result.

(** [this._items.forEach((item, tag) => { item.updateValueFromBuffer();
    result[tag] = item.value })], from the empty object. *)
Definition result_object (m : ItemMap.t) : gmap string Value :=
  fold_left (fun result kv => object_set (fst kv) (updated_value (snd kv)) result) m empty.

(** [readAllItems()].  The call is run as a whole: nothing else touches
    the group between the requests and their responses.  The object it
    returns is given by its own properties, without their order. *)
Definition readAllItems (fuel : nat) (w : World) : Run (gmap string Value) Packet :=
  let g := group w in
  if negb (_endpoint g) then mkRun (Throw (Error "Already destroyed")) w []
  else
    let '(prepared, g1) :=
      match _readPackets g with
      | Some _ => (Ok tt, g)
      | None => _prepareReadPackets fuel (S7Endpoint.pduSize (endpoint w)) g
      end in
    match prepared with
    | Throw e => mkRun (Throw e) (with_group w g1) []
    | Diverge => mkRun Diverge (with_group w g1) []
    | Ok _ =>
        match _readPackets g1 with
        | None => mkRun (Throw TypeError) (with_group w g1) []
        | Some plan =>
            if (List.length plan =? 0)%nat then mkRun (Ok empty) (with_group w g1) []
            else
              let send job pkt :=
                S7Endpoint.readVars conn (endpoint w) job (map part_request pkt) in
              match promise_all (S7Endpoint.issue send 0%nat plan) with
              | Rejected e => mkRun (Throw e) (with_group w g1) plan
              | Resolved responses =>
                  let g2 := with_lastRequestTime g1 (Some hrtime) in
                  match parse_packets plan responses (_items g2) with
                  | (Ok _, m) =>
                      mkRun (Ok (result_object m)) (with_group w (with_items g2 m)) plan
                  | (Throw e, m) => mkRun (Throw e) (with_group w (with_items g2 m)) plan
                  | (Diverge, m) => mkRun Diverge (with_group w (with_items g2 m)) plan
                  end
              end
        end
    end.

(** The [values] argument of [writeItems]: an array or a single value. *)
Inductive ValuesArg : Type :=
| ValArray (values : list Value)
| ValOne (value : Value).

Definition overheadPerItem : Z := 16.

(** The local variables of the packing loop of [writeItems]. *)
Record WriteState : Type := mkWriteState {
  reqPackets : list (list WriteItem);
  reqItems : list WriteItem;
  curRequestLength : Z
}.

(** The object literal pushed onto [reqItems]. *)
Definition write_request (item : S7Item) (buf : Buffer) : WriteItem :=
  let bitAddr := writeTransportCode item =? constants.dataTransport.BBIT in
  mkWriteItem (areaCode item) (dbNumber item)
    (if bitAddr then js_shl (offset item) 3 + bitOffset item else offset item)
    (if bitAddr then constants.transport.BIT else readTransportCode item)
    (writeTransportCode item) buf (Z.of_nat (List.length buf)).

(** The item of a tag: the one of the group, or a new one that is not
    stored anywhere. *)
Definition item_of_tag (g : S7ItemGroup) (tag : string) : option S7Item :=
  match ItemMap.get tag (_items g) with
  | Some item => Some item
  | None => S7Item_new tag (_translationCallback g tag)
  end.

(** The body of [for (let i = 0; i < tags.length; i++)]. *)
Definition write_step (g : S7ItemGroup) (maxPayloadSize : Z) (st : WriteState)
  (tag : Tag) (value : Value) : Result WriteState :=
  match tag with
  | TagString s =>
      match item_of_tag g s with
      | None => Throw (NodeS7Error ERR_PARSE_ADDR None)
      | Some item =>
          let buf := getWriteBuffer item value in
          let reqItemLength := overheadPerItem + byteLengthWithFill item in
          if reqItemLength >? maxPayloadSize
          then Throw (NodeS7Error ERR_ITEM_TOO_BIG (Some (InfoTag s)))
          else
            let st' :=
              if curRequestLength st + reqItemLength >? maxPayloadSize
              then mkWriteState (reqPackets st ++ [reqItems st]) [] 0
              else st in
            Ok (mkWriteState (reqPackets st')
                  (reqItems st' ++ [write_request item buf])
                  (curRequestLength st' + reqItemLength))
      end
  | _ => Throw (NodeS7Error ERR_INVALID_ARGUMENT None)
  end.

(** The loop over the tags and their values. *)
Fixpoint write_loop (g : S7ItemGroup) (maxPayloadSize : Z) (st : WriteState)
  (tags : list Tag) (values : list Value) : Result WriteState :=
  match tags, values with
  | tag :: tags', value :: values' =>
      match write_step g maxPayloadSize st tag value with
      | Ok st' => write_loop g maxPayloadSize st' tags' values'
      | Throw e => Throw e
      | Diverge => Diverge
      end
  | _, _ => Ok st
  end.

(** The request packets of a call of [writeItems] that reaches the
    packing loop. *)
Definition write_packets (g : S7ItemGroup) (pduSize : option Z)
  (tags : list Tag) (values : list Value) : Result (list (list WriteItem)) :=
  match write_loop g (S7Endpoint.to_number pduSize - 12) (mkWriteState [] [] 0)
          tags values with
  | Ok st => Ok (reqPackets st ++ [reqItems st])
  | Throw e => Throw e
  | Diverge => Diverge
  end.

(** The loops over the responses of [writeItems]. *)
Fixpoint check_write_responses (responses : list WriteRes) : Result unit :=
  match responses with
  | [] => Ok tt
  | res :: rest =>
      if negb (w_returnCode res =? constants.retval.DATA_OK)
      then Throw (NodeS7Error (RetCode (w_returnCode res)) None)
      else check_write_responses rest
  end.

(** [writeItems(tags, values)] *)
Definition writeItems (tags : TagsArg) (values : ValuesArg) (w : World)
  : Run unit (list WriteItem) :=
  let g := group w in
  if negb (_endpoint g) then mkRun (Throw (Error "Already destroyed")) w []
  else
    match
      match tags with
      | ArgOne (TagString s) => Some [TagString s]
      | ArgArray l => Some l
      | _ => None
      end
    with
    | None => mkRun (Throw (NodeS7Error ERR_INVALID_ARGUMENT None)) w []
    | Some tags =>
        let values := match values with ValArray l => l | ValOne v => [v] end in
        if negb (List.length values =? List.length tags)%nat
        then mkRun (Throw (NodeS7Error ERR_INVALID_ARGUMENT None)) w []
        else if (List.length tags =? 0)%nat then mkRun (Ok tt) w []
        else if negb (S7Endpoint.isConnected (endpoint w))
        then mkRun (Throw (NodeS7Error ERR_NOT_CONNECTED None)) w []
        else
          match write_packets g (S7Endpoint.pduSize (endpoint w)) tags values with
          | Throw e => mkRun (Throw e) w []
          | Diverge => mkRun Diverge w []
          | Ok reqPackets =>
              match promise_all
                      (S7Endpoint.issue (S7Endpoint.writeVars conn (endpoint w)) 0%nat
                         reqPackets) with
              | Rejected e => mkRun (Throw e) w reqPackets
              | Resolved responses =>
                  mkRun (check_write_responses (concat responses))
                        (with_group w (with_lastRequestTime g (Some hrtime)))
                        reqPackets
              end
          end
    end.

End Collaborators.

Arguments mkRun {A Req} outcome after issued.
Arguments outcome {A Req} r.
Arguments after {A Req} r.
Arguments issued {A Req} r.

(** ** Test fixtures: concrete collaborators *)

Module Fixture.

(** Modelled from the spec: [_getCopyBufferOffsets] of the missing class
    [S7Item] locates the bytes of the item inside the window
    [[partAddress, partAddress + partLength)] and answers [None] when the
    window holds none of them. *)
Definition _getCopyBufferOffsets (item : S7Item) (partAddress partLength : Z)
  : option CopyOffsets :=
  let itemStart := offset item in
  let itemEnd := itemStart + byteLength item in
  let partEnd := partAddress + partLength in
  if (itemEnd <=? partAddress) || (partEnd <=? itemStart) then None
  else
    let first := Z.max partAddress itemStart in
    let last := Z.min partEnd itemEnd in
    Some (mkOffsets (first - partAddress) (first - itemStart) (last - first)).

(** Modelled from the spec: the item that the address parser builds for a
    run of [len] bytes at byte [off] of an area ([DB1,BYTE0] is
    [byte_item "..." "DB" DB (Some 1) 0 1]). *)
Definition byte_item (nm ty : string) (area : Z) (db : option Z) (off len : Z) : S7Item :=
  mkItem nm ty area db off 0 len len constants.transport.BYTE
         constants.dataTransport.BBYTE (repeat x00 (Z.to_nat len)).

Definition DB1_BYTE0 : S7Item := byte_item "DB1,BYTE0" "DB" constants.area.DB (Some 1) 0 1.
Definition DB1_BYTE3 : S7Item := byte_item "DB1,BYTE3" "DB" constants.area.DB (Some 1) 3 1.
Definition M0_BYTE410 : S7Item := byte_item "M0,BYTE410" "M" constants.area.FLAGS None 0 410.
Definition MB406 : S7Item := byte_item "MB406" "M" constants.area.FLAGS None 406 1.
Definition M0_BYTE500 : S7Item := byte_item "M0,BYTE500" "M" constants.area.FLAGS None 0 500.

(** A stand-in for the address parser that knows the addresses above. *)
Definition S7Item_new (tag addr : string) : option S7Item :=
  if String.eqb addr "DB1,BYTE0" then Some (byte_item tag "DB" constants.area.DB (Some 1) 0 1)
  else if String.eqb addr "DB1,BYTE3" then Some (byte_item tag "DB" constants.area.DB (Some 1) 3 1)
  else if String.eqb addr "M0,BYTE500" then Some (byte_item tag "M" constants.area.FLAGS None 0 500)
  else None.

(** Values are the raw bytes of an item. *)
Definition Value : Type := Buffer.
Definition getWriteBuffer (item : S7Item) (v : Value) : Buffer := v.
Definition updated_value (item : S7Item) : Value := buffer item.

(** Modelled from the spec: [_copyFromBuffer] of the missing class
    [S7Item] scatters the bytes that the descriptor names into the buffer
    of the item, as [Buffer.prototype.copy] does: it throws a [RangeError]
    when the source offset lies beyond the data, and a [TypeError] when it
    is handed no descriptor. *)
Definition _copyFromBuffer (item : S7Item) (resData : Buffer) (offsets : option CopyOffsets)
  : Result unit * S7Item :=
  match offsets with
  | None => (Throw TypeError, item)
  | Some o =>
      if Z.of_nat (List.length resData) <? sourceOffset o then (Throw RangeError, item)
      else
        (Ok tt,
         mkItem (name item) (addrtype item) (areaCode item) (dbNumber item) (offset item)
           (bitOffset item) (byteLength item) (byteLengthWithFill item)
           (readTransportCode item) (writeTransportCode item)
           (take (Z.to_nat (destOffset o)) (buffer item)
            ++ take (Z.to_nat (byteCount o)) (drop (Z.to_nat (sourceOffset o)) resData)
            ++ drop (Z.to_nat (destOffset o + byteCount o)) (buffer item)))
  end.

(** A connection whose PLC answers every part with [code] and, for reads,
    with as many zero bytes as were asked for. *)
Definition plc (code : Z) : Connection :=
  mkConnection
    (fun _ reqs => Resolved (map (fun r => mkReadRes code (repeat x00 (Z.to_nat (any_length r)))) reqs))
    (fun _ reqs _ => Resolved (map (fun _ => mkWriteRes code) reqs)).

(** A connection whose PLC answers every read with the scripted results
    of the job, whatever was asked. *)
Definition scripted (script : list (list ReadRes)) : Connection :=
  mkConnection
    (fun job _ => Resolved (nth job script []))
    (fun _ reqs _ => Resolved (map (fun _ => mkWriteRes constants.retval.DATA_OK) reqs)).

(** A connection that answers the reads as [scripted] does, except for the
    job number [bad], which it rejects with [err]. *)
Definition rejecting (script : list (list ReadRes)) (bad : nat) (err : Exn) : Connection :=
  mkConnection
    (fun job _ => if (job =? bad)%nat then Rejected err else Resolved (nth job script []))
    (fun _ reqs _ => Resolved (map (fun _ => mkWriteRes constants.retval.DATA_OK) reqs)).

Definition connected (pduSize : Z) : S7Endpoint.t :=
  S7Endpoint.mk S7Endpoint.CONN_CONNECTED (Some pduSize).

Definition default_opts : Opts := mkOpts None None.

(** A group with default options that holds the given items and has no
    cached plan. *)
Definition group_of (items : list S7Item) : S7ItemGroup :=
  mkGroup true false 5 (map (fun it => (name it, it)) items) None
          _defaultTranslationCallback None.

End Fixture.

(** ** Sizes of a read packet *)

Definition sumZ (l : list Z) : Z := foldr Z.add 0 l.

(** The size of the response to a packet: the header and, per part, its
    overhead and its bytes. *)
Definition response_size (pkt : Packet) : Z :=
  Planner.resHeaderSize + sumZ (map (fun p => Part.length p + Planner.resPartSize) pkt).

(** The size of the request of a packet: the header and the parts. *)
Definition request_size (pkt : Packet) : Z :=
  Planner.reqHeaderSize + Planner.reqPartSize * Z.of_nat (List.length pkt).

(** ** Examples *)

(** A world for the examples: a connected endpoint and a group with
    default options that holds the given items. *)
Definition example_world (pduSize : Z) (items : list S7Item) : World :=
  mkWorld (Fixture.connected pduSize) (Fixture.group_of items) true.

(** [readAllItems] with the collaborators of the examples. *)
Definition example_readAllItems (conn : Connection) (fuel : nat) (w : World)
  : Run (gmap string Buffer) Packet :=
  readAllItems Fixture.Value Fixture._getCopyBufferOffsets Fixture._copyFromBuffer
    Fixture.updated_value conn 0 fuel w.

(** [writeItems] with the collaborators of the examples. *)
Definition example_writeItems (conn : Connection) (tags : TagsArg)
  (values : ValuesArg Buffer) (w : World) : Run unit (list WriteItem) :=
  writeItems Fixture.Value Fixture.S7Item_new Fixture.getWriteBuffer conn 0 tags values w.

(** * More of the item group and of the endpoint *)

(** ** setTranslationCB *)

(** The argument of [setTranslationCB]: a function, [null] or [undefined],
    or anything else. *)
Inductive CallbackArg : Type :=
| CbFunction (func : string -> string)
| CbNullish
| CbOther.

Definition with_translationCallback (g : S7ItemGroup) (f : string -> string) : S7ItemGroup :=
  mkGroup (_endpoint g) (_skipOptimization g) (_optimizationGap g) (_items g)
          (_readPackets g) f (_lastRequestTime g).

(** [setTranslationCB(func)] *)
Definition setTranslationCB (func : CallbackArg) (g : S7ItemGroup)
  : Result unit * S7ItemGroup :=
  match func with
  | CbFunction f => (Ok tt, with_translationCallback g f)
  | CbNullish => (Ok tt, with_translationCallback g _defaultTranslationCallback)
  | CbOther => (Throw (NodeS7Error ERR_INVALID_ARGUMENT None), g)
  end.

(** ** Buffers of numbers *)

(** The number that a byte holds, and the byte that holds a number of
    0..255. *)
Definition byte_value (b : byte) : Z := Z.of_N (Byte.to_N b).
Definition byte_of (n : Z) : byte := default x00 (Byte.of_N (Z.to_N n)).

(** [buf.readUInt16BE(offset)]; [None] stands for the [RangeError] of an
    offset outside the buffer. *)
Definition readUInt16BE (buf : Buffer) (offset : nat) : option Z :=
  match buf !! offset, buf !! S offset with
  | Some hi, Some lo => Some (byte_value hi * 256 + byte_value lo)
  | _, _ => None
  end.

(** [buf.writeUInt16BE(value, offset)]; [None] stands for the [RangeError]
    of a value outside 0..65535 or of an offset outside the buffer. *)
Definition writeUInt16BE (buf : Buffer) (value : Z) (offset : nat) : option Buffer :=
  if (0 <=? value) && (value <=? 65535) && (offset + 2 <=? List.length buf)%nat
  then Some (<[S offset := byte_of (value mod 256)]> (<[offset := byte_of (value / 256)]> buf))
  else None.

(** ** System status lists: getSSL and getAvailableSSL *)

Module SSL.

(** The context object of the two [ERR_UNEXPECTED_RESPONSE] errors of
    [getSSL]. *)
Inductive MismatchInfo : Type :=
| IdMismatch (resId resIdx : Z)
| SizeMismatch (entryCount entryLength : Z).

(** What [getSSL] throws: what the connection rejects with (or the
    [TypeError] of a missing connection), the [RangeError] of a buffer
    access, or a [NodeS7Error] with the code [ERR_UNEXPECTED_RESPONSE]. *)
Inductive Thrown : Type :=
| Raised (e : Exn)
| RangeError
| UnexpectedResponse (info : MismatchInfo).

Inductive Outcome (A : Type) : Type :=
| Returned (a : A)
| Failed (t : Thrown).
Arguments Returned {A} a.
Arguments Failed {A} t.

(** The four bytes of the request: [Buffer.alloc(4)] with the id and the
    index written into it. *)
Definition request (id index : Z) : option Buffer :=
  match writeUInt16BE (repeat x00 4) id 0 with
  | Some reqBuf => writeUInt16BE reqBuf index 2
  | None => None
  end.

(** The [for (let i = 0; i < entryCount; i++)] loop. *)
Definition entries (res : Buffer) (entryLength entryCount : Z) : list Buffer :=
  map (fun i => let ptr := 8 + entryLength * Z.of_nat i in slice res ptr (ptr + entryLength))
      (seq 0 (Z.to_nat entryCount)).

Section WithConnection.

(** Modelled from the spec: [this._connection.sendUserData(CPU_FUNC, READSZL,
    reqBuf)] of the class [S7Connection], which is not part of the sources
    at hand; [None] while [this._connection] is [null]. *)
Variable _connection : option (Buffer -> Settled Buffer).

(** [getSSL(id, index, strict)] *)
Definition getSSL (id index : Z) (strict : bool) : Outcome (list Buffer) :=
  match request id index with
  | None => Failed RangeError
  | Some reqBuf =>
      match _connection with
      | None => Failed (Raised TypeError)
      | Some sendUserData =>
          match sendUserData reqBuf with
          | Rejected e => Failed (Raised e)
          | Resolved res =>
              match readUInt16BE res 0 with
              | None => Failed RangeError
              | Some resId =>
                  match readUInt16BE res 2 with
                  | None => Failed RangeError
                  | Some resIdx =>
                      if strict && (negb (resId =? id) || negb (resIdx =? index))
                      then Failed (UnexpectedResponse (IdMismatch resId resIdx))
                      else
                        match readUInt16BE res 4 with
                        | None => Failed RangeError
                        | Some entryLength =>
                            match readUInt16BE res 6 with
                            | None => Failed RangeError
                            | Some entryCount =>
                                if negb (entryLength * entryCount
                                         =? Z.of_nat (List.length res) - 8)
                                then Failed (UnexpectedResponse
                                               (SizeMismatch entryCount entryLength))
                                else Returned (entries res entryLength entryCount)
                            end
                        end
                  end
              end
          end
      end
  end.

(** [getAvailableSSL()] *)
Definition getAvailableSSL : Outcome (list Z) :=
  match getSSL 0 0 false with
  | Failed t => Failed t
  | Returned res =>
      match mapM (fun b => readUInt16BE b 0) res with
      | Some ids => Returned ids
      | None => Failed RangeError
      end
  end.

End WithConnection.

(** A PLC for the examples: it answers a request with the four bytes of
    the request followed by [body]. *)
Definition echo (body : Buffer) : option (Buffer -> Settled Buffer) :=
  Some (fun reqBuf => Resolved (reqBuf ++ body)).

(** Three entries of two bytes each, behind their length and count. *)
Definition three_ids : Buffer :=
  [x00; x02; x00; x03; x00; x11; x00; x1c; x01; x31].

End SSL.

(** ** The life of an endpoint: constructor, connect, disconnect, events *)

(** The JavaScript operator [a | b] on numbers. *)
Definition js_or (a b : Z) : Z := Z.lor (to_int32 a) (to_int32 b).

Module Lifecycle.

(** The options object of the constructor.  A field is [None] when the
    property is [undefined]; for [rack], [slot] and [dstTSAP], when it is
    not a number.  The model covers an endpoint without a
    [customTransport]. *)
Record Opts : Type := mkOpts {
  host : option string;
  port : option Z;
  rack : option Z;
  slot : option Z;
  srcTSAP : option Z;
  dstTSAP : option Z;
  autoReconnect : option Z
}.

(** [this._connOptsTcp] *)
Record TcpOpts : Type := mkTcp {
  tcp_host : option string;
  tcp_port : Z;
  tcp_srcTSAP : Z;
  tcp_dstTSAP : Z;
  forceClose : bool
}.

(** The fields of the endpoint.  [_connection] and [_transport] tell
    whether the field holds an object or [null]; [_reconnectTimer] tells
    whether the timer of [_scheduleReconnection] is armed.  The events that
    the endpoint emits are not part of the state. *)
Record t : Type := mk {
  _autoReconnect : Z;
  _connOptsTcp : TcpOpts;
  _connectionState : S7Endpoint.ConnState;
  _connection : bool;
  _transport : bool;
  _pduSize : option Z;
  _reconnectTimer : bool;
  _shouldConnect : bool
}.

Definition with_state (s : S7Endpoint.ConnState) (e : t) : t :=
  mk (_autoReconnect e) (_connOptsTcp e) s (_connection e) (_transport e) (_pduSize e)
     (_reconnectTimer e) (_shouldConnect e).

Definition with_connection (c : bool) (e : t) : t :=
  mk (_autoReconnect e) (_connOptsTcp e) (_connectionState e) c (_transport e) (_pduSize e)
     (_reconnectTimer e) (_shouldConnect e).

Definition with_transport (tr : bool) (e : t) : t :=
  mk (_autoReconnect e) (_connOptsTcp e) (_connectionState e) (_connection e) tr (_pduSize e)
     (_reconnectTimer e) (_shouldConnect e).

Definition with_pduSize (p : option Z) (e : t) : t :=
  mk (_autoReconnect e) (_connOptsTcp e) (_connectionState e) (_connection e) (_transport e) p
     (_reconnectTimer e) (_shouldConnect e).

Definition with_timer (armed : bool) (e : t) : t :=
  mk (_autoReconnect e) (_connOptsTcp e) (_connectionState e) (_connection e) (_transport e)
     (_pduSize e) armed (_shouldConnect e).

Definition with_shouldConnect (b : bool) (e : t) : t :=
  mk (_autoReconnect e) (_connOptsTcp e) (_connectionState e) (_connection e) (_transport e)
     (_pduSize e) (_reconnectTimer e) b.

(** The endpoint as [readVars] and the item group see it. *)
Definition view (e : t) : S7Endpoint.t := S7Endpoint.mk (_connectionState e) (_pduSize e).

(** [clearTimeout(this._reconnectTimer)] *)
Definition clearTimeout (e : t) : t := with_timer false e.

(** [_scheduleReconnection()] *)
Definition _scheduleReconnection (e : t) : t :=
  let e := clearTimeout e in
  if 0 <? _autoReconnect e then with_timer true e else e.

(** [_destroyConnection()] *)
Definition _destroyConnection (e : t) : t :=
  let e := if _shouldConnect e then _scheduleReconnection e else e in
  let e := with_state S7Endpoint.CONN_DISCONNECTED e in
  if negb (_connection e) then e else with_connection false e.

(** [_destroyTransport()] *)
Definition _destroyTransport (e : t) : t :=
  let e := _destroyConnection e in
  if negb (_transport e) then e else with_transport false e.

(** [_closeTransport()]: the transport is asked to end and stays in its
    field until one of its events arrives. *)
Definition _closeTransport (e : t) : t := with_state S7Endpoint.CONN_DISCONNECTED e.

(** [_disconnect()] *)
Definition _disconnect (e : t) : t :=
  _closeTransport (_destroyConnection (with_state S7Endpoint.CONN_DISCONNECTED e)).

(** [this._connectionState > CONN_DISCONNECTED] *)
Definition beyond_disconnected (s : S7Endpoint.ConnState) : bool :=
  negb (S7Endpoint.ConnState_eqb s S7Endpoint.CONN_DISCONNECTED).

(** [_connect()], up to the call of [_createIsoTransport], which stores
    the new transport ([isoOnTcp.createConnection] is taken to return
    one). *)
Definition _connect (e : t) : t :=
  let e := clearTimeout e in
  if beyond_disconnected (_connectionState e) then e
  else
    let e := _destroyTransport (_destroyConnection e) in
    with_transport true (with_state S7Endpoint.CONN_CONNECTING e).

(** [_onTransportClose()], [_onTransportEnd()] and [_onTransportError(e)] *)
Definition _onTransportClose (e : t) : t := _destroyTransport e.
Definition _onTransportEnd (e : t) : t := _destroyTransport e.
Definition _onTransportError (e : t) : t := _destroyTransport e.

(** [_onConnectionTimeout()] and [_onConnectionError(e)] *)
Definition _onConnectionTimeout (e : t) : t := _disconnect e.
Definition _onConnectionError (e : t) : t := _disconnect e.

(** The callback of [race.then] in [_connect]: it throws a [TypeError]
    when the transport is gone, which the [catch] hands to
    [_onTransportError]; otherwise [_createS7Connection] stores a new
    connection. *)
Definition on_transport_ready (e : t) : t :=
  if negb (_transport e) then _onTransportError e else with_connection true e.

(** [_onConnectionConnected()], with [connPduSize] the pdu size of the
    connection; reading it from a missing connection throws. *)
Definition _onConnectionConnected (connPduSize : option Z) (e : t) : t :=
  let e := clearTimeout e in
  if negb (_connection e) then e
  else with_state S7Endpoint.CONN_CONNECTED (with_pduSize connPduSize e).

(** [connect()]: the error of a promise that is rejected at once, and the
    endpoint after the call. *)
Definition connect (e : t) : option Exn * t :=
  let e := with_shouldConnect true e in
  match _connectionState e with
  | S7Endpoint.CONN_CONNECTED => (None, e)
  | S7Endpoint.CONN_DISCONNECTING => (Some (NodeS7Error ERR_ILLEGAL_STATE None), e)
  | _ => (None, _connect e)
  end.

(** [disconnect()] *)
Definition disconnect (e : t) : t :=
  let e := with_shouldConnect false e in
  match _connectionState e with
  | S7Endpoint.CONN_DISCONNECTED => clearTimeout e
  | _ => _disconnect e
  end.

(** The callback of the timer of [_scheduleReconnection]. *)
Definition timer_fires (e : t) : t :=
  if _reconnectTimer e then _connect (with_timer false e) else e.

(** [new S7Endpoint(opts)] *)
Definition constructor (opts : Opts) : t :=
  let autoReconnect := default 5000 (autoReconnect opts) in
  let dstTSAP :=
    match dstTSAP opts with
    | Some d => d
    | None =>
        let rack := default 0 (rack opts) in
        let slot := default 2 (slot opts) in
        js_or (js_or 0x0100 (js_shl rack 5)) slot
    end in
  let tcp :=
    mkTcp (host opts)
      (if truthy (port opts) then default 102 (port opts) else 102)
      (if truthy (srcTSAP opts) then default 0x0100 (srcTSAP opts) else 0x0100)
      dstTSAP true in
  let e := mk autoReconnect tcp S7Endpoint.CONN_DISCONNECTED false false None false false in
  if 0 <? autoReconnect then _connect (with_shouldConnect true e) else e.

(** What happens to an endpoint: a call of a public method, the timer, or
    an event of the transport or of the connection. *)
Inductive Action : Type :=
| CallConnect
| CallDisconnect
| TimerFires
| TransportReady
| TransportError
| TransportClose
| TransportEnd
| ConnectionConnected (connPduSize : option Z)
| ConnectionError
| ConnectionTimeout.

Definition step (a : Action) (e : t) : t :=
  match a with
  | CallConnect => snd (connect e)
  | CallDisconnect => disconnect e
  | TimerFires => timer_fires e
  | TransportReady => on_transport_ready e
  | TransportError => _onTransportError e
  | TransportClose => _onTransportClose e
  | TransportEnd => _onTransportEnd e
  | ConnectionConnected connPduSize => _onConnectionConnected connPduSize e
  | ConnectionError => _onConnectionError e
  | ConnectionTimeout => _onConnectionTimeout e
  end.

(** The endpoints that the constructor and any sequence of actions lead
    to. *)
Inductive Reachable : t -> Prop :=
| reach_new opts : Reachable (constructor opts)
| reach_step a e : Reachable e -> Reachable (step a e).

(** The endpoints that actions other than a call of [connect()] lead to
    from a given endpoint. *)
Inductive Unattended (e0 : t) : t -> Prop :=
| unattended_now : Unattended e0 e0
| unattended_step a e : Unattended e0 e -> a <> CallConnect -> Unattended e0 (step a e).

Definition default_opts : Opts := mkOpts None None None None None None None.

End Lifecycle.

(** ** Blocks: uploadBlock and uploadAllBlocks *)

Module Blocks.

(** The character of a digit: [0]..[9], then [a]..[z]. *)
Definition digit_char (d : Z) : ascii :=
  ascii_of_nat (Z.to_nat (if d <? 10 then 48 + d else 87 + d)).

(** The digits of a number that is not negative, most significant
    first, in front of [acc]. *)
Fixpoint digits (fuel : nat) (radix n : Z) (acc : string) : string :=
  match fuel with
  | O => acc
  | S fuel' =>
      let acc' := String (digit_char (n mod radix)) acc in
      if n / radix =? 0 then acc' else digits fuel' radix (n / radix) acc'
  end.

(** All the digits of an integer [n] in a radix, after its sign; a number
    has at most as many digits as it has bits. *)
Definition all_digits (radix n : Z) : string :=
  if n <? 0 then String "-" (digits (S (Z.to_nat (Z.log2 (- n)))) radix (- n) "")
  else digits (S (Z.to_nat (Z.log2 n))) radix n "".

(** From this number on, [Number.prototype.toString] prints a number in
    radix 10 with an exponent: [1e+21]. *)
Definition exponent_from : Z := 1000000000000000000000.

Section WithConnection.

(** The string with an exponent that JavaScript prints, in radix 10, for a
    number from [exponent_from] on.  Its digits are those of the shortest
    decimal that reads back as the number; the model does not compute
    them. *)
Variable exponent : Z -> string.

(** [n.toString(radix)] for an integer [n]. *)
Definition toString (radix n : Z) : string :=
  if (radix =? 10) && (exponent_from <=? Z.abs n)
  then (if n <? 0 then String "-" (exponent (- n)) else exponent n)
  else all_digits radix n.

(** [s.padStart(targetLength, '0')] *)
Definition padStart (targetLength : nat) (s : string) : string :=
  String.append
    (string_of_list_ascii (repeat "0"%char (targetLength - String.length s))) s.

(** [s.toUpperCase()] on the letters [a]..[z]. *)
Definition upper_char (c : ascii) : ascii :=
  let n := nat_of_ascii c in
  if ((97 <=? n) && (n <=? 122))%nat then ascii_of_nat (n - 32) else c.

Fixpoint toUpperCase (s : string) : string :=
  match s with
  | EmptyString => EmptyString
  | String c s' => String (upper_char c) (toUpperCase s')
  end.

(** The [type] argument of [uploadBlock]: a number, a string, or anything
    else. *)
Inductive BlockType : Type :=
| TypeNumber (n : Z)
| TypeString (s : string)
| TypeOther.

(** The file name that [uploadBlock] builds: [number.toString()] is in
    radix 10. *)
Definition file_name (blkTypeId number : Z) (headerOnly : bool) (filesystem : string) : string :=
  let fileId := if headerOnly then "$" else "_" in
  let blkTypeString := toUpperCase (padStart 2 (toString 16 blkTypeId)) in
  let blkNumString := padStart 5 (toString 10 number) in
  String.append fileId (String.append blkTypeString (String.append blkNumString filesystem)).

(** The types that [listAllBlocks] and [uploadAllBlocks] go through, in
    their order. *)
Definition all_types : list string := ["OB"; "DB"; "SDB"; "FC"; "SFC"; "FB"; "SFB"].

(** Modelled from the spec: the table [constants.proto.block.subtype] of
    [constants.json] and the methods [listBlocks] (of which only the block
    numbers are used here) and [uploadBlock] of the class [S7Connection];
    neither file is part of the sources at hand.  [_connection] is [None]
    while [this._connection] is [null]. *)
Variable subtype : string -> option Z.
Variable _connection : option ((string -> Settled (list Z)) * (string -> Settled Buffer)).

(** [uploadBlock(type, number, headerOnly, filesystem)], for a type and a
    block number that are integers when they are numbers. *)
Definition uploadBlock (type : BlockType) (number : Z) (headerOnly : bool)
  (filesystem : string) : Result Buffer :=
  match
    match type with
    | TypeNumber n => if (n <? 0) || (n >? 255) then None else Some n
    | TypeString s => subtype (toUpperCase s)
    | TypeOther => None
    end
  with
  | None => Throw (NodeS7Error ERR_INVALID_ARGUMENT None)
  | Some blkTypeId =>
      if negb (existsb (String.eqb filesystem) ["A"; "P"; "B"]%string)
      then Throw (NodeS7Error ERR_INVALID_ARGUMENT None)
      else
        let filename := file_name blkTypeId number headerOnly filesystem in
        if negb (String.length filename =? 9)%nat
        then Throw (Error (String.append "Internal error on generated filename ["
                             (String.append filename "]")))
        else
          match _connection with
          | None => Throw TypeError
          | Some (_, upload) =>
              match upload filename with
              | Resolved buf => Ok buf
              | Rejected e => Throw e
              end
          end
  end.

(** [listBlocks(type)] *)
Definition listBlocks (type : string) : Result (list Z) :=
  match _connection with
  | None => Throw TypeError
  | Some (list_, _) =>
      match list_ type with
      | Resolved blocks => Ok blocks
      | Rejected e => Throw e
      end
  end.

(** [listAllBlocks()]: the lists of the seven types, in the order of
    [all_types]. *)
Fixpoint listAllBlocks_from (types : list string) : Result (list (string * list Z)) :=
  match types with
  | [] => Ok []
  | typ :: rest =>
      match listBlocks typ with
      | Ok blocks =>
          match listAllBlocks_from rest with
          | Ok lists => Ok ((typ, blocks) :: lists)
          | Throw e => Throw e
          | Diverge => Diverge
          end
      | Throw e => Throw e
      | Diverge => Diverge
      end
  end.

Definition listAllBlocks : Result (list (string * list Z)) := listAllBlocks_from all_types.

(** The loop [for (const blk of blockList[typ])] of [uploadAllBlocks],
    after the uploads [res] made so far. *)
Fixpoint uploadType (strict : bool) (typ : string) (blocks : list Z) (res : list Buffer)
  : Result (list Buffer) :=
  match blocks with
  | [] => Ok res
  | number :: rest =>
      match uploadBlock (TypeString typ) number false "A" with
      | Ok buf => uploadType strict typ rest (res ++ [buf])
      | Throw e => if strict then Throw e else uploadType strict typ rest res
      | Diverge => Diverge
      end
  end.

(** The calls [await uploadType('OB')] to [await uploadType('SFB')]. *)
Fixpoint uploadTypes (strict : bool) (lists : list (string * list Z)) (res : list Buffer)
  : Result (list Buffer) :=
  match lists with
  | [] => Ok res
  | (typ, blocks) :: rest =>
      match uploadType strict typ blocks res with
      | Ok res' => uploadTypes strict rest res'
      | Throw e => Throw e
      | Diverge => Diverge
      end
  end.

(** [uploadAllBlocks(strict)] *)
Definition uploadAllBlocks (strict : bool) : Result (list Buffer) :=
  match listAllBlocks with
  | Ok lists => uploadTypes strict lists []
  | Throw e => Throw e
  | Diverge => Diverge
  end.

End WithConnection.

(** A PLC for the examples: it has the data blocks 1 and 2 and no other
    block, and only the upload of the first one succeeds. *)
Definition subtypes (name : string) : option Z :=
  if String.eqb name "OB" then Some 0x08
  else if String.eqb name "DB" then Some 0x0A
  else None.

(** A stand-in for the strings with an exponent that knows the one of
    10^21. *)
Definition exponent_1e21 (n : Z) : string := "1e+21".

Definition two_blocks : option ((string -> Settled (list Z)) * (string -> Settled Buffer)) :=
  Some (fun typ => Resolved (if String.eqb typ "DB" then [1; 2] else []),
        fun filename =>
          if String.eqb filename "_0A00001A" then Resolved [x01]
          else Rejected (NodeS7Error ERR_UNEXPECTED_RESPONSE None)).

End Blocks.

(** ** Module identification *)

Module Identification.

(** The character that the encoding ['ascii'] gives for a byte: its
    highest bit is cleared. *)
Definition ascii_char (b : byte) : ascii := ascii_of_N (N.land (Byte.to_N b) 127).

(** [buf.toString('ascii', start, end)], as a list of characters. *)
Definition toString_ascii (buf : Buffer) (start end_ : nat) : list ascii :=
  map ascii_char (take (end_ - start) (drop start buf)).

(** The white space and the line terminators among the characters of seven
    bits: tab, line feed, vertical tab, form feed, carriage return and
    space. *)
Definition is_space (c : ascii) : bool :=
  let n := nat_of_ascii c in ((n =? 32) || ((9 <=? n) && (n <=? 13)))%nat.

Fixpoint trimStart (s : list ascii) : list ascii :=
  match s with
  | c :: s' => if is_space c then trimStart s' else s
  | [] => []
  end.

(** [s.trim()] *)
Definition trim (s : list ascii) : list ascii := rev (trimStart (rev (trimStart s))).

(** The object that [getModuleIdentification] returns; [None] is [null]. *)
Record ModuleInformation : Type := mkInfo {
  moduleOrderNumber : option (list ascii);
  hardwareOrderNumber : option (list ascii);
  firmwareOrderNumber : option (list ascii)
}.

(** The body of [for (const buf of res)]; the [switch] compares the low
    byte of the id with 1, 6 and 7 in turn. *)
Definition module_entry (info : ModuleInformation) (buf : Buffer)
  : SSL.Outcome ModuleInformation :=
  if negb (List.length buf =? 28)%nat
  then SSL.Failed (SSL.Raised (NodeS7Error ERR_UNEXPECTED_RESPONSE None))
  else
    match readUInt16BE buf 0 with
    | None => SSL.Failed SSL.RangeError
    | Some id =>
        let number := Some (trim (toString_ascii buf 2 22)) in
        let kind := Z.land id 0xff in
        SSL.Returned
          (if kind =? 1
           then mkInfo number (hardwareOrderNumber info) (firmwareOrderNumber info)
           else if kind =? 6
           then mkInfo (moduleOrderNumber info) number (firmwareOrderNumber info)
           else if kind =? 7
           then mkInfo (moduleOrderNumber info) (hardwareOrderNumber info) number
           else info)
    end.

Fixpoint module_entries (info : ModuleInformation) (res : list Buffer)
  : SSL.Outcome ModuleInformation :=
  match res with
  | [] => SSL.Returned info
  | buf :: rest =>
      match module_entry info buf with
      | SSL.Returned info' => module_entries info' rest
      | SSL.Failed t => SSL.Failed t
      end
  end.

(** [getModuleIdentification()] *)
Definition getModuleIdentification (_connection : option (Buffer -> Settled Buffer))
  : SSL.Outcome ModuleInformation :=
  match SSL.getSSL _connection 0x0011 0 false with
  | SSL.Failed t => SSL.Failed t
  | SSL.Returned res => module_entries (mkInfo None None None) res
  end.

(** A PLC for the examples: it answers with one entry of 28 bytes, of id 1
    and with the order number 6ES7 315-2EH14-0AB0. *)
Definition one_module : Buffer :=
  [x00; x1c; x00; x01;
   x00; x01;
   x36; x45; x53; x37; x20; x33; x31; x35; x2d; x32;
   x45; x48; x31; x34; x2d; x30; x41; x42; x30; x20;
   x00; xc0; x00; x04; x00; x01].

End Identification.

(** * The properties *)

(** ** Invariants of the packing loop *)

(** The four conditions of [_isOptimizable] on a pair of items. *)
Definition optimizable (gap : Z) (a b : S7Item) : Prop :=
  areaCode a = areaCode b
  /\ (areaCode b = constants.area.DB \/ areaCode b = constants.area.INPUTS
      \/ areaCode b = constants.area.OUTPUTS \/ areaCode b = constants.area.FLAGS)
  /\ dbNumber a = dbNumber b
  /\ Z.abs (offset b - (offset a + byteLength a)) < gap.

(** Every element of the list is related to the element right before
    it. *)
Definition adjacent {A} (R : A -> A -> Prop) (l : list A) : Prop :=
  forall l1 a b l2, l = l1 ++ a :: b :: l2 -> R a b.

(** Every item of the list is optimizable with the item right before it. *)
Definition chain (gap : Z) (l : list S7Item) : Prop :=
  adjacent (optimizable gap) l.

Section PlannerInvariants.
Variable gap : Z.
Variable maxPayloadSize : Z.

(** A packet respects the response bound, and the request bound once the
    payload has room for a request of one part. *)
Definition fits (pkt : Packet) : Prop :=
  response_size pkt <= maxPayloadSize
  /\ (24 <= maxPayloadSize -> request_size pkt <= maxPayloadSize).

(** The loop invariant: every packet fits, and while [packet] is set the
    two counters are the sizes of the newest packet. *)
Definition bounded (st : Planner.State) : Prop :=
  Forall fits (Planner.packets st)
  /\ (Planner.packet st = true ->
      exists pk rest, Planner.packets st = pk :: rest
        /\ Planner.pktResLength st = response_size pk
        /\ Planner.pktReqLength st = request_size pk).

(** Every part built so far is a chain. *)
Definition chained (st : Planner.State) : Prop :=
  Forall (Forall (fun p => chain gap (Part.items p))) (Planner.packets st).

(** The part that [part] references ends with the item [x]. *)
Definition ends_with (st : Planner.State) (x : option S7Item) : Prop :=
  forall p, Planner.current_part st = Some p -> last (Part.items p) = x.

End PlannerInvariants.

(** Two parts that differ in their copy descriptors at most. *)
Definition same_part (p p' : Part.t) : Prop :=
  exists os, p' = Part.set_offsets os p.

(** A part has a copy descriptor for each of its items. *)
Definition complete_part (p : Part.t) : Prop :=
  List.length (Part.offsets p) = List.length (Part.items p).

(** [_getCopyBufferOffsets] finds an item that lies inside the window. *)
Definition locates_covered (getoff : S7Item -> Z -> Z -> option CopyOffsets) : Prop :=
  forall item addr len,
    0 < byteLength item -> addr <= offset item ->
    offset item + byteLength item <= addr + len ->
    getoff item addr len <> None.

(** ** The order of the items *)

(** Modelled from the spec: an item of the missing class [S7Item] has the
    address type DB exactly when its area code is the one of data blocks,
    and then it has a db number. *)
Definition wf_item (it : S7Item) : Prop :=
  (addrtype it = "DB"%string <-> areaCode it = constants.area.DB)
  /\ (addrtype it = "DB"%string -> dbNumber it <> None).

(** The sort key, in the words of the specification: area code; db number
    when the address type is DB; byte offset; bit offset; and byte length,
    negated because longer items come first. *)
Definition sort_key (it : S7Item) : list Z :=
  [ areaCode it;
    if String.eqb (addrtype it) "DB" then default 0 (dbNumber it) else 0;
    offset it;
    bitOffset it;
    - byteLength it ].

(** Lexicographic comparison of two keys. *)
Fixpoint lex_compare (k1 k2 : list Z) : comparison :=
  match k1, k2 with
  | [], [] => Eq
  | [], _ :: _ => Lt
  | _ :: _, [] => Gt
  | x :: k1', y :: k2' =>
      match x ?= y with
      | Eq => lex_compare k1' k2'
      | c => c
      end
  end.

(** The number a comparator returns for a comparison. *)
Definition comparator_result (c : comparison) : Z :=
  match c with Lt => -1 | Eq => 0 | Gt => 1 end.

(** ** The requests of readVars and writeVars *)

(** The address that the connection is to get for the address of an item:
    the address itself for the transport BIT, and 8 times the address
    otherwise. *)
Definition sent_address (transport address : Z) : Z :=
  if transport =? constants.transport.BIT then address else 8 * address.

(** The address specification that the connection is to get for an item
    of [readVars] and for an item of [writeVars]. *)
Definition read_spec (item : VarItem) : S7Any :=
  mkS7Any (vi_area item) (vi_db item) (vi_transport item)
    (sent_address (vi_transport item) (vi_address item)) (vi_length item).

Definition write_spec (item : WriteItem) : S7Any :=
  mkS7Any (wi_area item) (wi_db item) (wi_transport item)
    (sent_address (wi_transport item) (wi_address item)) (wi_length item).

(** ** Slices and responses *)

(** The slice number [i] of a read of [length] bytes at [address]. *)
Definition read_slice (area address length : Z) (db : option Z) (maxPayload : Z) (i : nat)
  : list VarItem :=
  [mkVarItem area db constants.transport.BYTE (address + Z.of_nat i * maxPayload)
     (Z.min (length - Z.of_nat i * maxPayload) maxPayload)].

(** A response with exactly one part whose return code is [DATA_OK]. *)
Definition single_ok (res : list ReadRes) : Prop :=
  exists r, res = [r] /\ returnCode r = constants.retval.DATA_OK.

(** The payload of the first part of a response. *)
Definition payload (res : list ReadRes) : Buffer :=
  match res with
  | r :: _ => data r
  | [] => []
  end.

Section Copies.
Variable _copyFromBuffer : S7Item -> Buffer -> option CopyOffsets -> Result unit * S7Item.

(** [_copyFromBuffer] does not throw on the data of a response part for
    the items of its request part, [items[k]] with [offsets[k]], whatever
    the item holds by then. *)
Definition copied (reqPart : Part.t) (resData : Buffer) : Prop :=
  forall (k : nat) (item it : S7Item),
    Part.items reqPart !! k = Some item ->
    fst (_copyFromBuffer it resData (Part.offsets reqPart !! k)) = Ok tt.

(** The first [n] parts of a request have each a response part with return
    code [DATA_OK] whose data is copied without an error. *)
Definition answered_ok (n : nat) (req : list Part.t) (res : list ReadRes) : Prop :=
  forall j reqPart, (j < n)%nat -> req !! j = Some reqPart ->
    exists s, res !! j = Some s /\ returnCode s = constants.retval.DATA_OK
              /\ copied reqPart (data s).

End Copies.

(** ** The life of a group *)

Section Reachability.
Variable Value : Type.
Variable S7Item_new : string -> string -> option S7Item.
Variable _getCopyBufferOffsets : S7Item -> Z -> Z -> option CopyOffsets.
Variable getWriteBuffer : S7Item -> Value -> Buffer.
Variable _copyFromBuffer : S7Item -> Buffer -> option CopyOffsets -> Result unit * S7Item.
Variable updated_value : S7Item -> Value.

(** The worlds that the constructor and the methods of the group and of
    the endpoint lead to. *)
Inductive Reachable : World -> Prop :=
| reach_constructor s7endpoint opts : Reachable (constructor s7endpoint opts)
| reach_addItems w tags :
    Reachable w -> Reachable (with_group w (snd (addItems S7Item_new tags (group w))))
| reach_removeItems w tags :
    Reachable w -> Reachable (with_group w (removeItems tags (group w)))
| reach_setTranslationCB w func :
    Reachable w -> Reachable (with_group w (snd (setTranslationCB func (group w))))
| reach_connected w connPduSize :
    Reachable w -> Reachable (_onConnectionConnected connPduSize w)
| reach_connectionState w s :
    Reachable w -> Reachable (set_connectionState s w)
| reach_readAllItems w conn hrtime fuel :
    Reachable w ->
    Reachable (after (readAllItems Value _getCopyBufferOffsets _copyFromBuffer
                        updated_value conn hrtime fuel w))
| reach_writeItems w conn hrtime tags values :
    Reachable w ->
    Reachable (after (writeItems Value S7Item_new getWriteBuffer conn hrtime
                        tags values w))
| reach_destroy w :
    Reachable w -> Reachable (snd (destroy_call w)).

End Reachability.

(** A cached plan was computed for a pdu size that is still there, and
    for a group without items it is empty. *)
Definition plan_is_current (w : World) : Prop :=
  listening w = _endpoint (group w)
  /\ (_endpoint (group w) = false -> _readPackets (group w) = None)
  /\ (forall plan, _readPackets (group w) = Some plan ->
        truthy (S7Endpoint.pduSize (endpoint w)) = true
        /\ (_items (group w) = [] -> plan = [])).

(** ** The packing of writeItems *)

Section WritePacking.
Variable Value : Type.
Variable getWriteBuffer : S7Item -> Value -> Buffer.
Variable maxPayloadSize : Z.

(** The size that [writeItems] charges for an item: 16 plus
    [byteLengthWithFill]. *)
Definition request_length (x : S7Item * Value) : Z :=
  overheadPerItem + byteLengthWithFill (fst x).

(** The request part of an item and its value. *)
Definition pair_request (x : S7Item * Value) : WriteItem :=
  write_request (fst x) (getWriteBuffer (fst x) (snd x)).

(** The accumulated length of the items of a packet. *)
Definition packet_length (grp : list (S7Item * Value)) : Z :=
  sumZ (map request_length grp).

(** No item of the packet made the accumulated length exceed the
    payload when it was added. *)
Definition no_overflow (maxPayloadSize : Z) (grp : list (S7Item * Value)) : Prop :=
  forall pre x post, grp = pre ++ x :: post ->
    packet_length pre + request_length x <= maxPayloadSize.

(** The first item of a packet would have made the packet before it
    exceed the payload. *)
Definition opened_on_overflow (maxPayloadSize : Z) (grp1 grp2 : list (S7Item * Value))
  : Prop :=
  exists x rest, grp2 = x :: rest /\ packet_length grp1 + request_length x > maxPayloadSize.

(** The packing of [writeItems]: the items in order, none split, a new
    packet exactly at the items that would overflow the current one. *)
Definition packed (maxPayloadSize : Z) (items : list (S7Item * Value))
  (grps : list (list (S7Item * Value))) : Prop :=
  concat grps = items
  /\ Forall (fun grp => grp <> []) grps
  /\ Forall (no_overflow maxPayloadSize) grps
  /\ adjacent (opened_on_overflow maxPayloadSize) grps.

(** How the loop state stands for the packets closed so far and the
    current one. *)
Definition stands_for (st : WriteState) (closed : list (list (S7Item * Value)))
  (current : list (S7Item * Value)) : Prop :=
  reqPackets st = map (map pair_request) closed
  /\ reqItems st = map pair_request current
  /\ curRequestLength st = packet_length current.

(** The invariant of the packing loop: what [packed] asks of the packets
    so far, where only the current packet of an untouched state is
    empty. *)
Definition well_packed (closed : list (list (S7Item * Value)))
  (current : list (S7Item * Value)) : Prop :=
  Forall (fun grp => grp <> []) closed
  /\ Forall (no_overflow maxPayloadSize) (closed ++ [current])
  /\ adjacent (opened_on_overflow maxPayloadSize) (closed ++ [current])
  /\ (current = [] -> closed = []).

End WritePacking.

(** ** The shape of a plan *)

(** A part holds at least one item, and each of its items lies in the
    area and the data block that the part asks for. *)
Definition uniform_part (p : Part.t) : Prop :=
  Part.items p <> []
  /\ Forall (fun it => areaCode it = Part.area p /\ dbNumber it = Part.db p) (Part.items p).

(** The loop invariant: while [packet] is set there is a newest packet, no
    packet is empty, and every part is uniform. *)
Definition shaped (st : Planner.State) : Prop :=
  (Planner.packet st = true -> Planner.packets st <> [])
  /\ Forall (fun pk => pk <> [] /\ Forall uniform_part pk) (Planner.packets st).

(** Some part of some packet lists the item. *)
Definition holds (pkts : list (list Part.t)) (x : S7Item) : Prop :=
  exists pk p, In pk pkts /\ In p pk /\ In x (Part.items p).

(** The parts [ps] list the item [it] alone and read, one after the other
    and each at least one byte, the bytes from [addr] up to [end_]. *)
Fixpoint tiles (it : S7Item) (addr : Z) (ps : list Part.t) (end_ : Z) : Prop :=
  match ps with
  | [] => addr = end_
  | p :: ps' =>
      Part.items p = [it] /\ Part.address p = addr /\ 0 < Part.length p
      /\ tiles it (addr + Part.length p) ps' end_
  end.

(** The parts of all packets, in the order of the requests. *)
Definition flat (pkts : list (list Part.t)) : list Part.t := concat (Planner.plan_of pkts).

(** While [packet] is set there is a newest packet. *)
Definition opened (st : Planner.State) : Prop :=
  Planner.packet st = true -> Planner.packets st <> [].

(** No item of the list is optimizable with the one before it, [prev]
    being the item before the first. *)
Fixpoint separate (skip : bool) (gap : Z) (prev : option S7Item) (items : list S7Item) : Prop :=
  match items with
  | [] => True
  | x :: rest =>
      Planner._isOptimizable skip gap prev x = false /\ separate skip gap (Some x) rest
  end.

(** ** The items of a group *)

(** The key under which [addItems] stores a tag: the name of an item, or
    the string itself. *)
Definition key_of (tag : Tag) : option string :=
  match tag with
  | TagItem item => Some (name item)
  | TagString s => Some s
  | TagOther => None
  end.

(** The elements of a tags argument. *)
Definition tags_list (tags : TagsArg) : list Tag :=
  match tags with
  | ArgArray l => l
  | ArgOne t => [t]
  | ArgMissing => []
  end.

(** The keys of the map, in insertion order. *)
Definition keys (m : ItemMap.t) : list string := map fst m.

(** The address that the translation callback set by [setTranslationCB]
    gives for a tag. *)
Definition translate (func : CallbackArg) (tag : string) : string :=
  match func with
  | CbFunction f => f tag
  | _ => tag
  end.

Section Built.
Variable S7Item_new : string -> string -> option S7Item.

(** The item that [addItems] stores for a tag. *)
Definition built (g : S7ItemGroup) (tag : Tag) : option S7Item :=
  match tag with
  | TagItem item => Some item
  | TagString s => S7Item_new s (_translationCallback g s)
  | TagOther => None
  end.
End Built.

Section Later.
Variable Value : Type.
Variable S7Item_new : string -> string -> option S7Item.
Variable _getCopyBufferOffsets : S7Item -> Z -> Z -> option CopyOffsets.
Variable getWriteBuffer : S7Item -> Value -> Buffer.
Variable _copyFromBuffer : S7Item -> Buffer -> option CopyOffsets -> Result unit * S7Item.
Variable updated_value : S7Item -> Value.

(** The worlds that the methods of the group and the events of the
    endpoint lead to from a given world. *)
Inductive Later (w0 : World) : World -> Prop :=
| later_now : Later w0 w0
| later_addItems w tags :
    Later w0 w -> Later w0 (with_group w (snd (addItems S7Item_new tags (group w))))
| later_removeItems w tags :
    Later w0 w -> Later w0 (with_group w (removeItems tags (group w)))
| later_setTranslationCB w func :
    Later w0 w -> Later w0 (with_group w (snd (setTranslationCB func (group w))))
| later_connected w connPduSize :
    Later w0 w -> Later w0 (_onConnectionConnected connPduSize w)
| later_connectionState w s :
    Later w0 w -> Later w0 (set_connectionState s w)
| later_readAllItems w conn hrtime fuel :
    Later w0 w ->
    Later w0 (after (readAllItems Value _getCopyBufferOffsets _copyFromBuffer
                       updated_value conn hrtime fuel w))
| later_writeItems w conn hrtime tags values :
    Later w0 w ->
    Later w0 (after (writeItems Value S7Item_new getWriteBuffer conn hrtime tags values w))
| later_destroy w :
    Later w0 w -> Later w0 (snd (destroy_call w)).
End Later.

(** A write response part that reports success. *)
Definition written_ok (res : WriteRes) : Prop := w_returnCode res = constants.retval.DATA_OK.

(** ** The life of an endpoint *)

(** What holds of every endpoint that can be reached: the state
    DISCONNECTING is never entered; a connection has its transport; a
    connected endpoint has its connection and no armed timer; and without
    [autoReconnect] no timer is armed. *)
Definition endpoint_invariant (e : Lifecycle.t) : Prop :=
  Lifecycle._connectionState e <> S7Endpoint.CONN_DISCONNECTING
  /\ (Lifecycle._connection e = true -> Lifecycle._transport e = true)
  /\ (Lifecycle._connectionState e = S7Endpoint.CONN_CONNECTED ->
      Lifecycle._connection e = true /\ Lifecycle._reconnectTimer e = false)
  /\ (Lifecycle._autoReconnect e <= 0 -> Lifecycle._reconnectTimer e = false).

(** ** Uploads *)

Section Uploads.
Variable exponent : Z -> string.
Variable subtype : string -> option Z.
Variable conn : option ((string -> Settled (list Z)) * (string -> Settled Buffer)).

(** The block that a successful upload of [uploadAllBlocks] gives. *)
Definition uploaded (typ : string) (number : Z) : option Buffer :=
  match Blocks.uploadBlock exponent subtype conn (Blocks.TypeString typ) number false "A" with
  | Ok buf => Some buf
  | _ => None
  end.

(** The blocks of all types whose upload succeeds, in the order of the
    lists. *)
Definition all_uploaded (lists : list (string * list Z)) : list Buffer :=
  concat (map (fun tl => omap (uploaded (fst tl)) (snd tl)) lists).

End Uploads.

(** ** Module identification *)

(** The low byte of the id of an entry, when the entry has one. *)
Definition entry_kind (buf : Buffer) : option Z :=
  option_map (fun id => Z.land id 0xff) (readUInt16BE buf 0).

(** The order number that an entry carries. *)
Definition order_number (buf : Buffer) : list ascii :=
  Identification.trim (Identification.toString_ascii buf 2 22).

(** The order number of the last entry of a kind, if there is one. *)
Definition last_of_kind (kind : Z) (res : list Buffer) : option (list ascii) :=
  option_map order_number
    (last (filter (fun buf => entry_kind buf = Some kind) res)).

(** What the entries seen so far leave in a field of the result. *)
Definition overridden (old new : option (list ascii)) : option (list ascii) :=
  match new with
  | Some number => Some number
  | None => old
  end.

(** * Proofs *)

Lemma sumZ_app (l1 l2 : list Z) : sumZ (l1 ++ l2) = sumZ l1 + sumZ l2.
Proof. unfold sumZ. induction l1 as [|x l1 IH]; simpl; [reflexivity | rewrite IH; lia]. Qed.

Lemma sumZ_rev (l : list Z) : sumZ (rev l) = sumZ l.
Proof.
  induction l as [|x l IH]; simpl; [reflexivity|].
  rewrite sumZ_app, IH. unfold sumZ. simpl. lia.
Qed.

Lemma response_size_rev (pkt : Packet) : response_size (rev pkt) = response_size pkt.
Proof. unfold response_size. now rewrite map_rev, sumZ_rev. Qed.

Lemma request_size_rev (pkt : Packet) : request_size (rev pkt) = request_size pkt.
Proof. unfold request_size. now rewrite length_rev. Qed.

(** ** The packing loop keeps every packet within the payload *)

Section PlannerBounds.
Variable skip : bool.
Variable gap : Z.
Variable maxPayloadSize : Z.

Local Abbreviation choose_branch := (Planner.choose_branch skip gap maxPayloadSize).
Local Abbreviation round := (Planner.round skip gap maxPayloadSize).
Local Abbreviation while_item := (Planner.while_item skip gap maxPayloadSize).
Local Abbreviation place_item := (Planner.place_item skip gap maxPayloadSize).
Local Abbreviation place_items := (Planner.place_items skip gap maxPayloadSize).
Local Abbreviation fits := (fits maxPayloadSize).
Local Abbreviation bounded := (bounded maxPayloadSize).

Lemma current_part_Some st p :
  Planner.current_part st = Some p ->
  Planner.packet st = true /\ Planner.part st = true
  /\ exists ps rest, Planner.packets st = (p :: ps) :: rest.
Proof.
  unfold Planner.current_part.
  destruct (Planner.packet st), (Planner.part st); simpl; try discriminate.
  destruct (Planner.packets st) as [|[|q ps] rest]; try discriminate.
  intros [= ->]. eauto.
Qed.

Lemma choose_branch_SamePart st item len off p :
  choose_branch st item len off = Planner.SamePart p ->
  Planner.current_part st = Some p
  /\ Planner._isOptimizable skip gap (Planner.lastItem st) item = true
  /\ Planner.pktResLength st + (off + Z.min len gap)
     - (Part.address p + Part.length p) <= maxPayloadSize.
Proof.
  unfold Planner.choose_branch.
  destruct (Planner.current_part st) as [q|] eqn:Hcur.
  - destruct (Planner._isOptimizable skip gap (Planner.lastItem st) item) eqn:Hopt; simpl.
    + destruct (Z.leb_spec (Planner.pktResLength st + (off + Z.min len gap)
                            - (Part.address q + Part.length q)) maxPayloadSize).
      * intros [= ->]. auto.
      * destruct (_ && _); discriminate.
    + destruct (_ && _); discriminate.
  - destruct (_ && _); discriminate.
Qed.

Lemma choose_branch_NewPart st item len off :
  choose_branch st item len off = Planner.NewPart ->
  Planner.packet st = true
  /\ Planner.pktReqLength st + Planner.reqPartSize <= maxPayloadSize
  /\ Planner.pktResLength st + Planner.resPartSize + Z.min len gap <= maxPayloadSize.
Proof.
  unfold Planner.choose_branch.
  destruct (Planner.current_part st) as [q|] eqn:Hcur.
  - apply current_part_Some in Hcur as (Hp & _ & _).
    destruct (_ && _); [discriminate|].
    destruct (Z.leb_spec (Planner.pktReqLength st + Planner.reqPartSize) maxPayloadSize);
      destruct (Z.leb_spec (Planner.pktResLength st + Planner.resPartSize + Z.min len gap)
                           maxPayloadSize); simpl; try discriminate.
    auto.
  - destruct (Planner.packet st); simpl; [|discriminate].
    destruct (Z.leb_spec (Planner.pktReqLength st + Planner.reqPartSize) maxPayloadSize);
      destruct (Z.leb_spec (Planner.pktResLength st + Planner.resPartSize + Z.min len gap)
                           maxPayloadSize); simpl; try discriminate.
    auto.
Qed.

Lemma response_size_cons p pkt :
  response_size (p :: pkt) = response_size pkt + Part.length p + Planner.resPartSize.
Proof. unfold response_size, sumZ. simpl. lia. Qed.

Lemma request_size_cons (p : Part.t) pkt :
  request_size (p :: pkt) = request_size pkt + Planner.reqPartSize.
Proof. unfold request_size. rewrite length_cons. unfold Planner.reqPartSize. lia. Qed.

Lemma response_size_nil : response_size [] = Planner.resHeaderSize.
Proof. unfold response_size, sumZ. simpl. lia. Qed.

Lemma request_size_nil : request_size [] = Planner.reqHeaderSize.
Proof. unfold request_size. simpl. lia. Qed.

Lemma round_bounded st item v st' v' :
  bounded st -> round st item v = (st', v') ->
  bounded st' /\ Planner.packet st' = true.
Proof.
  intros [Hall Hcur]. unfold Planner.round.
  destruct (choose_branch st item (Planner.itemLength v) (Planner.itemOffset v))
    as [p| |] eqn:Hb.
  - apply choose_branch_SamePart in Hb as (Hp & _ & _).
    apply current_part_Some in Hp as (Hpk & Hpt & ps & rest & Hpkts).
    destruct (Hcur Hpk) as (pk & rest' & Heq & Hres & Hreq).
    rewrite Hpkts in Heq. injection Heq as <- <-.
    rewrite Hpkts in Hall. apply Forall_cons in Hall as [[Hf1 Hf2] Hall].
    rewrite response_size_cons in Hres, Hf1. rewrite request_size_cons in Hreq, Hf2.
    set (added := Z.max (Part.length p)
                    (Planner.itemOffset v - Part.address p + Planner.itemLength v)
                  - Part.length p).
    assert (0 <= added) by (unfold added; lia).
    destruct (Z.leb_spec added (maxPayloadSize - Planner.pktResLength st)) as [Hle|Hgt];
      intros [= <- <-]; simpl; rewrite Hpkts; simpl; (split; [split|assumption]).
    + apply Forall_cons; split; [|assumption]. split.
      * rewrite response_size_cons. simpl. lia.
      * rewrite request_size_cons. assumption.
    + intros _. exists (Part.push_item item (Part.add_length added p) :: ps), rest.
      split; [reflexivity|]. rewrite response_size_cons, request_size_cons. simpl.
      split; lia.
    + apply Forall_cons; split; [|assumption]. split.
      * rewrite response_size_cons. simpl. lia.
      * rewrite request_size_cons. assumption.
    + intros _. eexists _, rest.
      split; [reflexivity|]. rewrite response_size_cons, request_size_cons. simpl.
      split; lia.
  - apply choose_branch_NewPart in Hb as (Hpk & Hreqfit & Hresfit).
    destruct (Hcur Hpk) as (pk & rest & Heq & Hres & Hreq).
    rewrite Heq in Hall. apply Forall_cons in Hall as [[Hf1 Hf2] Hall].
    unfold Planner.reqPartSize, Planner.resPartSize in *.
    destruct (Z.leb_spec (Planner.pktResLength st + 4 + Planner.itemLength v) maxPayloadSize);
      intros [= <- <-]; simpl; rewrite Heq; simpl; (split; [split|assumption]).
    + apply Forall_cons; split; [|assumption]. split.
      * rewrite response_size_cons. simpl. unfold Planner.resPartSize. lia.
      * intros _. rewrite request_size_cons. unfold Planner.reqPartSize. lia.
    + intros _. eexists _, rest. split; [reflexivity|].
      rewrite response_size_cons, request_size_cons. simpl.
      unfold Planner.reqPartSize, Planner.resPartSize. split; lia.
    + apply Forall_cons; split; [|assumption]. split.
      * rewrite response_size_cons. simpl. unfold Planner.resPartSize. lia.
      * intros _. rewrite request_size_cons. unfold Planner.reqPartSize. lia.
    + intros _. eexists _, rest. split; [reflexivity|].
      rewrite response_size_cons, request_size_cons. simpl.
      unfold Planner.reqPartSize, Planner.resPartSize. split; lia.
  - unfold Planner.reqPartSize, Planner.resPartSize, Planner.reqHeaderSize,
      Planner.resHeaderSize.
    destruct (Z.leb_spec (14 + 4 + Planner.itemLength v) maxPayloadSize);
      intros [= <- <-]; simpl; (split; [split|reflexivity]).
    + apply Forall_cons; split; [|assumption]. split.
      * rewrite response_size_cons, response_size_nil. simpl.
        unfold Planner.resPartSize, Planner.resHeaderSize. lia.
      * intros ?. rewrite request_size_cons, request_size_nil.
        unfold Planner.reqPartSize, Planner.reqHeaderSize. lia.
    + intros _. eexists _, _. split; [reflexivity|].
      rewrite response_size_cons, request_size_cons, response_size_nil, request_size_nil.
      simpl. unfold Planner.reqPartSize, Planner.resPartSize, Planner.reqHeaderSize,
        Planner.resHeaderSize. split; lia.
    + apply Forall_cons; split; [|assumption]. split.
      * rewrite response_size_cons, response_size_nil. simpl.
        unfold Planner.resPartSize, Planner.resHeaderSize. lia.
      * intros ?. rewrite request_size_cons, request_size_nil.
        unfold Planner.reqPartSize, Planner.reqHeaderSize. lia.
    + intros _. eexists _, _. split; [reflexivity|].
      rewrite response_size_cons, request_size_cons, response_size_nil, request_size_nil.
      simpl. unfold Planner.reqPartSize, Planner.resPartSize, Planner.reqHeaderSize,
        Planner.resHeaderSize. split; lia.
Qed.

Lemma forget_packet_bounded st : bounded st -> bounded (Planner.forget_packet st).
Proof. intros [Hall _]. split; [assumption|]. simpl. discriminate. Qed.

Lemma while_item_bounded fuel : forall st item v st',
  bounded st -> while_item fuel st item v = Some st' -> bounded st'.
Proof.
  induction fuel as [|fuel IH]; intros st item v st' Hb; simpl; [discriminate|].
  destruct (round st item v) as [st1 v1] eqn:Hr.
  apply (round_bounded _ _ _ _ _ Hb) in Hr as [Hb1 _].
  destruct (Planner.itemComplete v1).
  - intros [= <-]. assumption.
  - apply IH. now apply forget_packet_bounded.
Qed.

Lemma place_item_bounded fuel st item st' :
  bounded st -> place_item fuel st item = Some st' -> bounded st'.
Proof.
  intros Hb. unfold Planner.place_item.
  destruct (while_item fuel st item _) as [st1|] eqn:Hw; [|discriminate].
  intros [= <-]. apply (while_item_bounded _ _ _ _ _ Hb) in Hw. exact Hw.
Qed.

Lemma place_items_bounded fuel items : forall st st',
  bounded st -> place_items fuel st items = Some st' -> bounded st'.
Proof.
  induction items as [|item items IH]; intros st st' Hb; simpl.
  - intros [= <-]. assumption.
  - destruct (place_item fuel st item) as [st1|] eqn:Hp; [|discriminate].
    apply IH. eapply place_item_bounded; eassumption.
Qed.

Lemma init_bounded : bounded Planner.init.
Proof. split; [constructor | discriminate]. Qed.

End PlannerBounds.

(** ** The offsets pass only fills in [offsets] *)

Lemma same_part_refl p : same_part p p.
Proof. exists (Part.offsets p). now destruct p. Qed.

Lemma part_offsets_same getoff ps : forall ps' ok,
  Planner.part_offsets getoff ps = (ps', ok) -> Forall2 same_part ps ps'.
Proof.
  induction ps as [|p ps IH]; simpl; intros ps' ok.
  - intros [= <- <-]. constructor.
  - destruct (Planner.item_offsets getoff _ _ _) as [os [|]].
    + destruct (Planner.part_offsets getoff ps) as [rest ok'].
      intros [= <- <-]. constructor; [now exists os | now apply (IH rest ok')].
    + intros [= <- <-]. constructor; [now exists os|].
      clear. induction ps; constructor; auto using same_part_refl.
Qed.

Lemma packet_offsets_same getoff plan : forall plan' ok,
  Planner.packet_offsets getoff plan = (plan', ok) ->
  Forall2 (Forall2 same_part) plan plan'.
Proof.
  induction plan as [|pkt plan IH]; simpl; intros plan' ok.
  - intros [= <- <-]. constructor.
  - destruct (Planner.part_offsets getoff pkt) as [pkt' [|]] eqn:Hp;
      apply part_offsets_same in Hp.
    + destruct (Planner.packet_offsets getoff plan) as [rest ok'].
      intros [= <- <-]. constructor; [assumption | now apply (IH rest ok')].
    + intros [= <- <-]. constructor; [assumption|].
      clear. induction plan as [|q plan IH]; constructor; [|assumption].
      induction q; constructor; auto using same_part_refl.
Qed.

Lemma Forall2_in_right {A B} (R : A -> B -> Prop) (l : list A) (l' : list B) (y : B) :
  Forall2 R l l' -> In y l' -> exists x, In x l /\ R x y.
Proof.
  induction 1 as [|x y' l l' Hxy _ IH]; simpl; [tauto|].
  intros [<-|Hin]; [eauto|]. destruct (IH Hin) as (x0 & ? & ?). eauto.
Qed.

Lemma same_part_sizes pkt pkt' :
  Forall2 same_part pkt pkt' ->
  response_size pkt' = response_size pkt /\ request_size pkt' = request_size pkt.
Proof.
  induction 1 as [|p p' pkt pkt' [os ->] _ [IH1 IH2]]; [split; reflexivity|].
  rewrite !response_size_cons, !request_size_cons, IH1, IH2. simpl. split; reflexivity.
Qed.

(** What a run of [_prepareReadPackets] that returns has stored: the
    packets of the final loop state, in source order, with their offsets
    filled in. *)
Lemma prepareReadPackets_Ok getoff fuel n g g' :
  _prepareReadPackets getoff fuel (Some n) g = (Ok tt, g') ->
  (ItemMap.values (_items g) = [] /\ _readPackets g' = Some [])
  \/ exists st plan,
      Planner.place_items (_skipOptimization g) (_optimizationGap g) (n - 18) fuel
        Planner.init (array_sort itemListSorter (ItemMap.values (_items g))) = Some st
      /\ Planner.packet_offsets getoff (Planner.plan_of (Planner.packets st)) = (plan, true)
      /\ _readPackets g' = Some plan.
Proof.
  unfold _prepareReadPackets. destruct (truthy (Some n)); simpl; [|discriminate].
  destruct (ItemMap.values (_items g)) as [|i its] eqn:Hv; simpl.
  - intros [= <-]. left. auto.
  - fold (array_sort itemListSorter (i :: its)).
    destruct (Planner.place_items _ _ _ _ _ _) as [st|] eqn:Hp; [|discriminate].
    destruct (Planner.packet_offsets _ _) as [plan [|]] eqn:Ho; [|discriminate].
    intros [= <-]. right. exists st, plan. auto.
Qed.

(** C1 (as amended): every packet of a plan that [_prepareReadPackets]
    stores respects the response bound, 14 plus the sum over its parts of
    (length + 4) is at most pduSize - 18; and it respects the request bound,
    12 plus 12 times the number of its parts is at most pduSize - 18, when
    the pdu size is at least 42. *)
Theorem prepareReadPackets_capacity
  (getoff : S7Item -> Z -> Z -> option CopyOffsets) (fuel : nat) (n : Z)
  (g g' : S7ItemGroup) (plan : Plan) (pkt : Packet)
  (Hrun : _prepareReadPackets getoff fuel (Some n) g = (Ok tt, g'))
  (Hplan : _readPackets g' = Some plan)
  (Hin : In pkt plan) :
  14 + sumZ (map (fun p => Part.length p + 4) pkt) <= n - 18
  /\ (42 <= n -> 12 + 12 * Z.of_nat (List.length pkt) <= n - 18).
Proof.
  apply prepareReadPackets_Ok in Hrun as [[_ Hnil]|(st & plan' & Hplace & Hoff & Hst)].
  - rewrite Hnil in Hplan. injection Hplan as <-. destruct Hin.
  - rewrite Hst in Hplan. injection Hplan as ->.
    apply place_items_bounded in Hplace as [Hall _]; [|apply init_bounded].
    apply packet_offsets_same in Hoff.
    apply (Forall2_in_right _ _ _ _ Hoff) in Hin as (pkt0 & Hin0 & Hsame).
    apply same_part_sizes in Hsame as [Hres Hreq].
    unfold Planner.plan_of in Hin0. apply in_rev, in_map_iff in Hin0 as (q & <- & Hq).
    rewrite Forall_forall in Hall. apply list_elem_of_In, Hall in Hq as [Hf1 Hf2].
    rewrite response_size_rev in Hres. rewrite request_size_rev in Hreq.
    change (response_size pkt <= n - 18 /\ (42 <= n -> request_size pkt <= n - 18)).
    rewrite Hres, Hreq. split; [assumption | intros; apply Hf2; lia].
Qed.

(** [prepareReadPackets_capacity] at a group with one 500-byte item and a
    pdu size of 240. *)
Lemma prepareReadPackets_capacity_witness :
  exists g' plan pkt,
    _prepareReadPackets Fixture._getCopyBufferOffsets 5 (Some 240)
      (Fixture.group_of [Fixture.M0_BYTE500]) = (Ok tt, g')
    /\ _readPackets g' = Some plan
    /\ In pkt plan
    /\ (14 + sumZ (map (fun p => Part.length p + 4) pkt) <= 240 - 18
        /\ (42 <= 240 -> 12 + 12 * Z.of_nat (List.length pkt) <= 240 - 18)).
Proof.
  eexists _, _, _.
  split; [vm_compute; reflexivity|].
  split; [reflexivity|].
  split; [left; reflexivity|].
  eapply (prepareReadPackets_capacity Fixture._getCopyBufferOffsets 5 240
            (Fixture.group_of [Fixture.M0_BYTE500]));
    [vm_compute; reflexivity | reflexivity | left; reflexivity].
Defined.

(** C1 (as stated) fails for a small pdu size: with a pdu size of 40 the
    planner succeeds on the single item DB1,BYTE0, and its only packet has
    a request size of 12 + 12 * 1 = 24, more than 40 - 18. *)
Lemma capacity_fails_for_small_pdu :
  exists g' pkt,
    _prepareReadPackets Fixture._getCopyBufferOffsets 1 (Some 40)
      (Fixture.group_of [Fixture.DB1_BYTE0]) = (Ok tt, g')
    /\ _readPackets g' = Some [pkt]
    /\ ~ (12 + 12 * Z.of_nat (List.length pkt) <= 40 - 18).
Proof.
  eexists _, _.
  split; [vm_compute; reflexivity|].
  split; [reflexivity|].
  simpl. lia.
Qed.

(** ** Items share a part only when they are optimizable *)

Lemma strict_eq_true a b : strict_eq a b = true -> a = b.
Proof.
  destruct a, b; simpl; try discriminate; try reflexivity.
  intros H. apply Z.eqb_eq in H. now subst.
Qed.

Lemma _isOptimizable_true skip gap a b :
  Planner._isOptimizable skip gap a b = true ->
  skip = false /\ exists a', a = Some a' /\ optimizable gap a' b.
Proof.
  unfold Planner._isOptimizable. destruct skip; simpl; [discriminate|].
  destruct a as [a'|]; [|discriminate].
  rewrite !andb_true_iff, !orb_true_iff, !Z.eqb_eq, Z.ltb_lt.
  intros [[[Ha Hb] Hdb] Hgap]. split; [reflexivity|]. exists a'. split; [reflexivity|].
  repeat split; try assumption.
  - tauto.
  - now apply strict_eq_true.
  - replace (offset b - (offset a' + byteLength a')) with (offset b - offset a' - byteLength a')
      by lia. assumption.
Qed.

Lemma adjacent_snoc {A} (R : A -> A -> Prop) l x :
  adjacent R l -> (forall a, last l = Some a -> R a x) -> adjacent R (l ++ [x]).
Proof.
  intros Hl Hlast l1 a b l2 Heq.
  destruct l2 as [|c l2 _] using rev_ind.
  - change (l1 ++ [a; b]) with (l1 ++ [a] ++ [b]) in Heq. rewrite app_assoc in Heq.
    apply app_inj_tail in Heq as [-> <-]. apply Hlast. apply last_snoc.
  - change (l1 ++ a :: b :: l2 ++ [c]) with (l1 ++ (a :: b :: l2) ++ [c]) in Heq.
    rewrite app_assoc in Heq. apply app_inj_tail in Heq as [-> _].
    eapply Hl. reflexivity.
Qed.

Lemma adjacent_change_last {A} (R : A -> A -> Prop) l c c' :
  adjacent R (l ++ [c]) -> (forall a, R a c -> R a c') -> adjacent R (l ++ [c']).
Proof.
  intros Hl Hc l1 a b l2 Heq.
  destruct l2 as [|z l2 _] using rev_ind.
  - change (l1 ++ [a; b]) with (l1 ++ [a] ++ [b]) in Heq. rewrite app_assoc in Heq.
    apply app_inj_tail in Heq as [-> <-]. apply Hc.
    apply (Hl l1 a c []). now rewrite <- app_assoc.
  - change (l1 ++ a :: b :: l2 ++ [z]) with (l1 ++ (a :: b :: l2) ++ [z]) in Heq.
    rewrite app_assoc in Heq. apply app_inj_tail in Heq as [-> _].
    apply (Hl l1 a b (l2 ++ [c])). now rewrite <- app_assoc.
Qed.

Lemma adjacent_nil {A} (R : A -> A -> Prop) : adjacent R [].
Proof. intros [|x l1] a b l2; discriminate. Qed.

Lemma chain_singleton gap x : chain gap [x].
Proof. intros [|y [|z l1]] a b l2; simpl; discriminate. Qed.

Lemma chain_snoc gap l x :
  chain gap l -> (forall a, last l = Some a -> optimizable gap a x) -> chain gap (l ++ [x]).
Proof. apply adjacent_snoc. Qed.

Section PlannerChain.
Variable skip : bool.
Variable gap : Z.
Variable maxPayloadSize : Z.

Local Abbreviation chained := (chained gap).

Lemma round_chained st item v st' v' :
  chained st -> ends_with st (Planner.lastItem st) \/ Planner.current_part st = None ->
  Planner.round skip gap maxPayloadSize st item v = (st', v') ->
  chained st' /\ ends_with st' (Some item) /\ Planner.lastItem st' = Planner.lastItem st.
Proof.
  intros Hch Hend. unfold Planner.round.
  destruct (Planner.choose_branch skip gap maxPayloadSize st item _ _) as [p| |] eqn:Hb.
  - apply choose_branch_SamePart in Hb as (Hp & Hopt & _).
    apply _isOptimizable_true in Hopt as (_ & a & Hlast & Hopt).
    destruct Hend as [Hend|Hnone]; [|congruence].
    specialize (Hend p Hp). rewrite Hlast in Hend.
    destruct (current_part_Some _ _ Hp) as (Hpk & Hpt & ps & rest & Hpkts).
    unfold chained in Hch. rewrite Hpkts in Hch.
    apply Forall_cons in Hch as [Hch1 Hch]. apply Forall_cons in Hch1 as [Hcp Hch1].
    assert (Hnew : chain gap (Part.items p ++ [item])).
    { apply chain_snoc; [assumption|]. intros a' Ha'. congruence. }
    destruct (_ <=? _); intros [= <- <-]; unfold chained, ends_with, Planner.current_part;
      simpl; rewrite Hpkts, Hpk, Hpt; simpl;
      (split; [repeat (apply Forall_cons; split); assumption|]);
      (split; [|reflexivity]); intros q [= <-]; simpl; apply last_snoc.
  - destruct (_ <=? _); intros [= <- <-]; unfold chained, ends_with, Planner.current_part;
      simpl; (split; [|split; [|reflexivity]]).
    + unfold chained in Hch. destruct (Planner.packets st) as [|pk rest]; simpl; [constructor|].
      apply Forall_cons in Hch as [Hpk Hrest].
      repeat (apply Forall_cons; split); try assumption. apply chain_singleton.
    + destruct (Planner.packet st); simpl; [|discriminate].
      destruct (Planner.packets st) as [|pk rest]; simpl; [discriminate|].
      now intros q [= <-].
    + unfold chained in Hch. destruct (Planner.packets st) as [|pk rest]; simpl; [constructor|].
      apply Forall_cons in Hch as [Hpk Hrest].
      repeat (apply Forall_cons; split); try assumption. apply chain_singleton.
    + destruct (Planner.packet st); simpl; [|discriminate].
      destruct (Planner.packets st) as [|pk rest]; simpl; [discriminate|].
      now intros q [= <-].
  - destruct (_ <=? _); intros [= <- <-]; unfold chained, ends_with, Planner.current_part;
      simpl; (split; [|split; [|reflexivity]]); try (now intros q [= <-]);
      (apply Forall_cons; split; [|assumption]);
      (apply Forall_cons; split; [apply chain_singleton | constructor]).
Qed.

Lemma while_item_chained fuel : forall st item v st',
  chained st -> ends_with st (Planner.lastItem st) \/ Planner.current_part st = None ->
  Planner.while_item skip gap maxPayloadSize fuel st item v = Some st' ->
  chained st' /\ ends_with st' (Some item).
Proof.
  induction fuel as [|fuel IH]; intros st item v st' Hch Hend; simpl; [discriminate|].
  destruct (Planner.round skip gap maxPayloadSize st item v) as [st1 v1] eqn:Hr.
  apply (round_chained _ _ _ _ _ Hch Hend) in Hr as (Hch1 & Hend1 & _).
  destruct (Planner.itemComplete v1).
  - intros [= <-]. auto.
  - apply IH; [exact Hch1 | right; reflexivity].
Qed.

Lemma place_items_chained fuel items : forall st st',
  chained st -> ends_with st (Planner.lastItem st) \/ Planner.current_part st = None ->
  Planner.place_items skip gap maxPayloadSize fuel st items = Some st' -> chained st'.
Proof.
  induction items as [|item items IH]; intros st st' Hch Hend; simpl.
  - now intros [= <-].
  - unfold Planner.place_item.
    destruct (Planner.while_item _ _ _ _ _ _ _) as [st1|] eqn:Hw; [|discriminate].
    apply (while_item_chained _ _ _ _ _ Hch Hend) in Hw as [Hch1 Hend1].
    apply IH; [exact Hch1 | left; exact Hend1].
Qed.

End PlannerChain.

(** In a stored plan, an item that directly follows another one inside a
    part is optimizable with it. *)
Lemma prepareReadPackets_chain getoff fuel n g g' plan pkt p :
  _prepareReadPackets getoff fuel (Some n) g = (Ok tt, g') ->
  _readPackets g' = Some plan -> In pkt plan -> In p pkt ->
  chain (_optimizationGap g) (Part.items p).
Proof.
  intros Hrun Hplan Hpkt Hp.
  apply prepareReadPackets_Ok in Hrun as [[_ Hnil]|(st & plan' & Hplace & Hoff & Hst)].
  - rewrite Hnil in Hplan. injection Hplan as <-. destruct Hpkt.
  - rewrite Hst in Hplan. injection Hplan as ->.
    apply place_items_chained in Hplace; [|constructor|right; reflexivity].
    apply packet_offsets_same in Hoff.
    apply (Forall2_in_right _ _ _ _ Hoff) in Hpkt as (pkt0 & Hin0 & Hsame).
    apply (Forall2_in_right _ _ _ _ Hsame) in Hp as (p0 & Hp0 & os & ->).
    unfold Planner.plan_of in Hin0. apply in_rev, in_map_iff in Hin0 as (q & <- & Hq).
    apply in_rev in Hp0.
    unfold chained in Hplace. rewrite Forall_forall in Hplace.
    apply list_elem_of_In, Hplace in Hq. rewrite Forall_forall in Hq.
    apply list_elem_of_In, Hq in Hp0. exact Hp0.
Qed.

(** ** The scenario of two bytes of DB1 three bytes apart *)

Ltac decide_tests :=
  unfold Planner.resHeaderSize, Planner.resPartSize, Planner.reqHeaderSize,
    Planner.reqPartSize in *;
  repeat match goal with
  | |- context [Z.leb ?a ?b] =>
      first [ rewrite (proj2 (Z.leb_le a b)) by lia
            | rewrite (proj2 (Z.leb_gt a b)) by lia ]
  | |- context [Z.ltb ?a ?b] =>
      first [ rewrite (proj2 (Z.ltb_lt a b)) by lia
            | rewrite (proj2 (Z.ltb_ge a b)) by lia ]
  end.

Lemma place_DB1_BYTE0_BYTE3 fuel n :
  (1 <= fuel)%nat -> 40 <= n ->
  exists st,
    Planner.place_items false 5 (n - 18) fuel Planner.init
      [Fixture.DB1_BYTE0; Fixture.DB1_BYTE3] = Some st
    /\ Planner.packets st =
       [[Part.mk [Fixture.DB1_BYTE0; Fixture.DB1_BYTE3] [] constants.area.DB (Some 1)
                 constants.transport.BYTE 0 4]].
Proof.
  intros Hf Hn. destruct fuel as [|fuel]; [lia|].
  unfold Planner.place_items, Planner.place_item, Planner.while_item.
  unfold Planner.round at 1. unfold Planner.choose_branch.
  cbn. decide_tests. cbn.
  unfold Planner.round, Planner.choose_branch.
  cbn. decide_tests. cbn. decide_tests. cbn.
  eexists. split; reflexivity.
Qed.

Lemma sort_DB1_BYTE0_BYTE3 (items : list S7Item) :
  items = [Fixture.DB1_BYTE0; Fixture.DB1_BYTE3]
  \/ items = [Fixture.DB1_BYTE3; Fixture.DB1_BYTE0] ->
  array_sort itemListSorter items = [Fixture.DB1_BYTE0; Fixture.DB1_BYTE3].
Proof. intros [-> | ->]; reflexivity. Qed.

(** C4: a group that holds exactly DB1,BYTE0 and DB1,BYTE3, with an
    optimization gap of 5 and a pdu size that holds both (40 or more), is
    planned as one packet with one part of area DB, db 1, address 0 and
    length 4 whose items are the two items; and in every stored plan an
    item directly follows another one inside a part only when both have the
    same area code, the area is DB, Inputs, Outputs or Flags, both have the
    same db number, and |b.offset - (a.offset + a.byteLength)| is less than
    the optimization gap. *)
Theorem coalesce_across_gap :
  (forall (getoff : S7Item -> Z -> Z -> option CopyOffsets) (fuel : nat) (n : Z)
          (g : S7ItemGroup),
      locates_covered getoff -> (1 <= fuel)%nat -> 40 <= n ->
      _skipOptimization g = false -> _optimizationGap g = 5 ->
      ItemMap.values (_items g) = [Fixture.DB1_BYTE0; Fixture.DB1_BYTE3]
      \/ ItemMap.values (_items g) = [Fixture.DB1_BYTE3; Fixture.DB1_BYTE0] ->
      exists g' p,
        _prepareReadPackets getoff fuel (Some n) g = (Ok tt, g')
        /\ _readPackets g' = Some [[p]]
        /\ Part.area p = constants.area.DB /\ Part.db p = Some 1
        /\ Part.address p = 0 /\ Part.length p = 4
        /\ Part.items p = [Fixture.DB1_BYTE0; Fixture.DB1_BYTE3])
  /\ (forall (getoff : S7Item -> Z -> Z -> option CopyOffsets) (fuel : nat) (n : Z)
             (g g' : S7ItemGroup) (plan : Plan) (pkt : Packet) (p : Part.t)
             (l1 l2 : list S7Item) (a b : S7Item),
        _prepareReadPackets getoff fuel (Some n) g = (Ok tt, g') ->
        _readPackets g' = Some plan -> In pkt plan -> In p pkt ->
        Part.items p = l1 ++ a :: b :: l2 ->
        areaCode a = areaCode b
        /\ (areaCode b = constants.area.DB \/ areaCode b = constants.area.INPUTS
            \/ areaCode b = constants.area.OUTPUTS \/ areaCode b = constants.area.FLAGS)
        /\ dbNumber a = dbNumber b
        /\ Z.abs (offset b - (offset a + byteLength a)) < _optimizationGap g).
Proof.
  split.
  - intros getoff fuel n g Hcov Hfuel Hn Hskip Hgap Hitems.
    destruct (place_DB1_BYTE0_BYTE3 fuel n Hfuel Hn) as (st & Hplace & Hpkts).
    assert (Hn0 : truthy (Some n) = true).
    { simpl. apply negb_true_iff, Z.eqb_neq. lia. }
    unfold _prepareReadPackets. rewrite Hn0. simpl negb. cbv iota.
    rewrite (sort_DB1_BYTE0_BYTE3 _ Hitems), Hskip, Hgap.
    replace (List.length (ItemMap.values (_items g)) =? 0)%nat with false
      by (destruct Hitems as [-> | ->]; reflexivity).
    simpl S7Endpoint.to_number. rewrite Hplace, Hpkts.
    unfold Planner.plan_of. simpl.
    destruct (getoff Fixture.DB1_BYTE0 0 4) as [o0|] eqn:H0;
      [|exfalso; apply (Hcov Fixture.DB1_BYTE0 0 4); simpl; [lia | lia | lia | exact H0]].
    destruct (getoff Fixture.DB1_BYTE3 0 4) as [o3|] eqn:H3;
      [|exfalso; apply (Hcov Fixture.DB1_BYTE3 0 4); simpl; [lia | lia | lia | exact H3]].
    eexists _, _. split; [reflexivity|]. simpl. repeat split; reflexivity.
  - intros getoff fuel n g g' plan pkt p l1 l2 a b Hrun Hplan Hpkt Hp Hitems.
    exact (prepareReadPackets_chain _ _ _ _ _ _ _ _ Hrun Hplan Hpkt Hp _ _ _ _ Hitems).
Qed.

(** [coalesce_across_gap] at a pdu size of 40 and of 240. *)
Lemma coalesce_across_gap_witness :
  (exists g' p,
      _prepareReadPackets Fixture._getCopyBufferOffsets 1 (Some 40)
        (Fixture.group_of [Fixture.DB1_BYTE3; Fixture.DB1_BYTE0]) = (Ok tt, g')
      /\ _readPackets g' = Some [[p]]
      /\ Part.area p = constants.area.DB /\ Part.db p = Some 1
      /\ Part.address p = 0 /\ Part.length p = 4
      /\ Part.items p = [Fixture.DB1_BYTE0; Fixture.DB1_BYTE3])
  /\ (areaCode Fixture.DB1_BYTE0 = areaCode Fixture.DB1_BYTE3
      /\ (areaCode Fixture.DB1_BYTE3 = constants.area.DB
          \/ areaCode Fixture.DB1_BYTE3 = constants.area.INPUTS
          \/ areaCode Fixture.DB1_BYTE3 = constants.area.OUTPUTS
          \/ areaCode Fixture.DB1_BYTE3 = constants.area.FLAGS)
      /\ dbNumber Fixture.DB1_BYTE0 = dbNumber Fixture.DB1_BYTE3
      /\ Z.abs (offset Fixture.DB1_BYTE3
                - (offset Fixture.DB1_BYTE0 + byteLength Fixture.DB1_BYTE0))
         < _optimizationGap (Fixture.group_of [Fixture.DB1_BYTE3; Fixture.DB1_BYTE0])).
Proof.
  split.
  - apply (proj1 coalesce_across_gap Fixture._getCopyBufferOffsets 1%nat 40
             (Fixture.group_of [Fixture.DB1_BYTE3; Fixture.DB1_BYTE0])).
    + intros item addr len Hlen Hlo Hhi. unfold Fixture._getCopyBufferOffsets.
      destruct (Z.leb_spec (offset item + byteLength item) addr); [lia|].
      destruct (Z.leb_spec (addr + len) (offset item)); [lia|]. discriminate.
    + lia.
    + lia.
    + reflexivity.
    + reflexivity.
    + right. reflexivity.
  - eapply (proj2 coalesce_across_gap Fixture._getCopyBufferOffsets 1%nat 240
              (Fixture.group_of [Fixture.DB1_BYTE3; Fixture.DB1_BYTE0]) _ _ _ _ [] []).
    + vm_compute. reflexivity.
    + reflexivity.
    + left. reflexivity.
    + left. reflexivity.
    + reflexivity.
Defined.

(** ** The order of itemListSorter *)

Lemma lex_compare_antisym k1 : forall k2,
  lex_compare k2 k1 = CompOpp (lex_compare k1 k2).
Proof.
  induction k1 as [|x k1 IH]; intros [|y k2]; simpl; try reflexivity.
  rewrite (Z.compare_antisym x y). destruct (x ?= y); simpl; auto.
Qed.

Lemma lex_compare_eq k1 : forall k2, lex_compare k1 k2 = Eq <-> k1 = k2.
Proof.
  induction k1 as [|x k1 IH]; intros [|y k2]; simpl; split; try discriminate; try reflexivity.
  - destruct (Z.compare_spec x y) as [Hxy|Hxy|Hxy]; try discriminate.
    intros Hk. apply IH in Hk. now subst.
  - intros [= -> ->]. rewrite Z.compare_refl. now apply IH.
Qed.

Lemma lex_compare_trans k1 : forall k2 k3,
  lex_compare k1 k2 <> Gt -> lex_compare k2 k3 <> Gt -> lex_compare k1 k3 <> Gt.
Proof.
  induction k1 as [|x k1 IH]; intros [|y k2] [|z k3]; simpl; try congruence.
  destruct (Z.compare_spec x y), (Z.compare_spec y z), (Z.compare_spec x z);
    try congruence; try lia; subst; eauto.
Qed.

Lemma itemListSorter_lex a b :
  wf_item a -> wf_item b ->
  itemListSorter a b = comparator_result (lex_compare (sort_key a) (sort_key b)).
Proof.
  intros [Ha1 Ha2] [Hb1 Hb2]. unfold itemListSorter, sort_key, lex_compare.
  rewrite !Z.gtb_ltb.
  destruct (Z.compare_spec (areaCode a) (areaCode b)) as [Harea|Harea|Harea].
  2:{ rewrite (proj2 (Z.ltb_lt _ _) Harea). reflexivity. }
  2:{ rewrite (proj2 (Z.ltb_ge (areaCode a) (areaCode b))) by lia.
      rewrite (proj2 (Z.ltb_lt _ _) Harea). reflexivity. }
  rewrite Harea, Z.ltb_irrefl.
  assert (Hty : String.eqb (addrtype a) "DB" = String.eqb (addrtype b) "DB").
  { destruct (String.eqb_spec (addrtype a) "DB") as [Ea|Ea],
             (String.eqb_spec (addrtype b) "DB") as [Eb|Eb]; try reflexivity; exfalso.
    - apply Eb, Hb1. rewrite <- Harea. now apply Ha1.
    - apply Ea, Ha1. rewrite Harea. now apply Hb1. }
  rewrite <- Hty.
  assert (Hdb : String.eqb (addrtype a) "DB" = true ->
                exists x y, dbNumber a = Some x /\ dbNumber b = Some y).
  { intros E. assert (E' := E). rewrite Hty in E'.
    apply String.eqb_eq in E, E'.
    destruct (dbNumber a) as [x|], (dbNumber b) as [y|]; eauto;
      exfalso; try (now apply Ha2); now apply Hb2. }
  destruct (String.eqb (addrtype a) "DB"); simpl.
  - destruct (Hdb eq_refl) as (x & y & -> & ->). simpl.
    destruct (Z.compare_spec x y) as [Hxy|Hxy|Hxy].
    2:{ rewrite (proj2 (Z.ltb_lt _ _) Hxy). reflexivity. }
    2:{ rewrite (proj2 (Z.ltb_ge x y)) by lia. rewrite (proj2 (Z.ltb_lt _ _) Hxy).
        reflexivity. }
    subst. rewrite Z.ltb_irrefl.
    destruct (Z.compare_spec (offset a) (offset b)), (Z.ltb_spec (offset a) (offset b)),
      (Z.ltb_spec (offset b) (offset a)); try lia; try reflexivity.
    destruct (Z.compare_spec (bitOffset a) (bitOffset b)),
      (Z.ltb_spec (bitOffset a) (bitOffset b)),
      (Z.ltb_spec (bitOffset b) (bitOffset a)); try lia; try reflexivity.
    destruct (Z.compare_spec (- byteLength a) (- byteLength b)),
      (Z.ltb_spec (byteLength a) (byteLength b)),
      (Z.ltb_spec (byteLength b) (byteLength a)); try lia; reflexivity.
  - destruct (Z.compare_spec (offset a) (offset b)), (Z.ltb_spec (offset a) (offset b)),
      (Z.ltb_spec (offset b) (offset a)); try lia; try reflexivity.
    destruct (Z.compare_spec (bitOffset a) (bitOffset b)),
      (Z.ltb_spec (bitOffset a) (bitOffset b)),
      (Z.ltb_spec (bitOffset b) (bitOffset a)); try lia; try reflexivity.
    destruct (Z.compare_spec (- byteLength a) (- byteLength b)),
      (Z.ltb_spec (byteLength a) (byteLength b)),
      (Z.ltb_spec (byteLength b) (byteLength a)); try lia; reflexivity.
Qed.

Lemma comparator_result_le c : comparator_result c <= 0 <-> c <> Gt.
Proof. destruct c; simpl; split; intros; try congruence; try lia. Qed.

(** Replanning after an invalidation stores the same plan. *)
Lemma replan_same getoff fuel pduSize g g1 :
  _prepareReadPackets getoff fuel pduSize g = (Ok tt, g1) ->
  _prepareReadPackets getoff fuel pduSize (_invalidateReadPackets g1) = (Ok tt, g1).
Proof.
  unfold _prepareReadPackets. destruct (truthy pduSize); simpl; [|discriminate].
  destruct (List.length (ItemMap.values (_items g)) =? 0)%nat eqn:Hlen.
  - intros [= <-]. simpl. rewrite Hlen. reflexivity.
  - destruct (Planner.place_items _ _ _ _ _ _) as [st|] eqn:Hp; [|discriminate].
    destruct (Planner.packet_offsets _ _) as [plan [|]] eqn:Ho; [|discriminate].
    intros [= <-]. simpl. rewrite Hlen, Hp, Ho. reflexivity.
Qed.

Lemma sort_insert_perm {A} (cmp : A -> A -> Z) x l :
  Permutation (sort_insert cmp x l) (x :: l).
Proof.
  induction l as [|y l IH]; simpl; [reflexivity|].
  destruct (cmp x y <=? 0); [reflexivity|].
  rewrite IH. apply perm_swap.
Qed.

Lemma array_sort_perm {A} (cmp : A -> A -> Z) l : Permutation (array_sort cmp l) l.
Proof.
  induction l as [|x l IH]; simpl; [reflexivity|].
  rewrite sort_insert_perm. now constructor.
Qed.

Lemma itemListSorter_flip a b :
  wf_item a -> wf_item b -> itemListSorter b a = - itemListSorter a b.
Proof.
  intros Ha Hb. rewrite !itemListSorter_lex by assumption.
  rewrite (lex_compare_antisym (sort_key a) (sort_key b)).
  now destruct (lex_compare (sort_key a) (sort_key b)).
Qed.

Lemma sort_insert_sorted x l :
  wf_item x -> Forall wf_item l ->
  Sorted (fun a b => itemListSorter a b <= 0) l ->
  Sorted (fun a b => itemListSorter a b <= 0) (sort_insert itemListSorter x l).
Proof.
  intros Hx Hl Hs. induction l as [|y l IH]; simpl.
  - repeat constructor.
  - apply Forall_cons in Hl as [Hy Hl].
    destruct (Z.leb_spec (itemListSorter x y) 0) as [Hle|Hgt].
    + constructor; [assumption | now constructor].
    + apply Sorted_inv in Hs as [Hs Hhd]. constructor; [now apply IH|].
      destruct l as [|z l]; simpl.
      * constructor. rewrite (itemListSorter_flip x y) by assumption. lia.
      * destruct (itemListSorter x z <=? 0).
        -- constructor. rewrite (itemListSorter_flip x y) by assumption. lia.
        -- constructor. now apply HdRel_inv in Hhd.
Qed.

Lemma array_sort_sorted l :
  Forall wf_item l ->
  Sorted (fun a b => itemListSorter a b <= 0) (array_sort itemListSorter l).
Proof.
  induction l as [|x l IH]; simpl; intros Hl; [constructor|].
  apply Forall_cons in Hl as [Hx Hl].
  apply sort_insert_sorted; [assumption | | now apply IH].
  rewrite Forall_forall in *. intros y Hy. apply Hl.
  apply list_elem_of_In. apply list_elem_of_In in Hy.
  eapply Permutation_in; [apply array_sort_perm | exact Hy].
Qed.

(** C7 (as amended): on items of the address parser, [itemListSorter] is
    the lexicographic comparison of the sort keys (area code ascending;
    then, when the address type is DB, db number ascending; then byte
    offset ascending; then bit offset ascending; then byte length
    descending); it is total and transitive, and two items compare equal
    exactly when their keys are equal, so it is a total preorder on items;
    the planner's sort returns the items in a permutation that is sorted by
    it; and replanning a group after an invalidation stores the same
    plan. *)
Theorem itemListSorter_total_preorder :
  (forall a b, wf_item a -> wf_item b ->
     itemListSorter a b = comparator_result (lex_compare (sort_key a) (sort_key b)))
  /\ (forall a b, wf_item a -> wf_item b -> itemListSorter b a = - itemListSorter a b)
  /\ (forall a b c, wf_item a -> wf_item b -> wf_item c ->
       itemListSorter a b <= 0 -> itemListSorter b c <= 0 -> itemListSorter a c <= 0)
  /\ (forall a b, wf_item a -> wf_item b ->
       (itemListSorter a b = 0 <-> sort_key a = sort_key b))
  /\ (forall l, Forall wf_item l ->
       Sorted (fun a b => itemListSorter a b <= 0) (array_sort itemListSorter l)
       /\ Permutation (array_sort itemListSorter l) l)
  /\ (forall getoff fuel pduSize g g1,
       _prepareReadPackets getoff fuel pduSize g = (Ok tt, g1) ->
       _prepareReadPackets getoff fuel pduSize (_invalidateReadPackets g1) = (Ok tt, g1)).
Proof.
  split; [exact itemListSorter_lex|].
  split; [exact itemListSorter_flip|].
  split.
  { intros a b c Ha Hb Hc. rewrite !itemListSorter_lex by assumption.
    rewrite !comparator_result_le. apply lex_compare_trans. }
  split.
  { intros a b Ha Hb. rewrite itemListSorter_lex by assumption.
    rewrite <- lex_compare_eq.
    destruct (lex_compare (sort_key a) (sort_key b)); simpl; split;
      intros; try reflexivity; try discriminate; lia. }
  split.
  { intros l Hl. split; [now apply array_sort_sorted | apply array_sort_perm]. }
  exact replan_same.
Qed.

Lemma wf_byte_item_DB nm n off len :
  wf_item (Fixture.byte_item nm "DB" constants.area.DB (Some n) off len).
Proof. split; simpl; [tauto | discriminate]. Qed.

Lemma wf_byte_item_M nm off len :
  wf_item (Fixture.byte_item nm "M" constants.area.FLAGS None off len).
Proof. split; simpl; [split; discriminate | discriminate]. Qed.

(** [itemListSorter_total_preorder] at DB1,BYTE0, DB1,BYTE3 and M0,BYTE500. *)
Lemma itemListSorter_total_preorder_witness :
  itemListSorter Fixture.DB1_BYTE3 Fixture.DB1_BYTE0
  = - itemListSorter Fixture.DB1_BYTE0 Fixture.DB1_BYTE3
  /\ itemListSorter Fixture.M0_BYTE500 Fixture.DB1_BYTE3 <= 0
  /\ (Sorted (fun a b => itemListSorter a b <= 0)
        (array_sort itemListSorter
           [Fixture.DB1_BYTE3; Fixture.DB1_BYTE0; Fixture.M0_BYTE500])
      /\ Permutation
           (array_sort itemListSorter
              [Fixture.DB1_BYTE3; Fixture.DB1_BYTE0; Fixture.M0_BYTE500])
           [Fixture.DB1_BYTE3; Fixture.DB1_BYTE0; Fixture.M0_BYTE500]).
Proof.
  destruct itemListSorter_total_preorder as (_ & Hflip & Htrans & _ & Hsort & _).
  split; [apply Hflip; apply wf_byte_item_DB|].
  split.
  - apply (Htrans Fixture.M0_BYTE500 Fixture.DB1_BYTE0 Fixture.DB1_BYTE3);
      [apply wf_byte_item_M | apply wf_byte_item_DB | apply wf_byte_item_DB
      | vm_compute; discriminate | vm_compute; discriminate].
  - apply Hsort. repeat constructor;
      first [apply wf_byte_item_DB | apply wf_byte_item_M].
Defined.

(** C7 (as stated) fails: the comparator is not a total order on items.
    Two different items at the same address compare equal both ways, and
    the sort keeps them in the order in which they were given. *)
Lemma itemListSorter_ties_distinct_items :
  wf_item (Fixture.byte_item "a" "DB" constants.area.DB (Some 1) 0 1)
  /\ wf_item (Fixture.byte_item "b" "DB" constants.area.DB (Some 1) 0 1)
  /\ Fixture.byte_item "a" "DB" constants.area.DB (Some 1) 0 1
     <> Fixture.byte_item "b" "DB" constants.area.DB (Some 1) 0 1
  /\ itemListSorter (Fixture.byte_item "a" "DB" constants.area.DB (Some 1) 0 1)
                    (Fixture.byte_item "b" "DB" constants.area.DB (Some 1) 0 1) = 0
  /\ itemListSorter (Fixture.byte_item "b" "DB" constants.area.DB (Some 1) 0 1)
                    (Fixture.byte_item "a" "DB" constants.area.DB (Some 1) 0 1) = 0
  /\ array_sort itemListSorter
       [Fixture.byte_item "a" "DB" constants.area.DB (Some 1) 0 1;
        Fixture.byte_item "b" "DB" constants.area.DB (Some 1) 0 1]
     = [Fixture.byte_item "a" "DB" constants.area.DB (Some 1) 0 1;
        Fixture.byte_item "b" "DB" constants.area.DB (Some 1) 0 1]
  /\ array_sort itemListSorter
       [Fixture.byte_item "b" "DB" constants.area.DB (Some 1) 0 1;
        Fixture.byte_item "a" "DB" constants.area.DB (Some 1) 0 1]
     = [Fixture.byte_item "b" "DB" constants.area.DB (Some 1) 0 1;
        Fixture.byte_item "a" "DB" constants.area.DB (Some 1) 0 1].
Proof.
  repeat split; try apply wf_byte_item_DB; try reflexivity.
  discriminate.
Qed.

(** ** writeArea *)

(** Inside a buffer, [slice(ptr, end)] with [end] at or before [ptr] is
    empty. *)
Lemma slice_empty_from (buf : Buffer) (ptr end_ : Z) :
  0 <= ptr -> 0 <= end_ <= ptr -> slice buf ptr end_ = [].
Proof.
  intros Hptr Hend. unfold slice, slice_index.
  destruct (Z.ltb_spec ptr 0); [lia|]. destruct (Z.ltb_spec end_ 0); [lia|].
  destruct (Z.leb_spec (Z.min end_ (Z.of_nat (List.length buf)))
                       (Z.min ptr (Z.of_nat (List.length buf)))); [reflexivity | lia].
Qed.

(** Every slice that [writeArea] cuts at or after [maxPayload] is empty:
    the second argument of [data.slice] is a length, not an end index. *)
Lemma writeArea_later_slices_empty fuel area address data db maxPayload :
  forall ptr reqs,
    0 < maxPayload -> maxPayload <= ptr ->
    S7Endpoint.writeArea_requests fuel area address data db maxPayload ptr = Some reqs ->
    Forall (Forall (fun w => wi_data w = [] /\ wi_length w = 0)) reqs.
Proof.
  induction fuel as [|fuel IH]; intros ptr reqs Hmax Hptr; simpl.
  - destruct (ptr <? _); [discriminate | intros [= <-]; constructor].
  - destruct (Z.ltb_spec ptr (Z.of_nat (List.length data))) as [Hlt|Hge];
      [|intros [= <-]; constructor].
    destruct (S7Endpoint.writeArea_requests fuel _ _ _ _ _ _) as [rest|] eqn:Hrest;
      [|discriminate].
    intros [= <-]. apply IH in Hrest; [|lia|lia].
    rewrite slice_empty_from by lia.
    repeat constructor. assumption.
Qed.

(** C2 at the failing input: with a pdu size of 240 (slices of at most 212
    bytes) and 300 bytes of data, [writeArea] issues a first job with the
    bytes 0..211 at [address] and a second job with no bytes at all at
    [address + 212]; the bytes 212..299 are never sent, and the call
    resolves when the PLC accepts the two jobs. *)
Theorem writeArea_second_slice_is_empty :
  exists first second,
    S7Endpoint.writeArea_requests 2 constants.area.DB 0 (repeat x01 300) (Some 1)
      (240 - 28) 0 = Some [[first]; [second]]
    /\ wi_address first = 0 /\ wi_data first = repeat x01 212
    /\ wi_address second = 212 /\ wi_data second = []
    /\ wi_data first ++ wi_data second <> repeat x01 300
    /\ S7Endpoint.writeArea (Fixture.plc constants.retval.DATA_OK) 2
         (Fixture.connected 240) constants.area.DB 0 (repeat x01 300) (Some 1) = Ok tt.
Proof.
  eexists _, _. split; [vm_compute; reflexivity|].
  repeat split; try (vm_compute; reflexivity).
  intros H. apply (f_equal (@List.length byte)) in H. vm_compute in H. discriminate.
Qed.

(** ** readArea *)

Lemma slice_count_spec (len m j : Z) :
  0 < m -> (j < (len + m - 1) / m <-> j * m < len).
Proof.
  intros Hm. split; intros H.
  - destruct (Z.lt_ge_cases (j * m) len) as [|Hge]; [assumption|].
    exfalso. assert ((len + m - 1) / m < j + 1); [|lia].
    apply Z.div_lt_upper_bound; nia.
  - assert (j + 1 <= (len + m - 1) / m); [|lia].
    apply Z.div_le_lower_bound; nia.
Qed.

Lemma readArea_requests_from fuel area address length db m :
  0 < m -> 0 <= length ->
  forall j : nat,
    (Z.to_nat ((length + m - 1) / m) - j <= fuel)%nat ->
    S7Endpoint.readArea_requests fuel area address length db m (Z.of_nat j * m)
    = Some (map (read_slice area address length db m)
              (seq j (Z.to_nat ((length + m - 1) / m) - j))).
Proof.
  intros Hm Hlen. set (k := Z.to_nat ((length + m - 1) / m)).
  assert (Hk : forall j : nat, (j < k)%nat <-> Z.of_nat j * m < length).
  { intros j. rewrite <- slice_count_spec by assumption. unfold k.
    assert (0 <= (length + m - 1) / m) by (apply Z.div_pos; lia). lia. }
  induction fuel as [|fuel IH]; intros j Hfuel.
  - simpl. destruct (Z.ltb_spec (Z.of_nat j * m) length) as [Hlt|Hge].
    + apply Hk in Hlt. lia.
    + replace (k - j)%nat with 0%nat; [reflexivity|].
      destruct (Nat.le_gt_cases k j); [lia|]. apply Hk in H. lia.
  - simpl. destruct (Z.ltb_spec (Z.of_nat j * m) length) as [Hlt|Hge].
    + apply Hk in Hlt.
      replace (Z.of_nat j * m + m) with (Z.of_nat (S j) * m) by lia.
      rewrite IH by lia.
      replace (k - j)%nat with (S (k - S j)) by lia. reflexivity.
    + replace (k - j)%nat with 0%nat; [reflexivity|].
      destruct (Nat.le_gt_cases k j); [lia|]. apply Hk in H. lia.
Qed.

Lemma readArea_requests_total_length fuel area address length db m :
  0 < m ->
  forall ptr reqs,
    S7Endpoint.readArea_requests fuel area address length db m ptr = Some reqs ->
    sumZ (map vi_length (concat reqs)) = Z.max 0 (length - ptr).
Proof.
  intros Hm. induction fuel as [|fuel IH]; intros ptr reqs; simpl.
  - destruct (Z.ltb_spec ptr length); [discriminate|]. intros [= <-]. simpl. lia.
  - destruct (Z.ltb_spec ptr length); [|intros [= <-]; simpl; lia].
    destruct (S7Endpoint.readArea_requests fuel _ _ _ _ _ _) as [rest|] eqn:Hrest;
      [|discriminate].
    intros [= <-]. apply IH in Hrest. simpl. unfold sumZ in *. simpl.
    rewrite Hrest. lia.
Qed.

Lemma readArea_collect_ok results :
  Forall single_ok results ->
  S7Endpoint.readArea_collect results = Ok (map payload results).
Proof.
  induction 1 as [|res results (r & -> & Hcode) _ IH]; simpl; [reflexivity|].
  rewrite Hcode, IH. reflexivity.
Qed.

Lemma readArea_collect_first_failure pre r post :
  Forall single_ok pre -> returnCode r <> constants.retval.DATA_OK ->
  S7Endpoint.readArea_collect (pre ++ [r] :: post)
  = Throw (NodeS7Error (RetCode (returnCode r)) None).
Proof.
  intros Hpre Hr. induction Hpre as [|res pre (r0 & -> & Hcode) _ IH]; simpl.
  - apply Z.eqb_neq in Hr. rewrite Hr. reflexivity.
  - rewrite Hcode, IH. reflexivity.
Qed.

Lemma payload_lengths (requests : list (list VarItem)) (results : list (list ReadRes)) :
  Forall2 (fun req res => Z.of_nat (List.length (payload res))
                          = sumZ (map vi_length req)) requests results ->
  Z.of_nat (List.length (concat (map payload results)))
  = sumZ (map vi_length (concat requests)).
Proof.
  induction 1 as [|req res requests results Hhd _ IH]; simpl; [reflexivity|].
  rewrite length_app, map_app, sumZ_app, Nat2Z.inj_add, Hhd, IH. reflexivity.
Qed.

Lemma promise_all_rejected {A} (ps : list (Settled A)) err :
  promise_all ps = Rejected err -> exists i, ps !! i = Some (Rejected err).
Proof.
  induction ps as [|[a|e] ps IH]; simpl; [discriminate| |].
  - destruct (promise_all ps); [discriminate|]. intros [= ->].
    destruct (IH eq_refl) as [i Hi]. now exists (S i).
  - intros [= ->]. now exists 0%nat.
Qed.

Lemma issue_lookup {Req Res} (send : nat -> Req -> Settled Res) reqs : forall job i r,
  S7Endpoint.issue send job reqs !! i = Some r ->
  exists req, reqs !! i = Some req /\ r = send (job + i)%nat req.
Proof.
  induction reqs as [|req reqs IH]; intros job [|i] r; simpl; try discriminate.
  - intros [= <-]. exists req. now rewrite Nat.add_0_r.
  - intros H. apply IH in H as (req' & Hreq & ->). exists req'.
    now rewrite Nat.add_succ_r.
Qed.

(** C3 (as amended): on a connected endpoint with a pdu size above 18 and
    for a length of 0 or more, [readArea] issues one ReadVar job per
    consecutive slice of at most pduSize - 18 bytes, slice [i] starting at
    [address + i * (pduSize - 18)] with the length
    [min (remaining, pduSize - 18)], and the slice lengths add up to
    [length].  When every job resolves, each with exactly one part whose
    return code is 0xFF, the call resolves to the concatenation of the
    payloads, which has [length] bytes when every payload has the length
    asked for.  When every job resolves and a slice answers with one part
    whose return code is not 0xFF while every slice before it answered with
    exactly one part and 0xFF, the call rejects with that return code as
    kind.  When a job rejects, the call rejects with the error of a job
    that rejected, whatever the return codes of the other slices. *)
Theorem readArea_slices
  (conn : Connection) (e : S7Endpoint.t) (n area address length : Z) (db : option Z)
  (fuel : nat)
  (Hconnected : S7Endpoint.isConnected e = true)
  (Hpdu : S7Endpoint._pduSize e = Some n)
  (Hn : 18 < n)
  (Hlength : 0 <= length)
  (Hfuel : (Z.to_nat ((length + (n - 18) - 1) / (n - 18)) <= fuel)%nat) :
  let requests :=
    map (read_slice area address length db (n - 18))
        (seq 0 (Z.to_nat ((length + (n - 18) - 1) / (n - 18)))) in
  S7Endpoint.readArea_requests fuel area address length db (n - 18) 0 = Some requests
  /\ sumZ (map vi_length (concat requests)) = length
  /\ (forall results,
       promise_all (S7Endpoint.issue (S7Endpoint.readVars conn e) 0%nat requests)
       = Resolved results ->
       (Forall single_ok results ->
          S7Endpoint.readArea conn fuel e area address length db
          = Ok (concat (map payload results))
          /\ (Forall2 (fun req res => Z.of_nat (List.length (payload res))
                                      = sumZ (map vi_length req)) requests results ->
              Z.of_nat (List.length (concat (map payload results))) = length))
       /\ (forall pre r post,
             results = pre ++ [r] :: post -> Forall single_ok pre ->
             returnCode r <> constants.retval.DATA_OK ->
             S7Endpoint.readArea conn fuel e area address length db
             = Throw (NodeS7Error (RetCode (returnCode r)) None)))
  /\ (forall err,
        promise_all (S7Endpoint.issue (S7Endpoint.readVars conn e) 0%nat requests)
        = Rejected err ->
        S7Endpoint.readArea conn fuel e area address length db = Throw err
        /\ exists i req,
             requests !! i = Some req /\ S7Endpoint.readVars conn e i req = Rejected err).
Proof.
  intros requests.
  assert (Hreq : S7Endpoint.readArea_requests fuel area address length db (n - 18) 0
                 = Some requests).
  { pose proof (readArea_requests_from fuel area address length db (n - 18)
                  ltac:(lia) Hlength 0%nat) as H.
    rewrite Nat.sub_0_r in H. apply H. exact Hfuel. }
  assert (Hsum : sumZ (map vi_length (concat requests)) = length).
  { assert (Hm : 0 < n - 18) by lia.
    rewrite (readArea_requests_total_length _ _ _ _ _ _ Hm _ _ Hreq). lia. }
  split; [exact Hreq|]. split; [exact Hsum|]. split; cycle 1.
  { intros err Hrej. split.
    - unfold S7Endpoint.readArea. rewrite Hconnected, Hpdu. simpl S7Endpoint.to_number.
      simpl negb. cbv iota. rewrite Hreq, Hrej. reflexivity.
    - apply promise_all_rejected in Hrej as [i Hi].
      apply issue_lookup in Hi as (req & Hi & Hsend). exists i, req. now split. }
  intros results Hres.
  assert (Hrun : S7Endpoint.readArea conn fuel e area address length db
                 = match S7Endpoint.readArea_collect results with
                   | Ok bufs => Ok (concat bufs)
                   | Throw err => Throw err
                   | Diverge => Diverge
                   end).
  { unfold S7Endpoint.readArea. rewrite Hconnected, Hpdu. simpl S7Endpoint.to_number.
    simpl negb. cbv iota. rewrite Hreq, Hres. reflexivity. }
  split.
  - intros Hok. rewrite Hrun, (readArea_collect_ok _ Hok). split; [reflexivity|].
    intros Hlen. rewrite (payload_lengths _ _ Hlen). exact Hsum.
  - intros pre r post -> Hpre Hr.
    rewrite Hrun, (readArea_collect_first_failure _ _ _ Hpre Hr). reflexivity.
Qed.

(** [readArea_slices] for a read of 300 bytes at a pdu size of 240. *)
Lemma readArea_slices_witness :
  S7Endpoint.readArea_requests 2 constants.area.DB 10 300 (Some 1) (240 - 18) 0
  = Some [ [mkVarItem constants.area.DB (Some 1) constants.transport.BYTE 10 222];
           [mkVarItem constants.area.DB (Some 1) constants.transport.BYTE 232 78] ]
  /\ S7Endpoint.readArea (Fixture.plc constants.retval.DATA_OK) 2 (Fixture.connected 240)
       constants.area.DB 10 300 (Some 1) = Ok (repeat x00 300)
  /\ S7Endpoint.readArea (Fixture.plc 5) 2 (Fixture.connected 240)
       constants.area.DB 10 300 (Some 1) = Throw (NodeS7Error (RetCode 5) None)
  /\ S7Endpoint.readArea (Fixture.rejecting [[mkReadRes 5 []]] 1 (Error "timeout")) 2
       (Fixture.connected 240) constants.area.DB 10 300 (Some 1) = Throw (Error "timeout").
Proof.
  pose proof (readArea_slices (Fixture.plc constants.retval.DATA_OK) (Fixture.connected 240)
                240 constants.area.DB 10 300 (Some 1) 2%nat eq_refl eq_refl
                ltac:(lia) ltac:(lia) ltac:(vm_compute; lia)) as (Hreq & _ & Hok & _).
  pose proof (readArea_slices (Fixture.plc 5) (Fixture.connected 240)
                240 constants.area.DB 10 300 (Some 1) 2%nat eq_refl eq_refl
                ltac:(lia) ltac:(lia) ltac:(vm_compute; lia)) as (_ & _ & Hfail & _).
  pose proof (readArea_slices (Fixture.rejecting [[mkReadRes 5 []]] 1 (Error "timeout"))
                (Fixture.connected 240)
                240 constants.area.DB 10 300 (Some 1) 2%nat eq_refl eq_refl
                ltac:(lia) ltac:(lia) ltac:(vm_compute; lia)) as (_ & _ & _ & Hrej).
  split; [exact Hreq|]. split; [|split].
  - destruct (Hok _ eq_refl) as [Hresolve _].
    rewrite (proj1 (Hresolve ltac:(repeat constructor; eexists; split; reflexivity))).
    reflexivity.
  - destruct (Hfail _ eq_refl) as [_ Hreject].
    apply (Hreject [] (mkReadRes 5 (repeat x00 222)) [[mkReadRes 5 (repeat x00 78)]]
             eq_refl ltac:(constructor)).
    vm_compute. discriminate.
  - apply (Hrej (Error "timeout")). reflexivity.
Defined.

(** C3 (as stated) fails: [readArea] hands on whatever the PLC sent. On a
    connected endpoint with a pdu size of 240, a read of 4 bytes whose only
    job resolves with return code 0xFF and one byte resolves to that one
    byte. *)
Lemma readArea_short_payload :
  S7Endpoint.readArea (Fixture.scripted [[mkReadRes constants.retval.DATA_OK [x2a]]]) 1
    (Fixture.connected 240) constants.area.DB 0 4 (Some 1) = Ok [x2a]
  /\ Z.of_nat (List.length [x2a]) <> 4.
Proof. split; [reflexivity | discriminate]. Qed.

(** A response with two parts is refused before any return code is read,
    so a later slice's return code does not become the kind. *)
Lemma readArea_two_parts_first :
  S7Endpoint.readArea
    (Fixture.scripted [ [mkReadRes constants.retval.DATA_OK []; mkReadRes constants.retval.DATA_OK []];
                        [mkReadRes 5 []] ]) 2
    (Fixture.connected 240) constants.area.DB 0 300 (Some 1)
  = Throw (NodeS7Error ERR_UNEXPECTED_RESPONSE None).
Proof. reflexivity. Qed.

(** With a pdu size of 18 the loop of [readArea] never advances. *)
Lemma readArea_pdu18_diverges fuel :
  S7Endpoint.readArea (Fixture.plc constants.retval.DATA_OK) fuel (Fixture.connected 18)
    constants.area.DB 0 1 (Some 1) = Diverge.
Proof.
  unfold S7Endpoint.readArea. simpl.
  assert (H : forall ptr, ptr = 0 ->
            S7Endpoint.readArea_requests fuel constants.area.DB 0 1 (Some 1) 0 ptr = None).
  { induction fuel as [|fuel IH]; intros ptr ->; simpl; [reflexivity|].
    now rewrite IH. }
  now rewrite H.
Qed.

(** ** readAllItems: the first failing part decides *)

Lemma item_offsets_length getoff its addr len os :
  Planner.item_offsets getoff its addr len = (os, true) ->
  List.length os = List.length its.
Proof.
  revert os. induction its as [|it its IH]; simpl; intros os.
  - now intros [= <-].
  - destruct (getoff it addr len); [|discriminate].
    destruct (Planner.item_offsets getoff its addr len) as [os' ok].
    intros [= <- ->]. simpl. now rewrite (IH os').
Qed.

Lemma part_offsets_complete getoff ps : forall ps',
  Planner.part_offsets getoff ps = (ps', true) -> Forall complete_part ps'.
Proof.
  induction ps as [|p ps IH]; simpl; intros ps'.
  - intros [= <-]. constructor.
  - destruct (Planner.item_offsets getoff _ _ _) as [os [|]] eqn:Ho; [|discriminate].
    destruct (Planner.part_offsets getoff ps) as [rest ok'].
    intros [= <- ->]. constructor; [|now apply IH].
    unfold complete_part. simpl. now apply item_offsets_length in Ho.
Qed.

Lemma packet_offsets_complete getoff plan : forall plan',
  Planner.packet_offsets getoff plan = (plan', true) ->
  Forall (Forall complete_part) plan'.
Proof.
  induction plan as [|pkt plan IH]; simpl; intros plan'.
  - intros [= <-]. constructor.
  - destruct (Planner.part_offsets getoff pkt) as [pkt' [|]] eqn:Hp; [|discriminate].
    destruct (Planner.packet_offsets getoff plan) as [rest ok'].
    intros [= <- ->]. constructor; [now apply part_offsets_complete in Hp | now apply IH].
Qed.

(** The plan that a run of [_prepareReadPackets] that returns has stored
    has all its copy descriptors. *)
Lemma prepareReadPackets_complete getoff fuel n g g' plan :
  _prepareReadPackets getoff fuel (Some n) g = (Ok tt, g') ->
  _readPackets g' = Some plan -> Forall (Forall complete_part) plan.
Proof.
  intros Hrun Hplan.
  apply prepareReadPackets_Ok in Hrun as [[_ Hnil]|(st & plan' & _ & Hoff & Hst)].
  - rewrite Hnil in Hplan. injection Hplan as <-. constructor.
  - rewrite Hst in Hplan. injection Hplan as ->.
    now apply packet_offsets_complete in Hoff.
Qed.

Section ReadAllItems.
Variable Value : Type.
Variable _getCopyBufferOffsets : S7Item -> Z -> Z -> option CopyOffsets.
Variable _copyFromBuffer : S7Item -> Buffer -> option CopyOffsets -> Result unit * S7Item.
Variable updated_value : S7Item -> Value.
Variable conn : Connection.
Variable hrtime : Z.

Local Abbreviation readAllItems' :=
  (readAllItems Value _getCopyBufferOffsets _copyFromBuffer updated_value conn hrtime).

Local Abbreviation copied := (copied _copyFromBuffer).
Local Abbreviation answered_ok := (answered_ok _copyFromBuffer).

Lemma copy_items_copied its : forall offs resData m,
  (forall (k : nat) (item it : S7Item), its !! k = Some item ->
     fst (_copyFromBuffer it resData (offs !! k)) = Ok tt) ->
  exists m', copy_items _copyFromBuffer its offs resData m = (Ok tt, m').
Proof.
  induction its as [|item its IH]; intros offs resData m Hcopy; simpl; [eauto|].
  unfold copy_item.
  pose proof (Hcopy 0%nat item (default item (ItemMap.get (name item) m)) eq_refl) as H0.
  rewrite <- head_lookup in H0.
  destruct (_copyFromBuffer _ resData (head offs)) as [r item']. simpl in H0. subst r.
  apply IH. intros k item0 it Hk. rewrite lookup_tail. now apply (Hcopy (S k) item0).
Qed.

Lemma parse_parts_ok req : forall res m,
  answered_ok (List.length req) req res ->
  exists m', parse_parts _copyFromBuffer req res m = (Ok tt, m').
Proof.
  induction req as [|q req IH]; intros res m Hok; simpl; [eauto|].
  destruct (Hok 0%nat q ltac:(simpl; lia) eq_refl) as (s & Hs & Hcode & Hcopy).
  destruct res as [|s' res]; [discriminate|]. injection Hs as ->.
  rewrite Hcode. simpl.
  destruct (copy_items_copied _ _ (data s) m Hcopy) as [m1 ->].
  apply IH. intros j reqPart Hj Hreq. apply (Hok (S j) reqPart); [simpl; lia | exact Hreq].
Qed.

Lemma parse_parts_first_failure req : forall res m j reqPart resPart,
  req !! j = Some reqPart -> res !! j = Some resPart ->
  answered_ok j req res ->
  returnCode resPart <> constants.retval.DATA_OK ->
  exists m',
    parse_parts _copyFromBuffer req res m
    = (Throw (NodeS7Error (RetCode (returnCode resPart)) (Some (part_info reqPart))), m').
Proof.
  induction req as [|q req IH]; intros res m j reqPart resPart Hreq Hres Hbefore Hbad;
    [discriminate|].
  destruct j as [|j].
  - injection Hreq as ->. destruct res as [|s res]; [discriminate|]. injection Hres as ->.
    simpl. apply Z.eqb_neq in Hbad. rewrite Hbad. simpl. eauto.
  - destruct (Hbefore 0%nat q ltac:(lia) eq_refl) as (s & Hs & Hcode & Hcopy).
    destruct res as [|s' res]; [discriminate|]. injection Hs as ->.
    simpl. rewrite Hcode. simpl.
    destruct (copy_items_copied _ _ (data s) m Hcopy) as [m1 ->].
    apply (IH res m1 j); try assumption.
    intros j' reqPart' Hj' Hreq'. apply (Hbefore (S j') reqPart'); [lia | exact Hreq'].
Qed.

Lemma parse_packets_first_failure plan : forall responses m i j req res reqPart resPart,
  plan !! i = Some req -> responses !! i = Some res ->
  (forall i' req' res', (i' < i)%nat ->
     plan !! i' = Some req' -> responses !! i' = Some res' ->
     answered_ok (List.length req') req' res') ->
  req !! j = Some reqPart -> res !! j = Some resPart ->
  answered_ok j req res ->
  returnCode resPart <> constants.retval.DATA_OK ->
  List.length responses = List.length plan ->
  exists m',
    parse_packets _copyFromBuffer plan responses m
    = (Throw (NodeS7Error (RetCode (returnCode resPart)) (Some (part_info reqPart))), m').
Proof.
  induction plan as [|q plan IH];
    intros responses m i j req res reqPart resPart Hplan Hresp Hearlier Hreq Hres
           Hbefore Hbad Hlen; [discriminate|].
  destruct responses as [|r responses]; [discriminate|].
  destruct i as [|i].
  - injection Hplan as ->. injection Hresp as ->. simpl.
    destruct (parse_parts_first_failure req res m j reqPart resPart Hreq Hres Hbefore Hbad)
      as [m' ->]. eauto.
  - simpl.
    destruct (parse_parts_ok q r m) as [m1 ->].
    { apply (Hearlier 0%nat q r); [lia | reflexivity | reflexivity]. }
    apply (IH responses m1 i j req res); try assumption.
    + intros i' req' res' Hi'. apply (Hearlier (S i')). lia.
    + simpl in Hlen. lia.
Qed.

Lemma promise_all_length {A} (ps : list (Settled A)) l :
  promise_all ps = Resolved l -> List.length l = List.length ps.
Proof.
  revert l. induction ps as [|[a|e] ps IH]; simpl; intros l.
  - now intros [= <-].
  - destruct (promise_all ps); [|discriminate]. intros [= <-]. simpl. now rewrite (IH _ eq_refl).
  - discriminate.
Qed.

Lemma issue_length {Req Res} (send : nat -> Req -> Settled Res) reqs :
  forall job, List.length (S7Endpoint.issue send job reqs) = List.length reqs.
Proof. induction reqs as [|r reqs IH]; intros job; simpl; [reflexivity | now rewrite IH]. Qed.

(** What [readAllItems] does once it has handed packets to [readVars]. *)
Lemma readAllItems_issued fuel w plan :
  issued (readAllItems' fuel w) = plan -> plan <> [] ->
  exists g1,
    _readPackets g1 = Some plan /\ _items g1 = _items (group w)
    /\ match promise_all
               (S7Endpoint.issue
                  (fun job pkt => S7Endpoint.readVars conn (endpoint w) job (map part_request pkt))
                  0%nat plan) with
       | Rejected e => outcome (readAllItems' fuel w) = Throw e
       | Resolved responses =>
           outcome (readAllItems' fuel w)
           = match parse_packets _copyFromBuffer plan responses (_items g1) with
             | (Ok _, m) => Ok (result_object Value updated_value m)
             | (Throw e, _) => Throw e
             | (Diverge, _) => Diverge
             end
       end.
Proof.
  unfold readAllItems. destruct (_endpoint (group w)); simpl; [|congruence].
  set (prep := match _readPackets (group w) with
               | Some _ => (Ok tt, group w)
               | None => _prepareReadPackets _getCopyBufferOffsets fuel
                           (S7Endpoint.pduSize (endpoint w)) (group w)
               end).
  assert (Hitems : _items (snd prep) = _items (group w)).
  { unfold prep. destruct (_readPackets (group w)); [reflexivity|].
    unfold _prepareReadPackets. destruct (negb _); [reflexivity|].
    destruct (_ =? _)%nat; [reflexivity|].
    destruct (Planner.place_items _ _ _ _ _ _); [|reflexivity].
    destruct (Planner.packet_offsets _ _) as [? [|]]; reflexivity. }
  destruct prep as [[[]|e|] g1]; simpl in *; try congruence.
  destruct (_readPackets g1) as [plan0|] eqn:Hplan0; simpl; [|congruence].
  destruct (List.length plan0 =? 0)%nat eqn:Hlen; simpl; [congruence|].
  intros Hissued _. exists g1.
  assert (plan0 = plan) as <-.
  { destruct (promise_all _); [destruct (parse_packets _ _ _ _) as [[[]|?|] ?]|];
      exact Hissued. }
  clear Hissued. split; [assumption|]. split; [assumption|].
  destruct (promise_all _) as [responses|e]; simpl; [|reflexivity].
  destruct (parse_packets _ _ _ _) as [[[]|e|] m]; reflexivity.
Qed.

(** C6 (as amended): when [readAllItems] has issued its packets and all
    jobs have resolved, and part [j] of the response to packet [i] has a
    return code other than 0xFF while every response part before it, in
    packet and then part order, is present with return code 0xFF and with
    data on which [_copyFromBuffer] does not throw for the copy descriptors
    of its request part (whatever the item holds), the call rejects with
    that return code as kind and with the area, db, address and length of
    part [j] of packet [i] as context; it returns no values. *)
Theorem readAllItems_first_failure
  (fuel : nat) (w : World) (responses : list (list ReadRes)) (i j : nat)
  (req : Packet) (res : list ReadRes) (reqPart : Part.t) (resPart : ReadRes)
  (Hresolved :
     promise_all
       (S7Endpoint.issue
          (fun job pkt => S7Endpoint.readVars conn (endpoint w) job (map part_request pkt))
          0%nat (issued (readAllItems' fuel w))) = Resolved responses)
  (Hreq : issued (readAllItems' fuel w) !! i = Some req)
  (Hres : responses !! i = Some res)
  (Hearlier : forall i' req' res', (i' < i)%nat ->
     issued (readAllItems' fuel w) !! i' = Some req' -> responses !! i' = Some res' ->
     answered_ok (List.length req') req' res')
  (HreqPart : req !! j = Some reqPart)
  (HresPart : res !! j = Some resPart)
  (Hbefore : answered_ok j req res)
  (Hbad : returnCode resPart <> constants.retval.DATA_OK) :
  outcome (readAllItems' fuel w)
  = Throw (NodeS7Error (RetCode (returnCode resPart))
             (Some (InfoPart (Part.area reqPart) (Part.db reqPart)
                             (Part.address reqPart) (Part.length reqPart)))).
Proof.
  destruct (readAllItems_issued fuel w _ eq_refl) as (g1 & Hplan & Hitems & Hrun).
  { intros Hnil. rewrite Hnil in Hreq. discriminate. }
  rewrite Hresolved in Hrun. rewrite Hrun.
  destruct (parse_packets_first_failure _ responses (_items g1) i j req res reqPart resPart
              Hreq Hres Hearlier HreqPart HresPart Hbefore Hbad) as [m' ->].
  - apply promise_all_length in Hresolved. now rewrite issue_length in Hresolved.
  - reflexivity.
Qed.

End ReadAllItems.

(** [readAllItems_first_failure] for the 500-byte item read in three
    packets, the second of which is answered with return code 5. *)
Lemma readAllItems_first_failure_witness :
  outcome (example_readAllItems
             (Fixture.scripted [ [mkReadRes 255 (repeat x00 204)];
                                 [mkReadRes 5 []];
                                 [mkReadRes 255 (repeat x00 92)] ])
             5 (example_world 240 [Fixture.M0_BYTE500]))
  = Throw (NodeS7Error (RetCode 5) (Some (InfoPart constants.area.FLAGS None 204 204))).
Proof.
  unfold example_readAllItems.
  eapply (readAllItems_first_failure Fixture.Value Fixture._getCopyBufferOffsets
            Fixture._copyFromBuffer Fixture.updated_value _ 0 5%nat
            (example_world 240 [Fixture.M0_BYTE500]) _ 1%nat 0%nat _ _
            (Part.mk [Fixture.M0_BYTE500] [mkOffsets 0 204 204] constants.area.FLAGS None
                     constants.transport.BYTE 204 204)
            (mkReadRes 5 [])).
  - vm_compute. reflexivity.
  - vm_compute. reflexivity.
  - reflexivity.
  - intros [|i'] req' res' Hi'; [|lia]. vm_compute. intros [= <-] [= <-].
    intros [|j] reqPart Hj; [|simpl in Hj; lia]. intros [= <-].
    eexists. split; [reflexivity|]. split; [reflexivity|].
    intros [|k] item it; [|discriminate]. intros _. reflexivity.
  - reflexivity.
  - reflexivity.
  - intros j' reqPart' Hj'. lia.
  - vm_compute. discriminate.
Defined.

(** A copy that throws decides as well: for the two bytes of DB1 read in
    one part and a byte of DB2 read in a second one, when the first part
    is answered with return code 0xFF and a single byte and the second
    with return code 5, an item whose [_copyFromBuffer] throws a
    [RangeError] on the short data makes the call reject with that error
    before the second return code is looked at. *)
Lemma readAllItems_copy_error_wins :
  outcome (example_readAllItems
             (Fixture.scripted [ [mkReadRes 255 [x2a]; mkReadRes 5 []] ])
             5 (example_world 240
                  [Fixture.DB1_BYTE0; Fixture.DB1_BYTE3;
                   Fixture.byte_item "DB2,BYTE0" "DB" constants.area.DB (Some 2) 0 1]))
  = Throw RangeError.
Proof. vm_compute. reflexivity. Qed.

(** C6 (as stated) fails.  In the read of the 500-byte item in three
    packets, when the first job resolves without any part and the second
    with a part of return code 5, the call rejects with
    [ERR_UNEXPECTED_RESPONSE] for the first request part; and when the
    first job answers with return code 5 and the second with return code
    10, the call rejects with 5 and the context of the first part, not with
    10 and the context of the second. *)
Lemma readAllItems_earlier_problem_wins :
  outcome (example_readAllItems
             (Fixture.scripted [ []; [mkReadRes 5 []]; [mkReadRes 255 (repeat x00 92)] ])
             5 (example_world 240 [Fixture.M0_BYTE500]))
  = Throw (NodeS7Error ERR_UNEXPECTED_RESPONSE
             (Some (InfoPart constants.area.FLAGS None 0 204)))
  /\ outcome (example_readAllItems
                (Fixture.scripted [ [mkReadRes 5 []]; [mkReadRes 10 []];
                                    [mkReadRes 255 (repeat x00 92)] ])
                5 (example_world 240 [Fixture.M0_BYTE500]))
     = Throw (NodeS7Error (RetCode 5) (Some (InfoPart constants.area.FLAGS None 0 204))).
Proof. split; vm_compute; reflexivity. Qed.

(** ** The life of a group: the cached plan and the pdu size *)

Lemma ItemMap_set_nonempty key value m : ItemMap.set key value m <> [].
Proof. destruct m as [|[k v] m]; simpl; [discriminate|]. destruct (String.eqb k key); discriminate. Qed.

Lemma ItemMap_update_nil key f m : ItemMap.update key f m = [] -> m = [].
Proof. destruct m as [|[k v] m]; simpl; [reflexivity|]. destruct (String.eqb k key); discriminate. Qed.

Section GroupLife.
Variable Value : Type.
Variable S7Item_new : string -> string -> option S7Item.
Variable _getCopyBufferOffsets : S7Item -> Z -> Z -> option CopyOffsets.
Variable getWriteBuffer : S7Item -> Value -> Buffer.
Variable _copyFromBuffer : S7Item -> Buffer -> option CopyOffsets -> Result unit * S7Item.
Variable updated_value : S7Item -> Value.

Local Abbreviation readAllItems' :=
  (readAllItems Value _getCopyBufferOffsets _copyFromBuffer updated_value).
Local Abbreviation writeItems' := (writeItems Value S7Item_new getWriteBuffer).
Local Abbreviation prepare' := (_prepareReadPackets _getCopyBufferOffsets).
Local Abbreviation Reachable :=
  (Reachable Value S7Item_new _getCopyBufferOffsets getWriteBuffer _copyFromBuffer
     updated_value).

Lemma addItems_loop_frame tagsArr : forall g r g',
  addItems_loop S7Item_new g tagsArr = (r, g') ->
  _endpoint g' = _endpoint g /\ _readPackets g' = _readPackets g
  /\ (_items g' = [] -> _items g = []).
Proof.
  induction tagsArr as [|tag tags IH]; intros g r g'; simpl.
  - intros [= <- <-]. auto.
  - unfold addItem. destruct tag as [item|s|].
    + intros H. apply IH in H as (H1 & H2 & H3). simpl in *.
      repeat split; try assumption. intros H. apply H3 in H.
      now apply ItemMap_set_nonempty in H.
    + destruct (S7Item_new s _) as [item|].
      * intros H. apply IH in H as (H1 & H2 & H3). simpl in *.
        repeat split; try assumption. intros H. apply H3 in H.
        now apply ItemMap_set_nonempty in H.
      * intros [= <- <-]. auto.
    + intros [= <- <-]. auto.
Qed.

Lemma addItems_frame tags g :
  let g' := snd (addItems S7Item_new tags g) in
  _endpoint g' = _endpoint g
  /\ (_readPackets g' = None \/ _readPackets g' = _readPackets g)
  /\ (_items g' = [] -> _items g = []).
Proof.
  unfold addItems.
  destruct (addItems_loop S7Item_new g _) as [r g1] eqn:Hloop.
  apply addItems_loop_frame in Hloop as (H1 & H2 & H3).
  destruct r; simpl; auto.
Qed.

Lemma prepare_frame fuel pduSize g :
  let r := prepare' fuel pduSize g in
  _endpoint (snd r) = _endpoint g /\ _items (snd r) = _items g
  /\ _lastRequestTime (snd r) = _lastRequestTime g
  /\ (snd r = g
      \/ truthy pduSize = true
         /\ exists plan, _readPackets (snd r) = Some plan /\ (_items g = [] -> plan = [])).
Proof.
  unfold _prepareReadPackets. destruct (truthy pduSize); simpl; [|auto 6].
  unfold ItemMap.values.
  destruct (_items g) as [|kv items] eqn:Hitems; simpl.
  - repeat split; try assumption. right. split; [reflexivity|]. eauto.
  - destruct (Planner.place_items _ _ _ _ _ _); simpl; [|auto 6].
    destruct (Planner.packet_offsets _ _) as [plan [|]]; simpl;
      (repeat split; try assumption); right; (split; [reflexivity|]);
      exists plan; (split; [reflexivity | discriminate]).
Qed.

Lemma copy_items_nil its : forall offs resData m,
  snd (copy_items _copyFromBuffer its offs resData m) = [] -> m = [].
Proof.
  induction its as [|it its IH]; intros offs resData m; simpl; auto.
  unfold copy_item. destruct (_copyFromBuffer _ _ _) as [r it'].
  destruct r as [[]|e|]; simpl; intros H; try apply IH in H;
    now apply ItemMap_update_nil in H.
Qed.

Lemma parse_parts_nil req : forall res m,
  snd (parse_parts _copyFromBuffer req res m) = [] -> m = [].
Proof.
  induction req as [|q req IH]; intros [|s res] m; simpl; auto.
  destruct (negb _); simpl; [auto|].
  destruct (copy_items _ _ _ _ _) as [[[]|e|] m1] eqn:Hc; simpl; intros H;
    try apply IH in H; subst;
    apply (copy_items_nil (Part.items q) (Part.offsets q) (data s) m); now rewrite Hc.
Qed.

Lemma parse_packets_nil plan : forall responses m,
  snd (parse_packets _copyFromBuffer plan responses m) = [] -> m = [].
Proof.
  induction plan as [|q plan IH]; intros [|r responses] m; simpl; auto.
  destruct (parse_parts _ _ _ _) as [[[]|e|] m1] eqn:Hp; simpl; intros H;
    try apply IH in H; subst;
    apply (parse_parts_nil q r m); now rewrite Hp.
Qed.

Lemma readAllItems_frame conn hrtime fuel w :
  let r := readAllItems' conn hrtime fuel w in
  endpoint (after r) = endpoint w /\ listening (after r) = listening w
  /\ _endpoint (group (after r)) = _endpoint (group w)
  /\ (_items (group (after r)) = [] -> _items (group w) = [])
  /\ (_readPackets (group (after r)) = _readPackets (group w)
      \/ _endpoint (group w) = true
         /\ truthy (S7Endpoint.pduSize (endpoint w)) = true
         /\ exists plan, _readPackets (group (after r)) = Some plan
                         /\ (_items (group w) = [] -> plan = [])).
Proof.
  unfold readAllItems. destruct (_endpoint (group w)) eqn:Hep; simpl; [|auto 6].
  set (prep := match _readPackets (group w) with
               | Some _ => (Ok tt, group w)
               | None => prepare' fuel (S7Endpoint.pduSize (endpoint w)) (group w)
               end).
  assert (Hprep : _endpoint (snd prep) = true /\ _items (snd prep) = _items (group w)
                  /\ (_readPackets (snd prep) = _readPackets (group w)
                      \/ truthy (S7Endpoint.pduSize (endpoint w)) = true
                         /\ exists plan, _readPackets (snd prep) = Some plan
                                         /\ (_items (group w) = [] -> plan = []))).
  { unfold prep. destruct (_readPackets (group w)) eqn:Hplan; simpl; [auto|].
    destruct (prepare_frame fuel (S7Endpoint.pduSize (endpoint w)) (group w))
      as (H1 & H2 & _ & [H3|H3]); simpl in *.
    - rewrite H1, H2, H3. auto.
    - rewrite H1, H2. auto. }
  destruct prep as [prepared g1]. simpl in Hprep. destruct Hprep as (H1 & H2 & H3).
  assert (Hgen : forall (r : Run (gmap string Value) Packet),
            endpoint (after r) = endpoint w -> listening (after r) = listening w ->
            _endpoint (group (after r)) = _endpoint g1 ->
            (_items (group (after r)) = [] -> _items g1 = []) ->
            _readPackets (group (after r)) = _readPackets g1 ->
            endpoint (after r) = endpoint w /\ listening (after r) = listening w
            /\ _endpoint (group (after r)) = true
            /\ (_items (group (after r)) = [] -> _items (group w) = [])
            /\ (_readPackets (group (after r)) = _readPackets (group w)
                \/ true = true
                   /\ truthy (S7Endpoint.pduSize (endpoint w)) = true
                   /\ exists plan, _readPackets (group (after r)) = Some plan
                                   /\ (_items (group w) = [] -> plan = []))).
  { intros r E1 E2 E3 E4 E5. rewrite E3, E5.
    split; [assumption|]. split; [assumption|]. split; [assumption|].
    split; [intros Hnil; rewrite <- H2; auto|].
    destruct H3 as [H3|[H3 H4]]; [left; assumption | right; auto]. }
  destruct prepared as [[]|e|]; try (apply Hgen; simpl; auto; fail).
  destruct (_readPackets g1) as [plan|] eqn:Hplan; [|apply Hgen; simpl; auto].
  destruct (List.length plan =? 0)%nat; [apply Hgen; simpl; auto|].
  destruct (promise_all _) as [responses|e]; [|apply Hgen; simpl; auto].
  destruct (parse_packets _ _ _ _) as [[[]|e|] m] eqn:Hparse;
    apply Hgen; simpl; auto; intros ->;
    apply (parse_packets_nil plan responses (_items g1)); now rewrite Hparse.
Qed.

Lemma writeItems_frame conn hrtime tags values w :
  let r := writeItems' conn hrtime tags values w in
  endpoint (after r) = endpoint w /\ listening (after r) = listening w
  /\ _endpoint (group (after r)) = _endpoint (group w)
  /\ _items (group (after r)) = _items (group w)
  /\ _readPackets (group (after r)) = _readPackets (group w)
  /\ _skipOptimization (group (after r)) = _skipOptimization (group w)
  /\ _optimizationGap (group (after r)) = _optimizationGap (group w).
Proof.
  unfold writeItems. destruct (negb _); simpl; [auto 8|].
  destruct (match tags with ArgOne (TagString s) => _ | ArgArray l => _ | _ => None end);
    simpl; [|auto 8].
  destruct (negb _); simpl; [auto 8|].
  destruct (_ =? _)%nat; simpl; [auto 8|].
  destruct (negb _); simpl; [auto 8|].
  destruct (write_packets _ _ _ _ _ _ _); simpl; auto 8.
  destruct (promise_all _); simpl; auto 8.
Qed.

Lemma loose_eq_truthy a b : loose_neq a b = false -> truthy a = truthy b.
Proof.
  destruct a as [x|], b as [y|]; simpl; try discriminate; try reflexivity.
  intros H. apply negb_false_iff, Z.eqb_eq in H. now subst.
Qed.

Lemma reachable_plan_is_current w : Reachable w -> plan_is_current w.
Proof.
  induction 1 as [ep opts | w tags _ IH | w tags _ IH | w func _ IH | w size _ IH | w s _ IH
                 | w conn hrtime fuel _ IH | w conn hrtime tags values _ IH | w _ IH].
  - repeat split; simpl; try discriminate; try reflexivity.
  - destruct IH as (I1 & I2 & I3).
    destruct (addItems_frame tags (group w)) as (F1 & F2 & F3). simpl in *.
    unfold plan_is_current. simpl. rewrite F1. split; [assumption|]. split.
    + intros Hd. destruct F2 as [F2|F2]; [assumption|]. rewrite F2. auto.
    + intros plan Hplan. destruct F2 as [F2|F2]; [congruence|].
      rewrite F2 in Hplan. destruct (I3 plan Hplan) as [Ht Hnil]. auto.
  - destruct IH as (I1 & I2 & I3). unfold plan_is_current, removeItems. simpl.
    split; [assumption|]. split; [reflexivity|]. discriminate.
  - destruct func; exact IH.
  - destruct IH as (I1 & I2 & I3). unfold plan_is_current, _onConnectionConnected. simpl.
    destruct (loose_neq _ _) eqn:Hneq; simpl.
    + destruct (listening w) eqn:Hl; simpl.
      * split; [assumption|]. split; [reflexivity|]. discriminate.
      * split; [assumption|]. split; [assumption|].
        intros plan Hplan. rewrite I2 in Hplan by congruence. discriminate.
    + split; [assumption|]. split; [assumption|].
      intros plan Hplan. destruct (I3 plan Hplan) as [Ht Hnil].
      apply loose_eq_truthy in Hneq. unfold S7Endpoint.pduSize in *. simpl.
      split; [congruence | assumption].
  - exact IH.
  - destruct IH as (I1 & I2 & I3).
    destruct (readAllItems_frame conn hrtime fuel w) as (F1 & F2 & F3 & F4 & F5).
    simpl in *. unfold plan_is_current. rewrite F1, F2, F3.
    split; [assumption|]. split.
    + intros Hd. destruct F5 as [F5|(F5 & _)]; [rewrite F5; auto | congruence].
    + intros plan Hplan. destruct F5 as [F5|(_ & Ht & plan' & Hp & Hnil)].
      * rewrite F5 in Hplan. destruct (I3 plan Hplan) as [Ht Hnil]. auto.
      * rewrite Hp in Hplan. injection Hplan as <-. auto.
  - destruct IH as (I1 & I2 & I3).
    destruct (writeItems_frame conn hrtime tags values w) as (F1 & F2 & F3 & F4 & F5 & _).
    simpl in *. unfold plan_is_current. rewrite F1, F2, F3, F4, F5. auto.
  - unfold destroy_call. destruct (_endpoint (group w)); [|exact IH].
    repeat split; simpl; try discriminate; reflexivity.
Qed.

(** C8: in a world that the constructor and the methods lead to, a group
    that still has its endpoint rejects [readAllItems] with
    [ERR_ILLEGAL_STATE] while the pdu size of the endpoint is falsy,
    whatever its items and without issuing a request; and while the pdu
    size is there, [readAllItems] on a group without items resolves to the
    empty mapping without issuing a request. *)
Theorem readAllItems_needs_pduSize (w : World) (conn : Connection) (hrtime : Z) (fuel : nat)
  (Hreach : Reachable w) (Hendpoint : _endpoint (group w) = true) :
  (truthy (S7Endpoint.pduSize (endpoint w)) = false ->
     outcome (readAllItems' conn hrtime fuel w) = Throw (NodeS7Error ERR_ILLEGAL_STATE None)
     /\ issued (readAllItems' conn hrtime fuel w) = [])
  /\ (truthy (S7Endpoint.pduSize (endpoint w)) = true -> _items (group w) = [] ->
      outcome (readAllItems' conn hrtime fuel w) = Ok empty
      /\ issued (readAllItems' conn hrtime fuel w) = []).
Proof.
  apply reachable_plan_is_current in Hreach as (_ & _ & Hplan).
  unfold readAllItems. rewrite Hendpoint. simpl. split.
  - intros Hfalsy. destruct (_readPackets (group w)) as [plan|] eqn:Hcached.
    + destruct (Hplan plan eq_refl) as [Ht _]. congruence.
    + unfold _prepareReadPackets. rewrite Hfalsy. simpl. auto.
  - intros Htruthy Hitems. destruct (_readPackets (group w)) as [plan|] eqn:Hcached.
    + destruct (Hplan plan eq_refl) as [_ Hnil]. rewrite (Hnil Hitems) in *.
      rewrite Hcached. simpl. auto.
    + unfold _prepareReadPackets. rewrite Htruthy, Hitems. simpl. auto.
Qed.

End GroupLife.

(** [readAllItems_needs_pduSize] before the first connection, for a group
    with a translation callback and an item, and after a connection with a
    pdu size of 240, for a group without items. *)
Lemma readAllItems_needs_pduSize_witness :
  let w0 := constructor S7Endpoint._initParams Fixture.default_opts in
  let w1 := with_group w0
              (snd (setTranslationCB (CbFunction (fun _ => "DB1,BYTE0"%string)) (group w0))) in
  let w2 := with_group w1
              (snd (addItems Fixture.S7Item_new (ArgOne (TagString "valve")) (group w1))) in
  (_items (group w2) <> []
   /\ outcome (example_readAllItems (Fixture.plc 255) 5 w2)
      = Throw (NodeS7Error ERR_ILLEGAL_STATE None)
   /\ issued (example_readAllItems (Fixture.plc 255) 5 w2) = [])
  /\ (outcome (example_readAllItems (Fixture.plc 255) 5 (_onConnectionConnected (Some 240) w0))
      = Ok empty
      /\ issued (example_readAllItems (Fixture.plc 255) 5 (_onConnectionConnected (Some 240) w0))
         = []).
Proof.
  intros w0 w1 w2. split; [split; [discriminate|]|].
  - apply (readAllItems_needs_pduSize Fixture.Value Fixture.S7Item_new
             Fixture._getCopyBufferOffsets Fixture.getWriteBuffer Fixture._copyFromBuffer
             Fixture.updated_value w2 (Fixture.plc 255) 0 5%nat).
    + apply reach_addItems. apply reach_setTranslationCB. apply reach_constructor.
    + reflexivity.
    + reflexivity.
  - apply (readAllItems_needs_pduSize Fixture.Value Fixture.S7Item_new
             Fixture._getCopyBufferOffsets Fixture.getWriteBuffer Fixture._copyFromBuffer
             Fixture.updated_value _ (Fixture.plc 255) 0 5%nat).
    + apply reach_connected. apply reach_constructor.
    + reflexivity.
    + reflexivity.
    + reflexivity.
Defined.

(** ** addItems, removeItems and the pdu-size event *)

Lemma addItems_Ok_invalidates S7Item_new tags g g' :
  addItems S7Item_new tags g = (Ok tt, g') -> _readPackets g' = None.
Proof.
  unfold addItems. destruct (addItems_loop S7Item_new g _) as [[[]|e|] g1];
    intros [= <-]; reflexivity.
Qed.

Lemma removeItems_invalidates tags g : _readPackets (removeItems tags g) = None.
Proof. reflexivity. Qed.

Lemma pdu_size_event_invalidates connPduSize w :
  listening w = true ->
  loose_neq (S7Endpoint._pduSize (endpoint w)) connPduSize = true ->
  _readPackets (group (_onConnectionConnected connPduSize w)) = None.
Proof. intros Hl Hneq. unfold _onConnectionConnected. rewrite Hl, Hneq. reflexivity. Qed.

(** With no cached plan, [readAllItems] plans the items and the pdu size
    that the group and the endpoint have at that moment. *)
Lemma readAllItems_rebuilds Value getoff copy updated conn hrtime fuel w :
  _endpoint (group w) = true -> _readPackets (group w) = None ->
  _readPackets (group (after (readAllItems Value getoff copy updated conn hrtime fuel w)))
  = _readPackets (snd (_prepareReadPackets getoff fuel (S7Endpoint.pduSize (endpoint w))
                         (group w))).
Proof.
  intros Hep Hnone. unfold readAllItems. rewrite Hep, Hnone. simpl.
  destruct (_prepareReadPackets getoff fuel _ _) as [[[]|e|] g1]; simpl; try reflexivity.
  destruct (_readPackets g1) as [plan|] eqn:Hplan; simpl; [|now rewrite Hplan].
  destruct (List.length plan =? 0)%nat; simpl; [now rewrite Hplan|].
  destruct (promise_all _); simpl; [|now rewrite Hplan].
  destruct (parse_packets _ _ _ _) as [[[]|e|] m]; simpl; now rewrite Hplan.
Qed.

(** C9 at the failing input: a group on a connected endpoint has read
    once and holds the (empty) plan of its empty item map.  A call of
    [addItems] with the tag DB1,BYTE0 followed by a tag whose address does
    not parse stores the first item, throws [ERR_PARSE_ADDR] and leaves the
    cached plan in place; the next [readAllItems] then uses that plan,
    issues no request and returns nothing for the stored item. *)
Theorem addItems_throw_keeps_stale_plan :
  let w0 := _onConnectionConnected (Some 240)
              (constructor S7Endpoint._initParams Fixture.default_opts) in
  let w1 := after (example_readAllItems (Fixture.plc 255) 5 w0) in
  let added := addItems Fixture.S7Item_new
                 (ArgArray [TagString "DB1,BYTE0"; TagString "no address"]) (group w1) in
  let w2 := with_group w1 (snd added) in
  _readPackets (group w1) = Some []
  /\ fst added = Throw (NodeS7Error ERR_PARSE_ADDR None)
  /\ _items (snd added) = [("DB1,BYTE0"%string, Fixture.DB1_BYTE0)]
  /\ _readPackets (snd added) = Some []
  /\ outcome (example_readAllItems (Fixture.plc 255) 5 w2) = Ok empty
  /\ issued (example_readAllItems (Fixture.plc 255) 5 w2) = [].
Proof. repeat split; vm_compute; reflexivity. Qed.

(** The same with an element that is neither a string nor an item: the
    item before it is stored, [ERR_INVALID_ARGUMENT] is thrown, and the
    cached plan stays. *)
Lemma addItems_invalid_argument_keeps_plan (g : S7ItemGroup) (plan : Plan) :
  _readPackets g = Some plan ->
  let added := addItems Fixture.S7Item_new
                 (ArgArray [TagItem Fixture.DB1_BYTE0; TagOther]) g in
  fst added = Throw (NodeS7Error ERR_INVALID_ARGUMENT None)
  /\ ItemMap.get "DB1,BYTE0" (_items (snd added)) = Some Fixture.DB1_BYTE0
  /\ _readPackets (snd added) = Some plan.
Proof.
  intros Hplan. simpl. repeat split; [|assumption].
  induction (_items g) as [|[k v] m IH]; simpl; [reflexivity|].
  destruct (String.eqb_spec k "DB1,BYTE0") as [->|Hne]; simpl.
  - reflexivity.
  - apply String.eqb_neq in Hne. now rewrite Hne.
Qed.

(** The other way to a plan that is not whole: the planner puts MB406
    into the last part of M0,BYTE410, which starts at byte 408, finds no
    offsets for it, throws, and leaves behind the packets built so far, the
    last part with two items and one copy descriptor. *)
Lemma prepareReadPackets_throw_leaves_partial_plan :
  exists g' first second last_part,
    _prepareReadPackets Fixture._getCopyBufferOffsets 5 (Some 240)
      (Fixture.group_of [Fixture.M0_BYTE410; Fixture.MB406])
    = (Throw (Error "Couldn't calculate offsets for item. Please report as a bug"), g')
    /\ _readPackets g' = Some [first; second; [last_part]]
    /\ Part.address last_part = 408 /\ Part.length last_part = 2
    /\ Part.items last_part = [Fixture.M0_BYTE410; Fixture.MB406]
    /\ List.length (Part.offsets last_part) = 1%nat.
Proof.
  eexists _, _, _, _. split; [vm_compute; reflexivity|].
  repeat split; reflexivity.
Qed.

(** ** writeItems *)

Section WriteItems.
Variable Value : Type.
Variable S7Item_new : string -> string -> option S7Item.
Variable getWriteBuffer : S7Item -> Value -> Buffer.

Local Abbreviation request_length := (request_length Value).
Local Abbreviation pair_request := (pair_request Value getWriteBuffer).
Local Abbreviation packet_length := (packet_length Value).
Local Abbreviation no_overflow := (no_overflow Value).
Local Abbreviation opened_on_overflow := (opened_on_overflow Value).
Local Abbreviation packed := (packed Value).
Local Abbreviation stands_for := (stands_for Value getWriteBuffer).

Variable g : S7ItemGroup.
Variable maxPayloadSize : Z.

Local Abbreviation well_packed := (well_packed Value maxPayloadSize).

Lemma packet_length_app l1 l2 : packet_length (l1 ++ l2) = packet_length l1 + packet_length l2.
Proof. unfold packet_length. now rewrite map_app, sumZ_app. Qed.

Lemma packet_length_snoc l x : packet_length (l ++ [x]) = packet_length l + request_length x.
Proof. rewrite packet_length_app. unfold packet_length, sumZ. simpl. lia. Qed.

Lemma no_overflow_singleton x : request_length x <= maxPayloadSize -> no_overflow maxPayloadSize [x].
Proof.
  intros Hx [|y pre] z post; simpl.
  - intros [= <- <-]. unfold packet_length, sumZ. simpl. lia.
  - intros [= _ H]. now destruct pre.
Qed.

Lemma no_overflow_snoc grp x :
  no_overflow maxPayloadSize grp -> packet_length grp + request_length x <= maxPayloadSize ->
  no_overflow maxPayloadSize (grp ++ [x]).
Proof.
  intros Hgrp Hx pre y post Heq.
  destruct post as [|z post _] using rev_ind.
  - apply app_inj_tail in Heq as [-> <-]. assumption.
  - change (pre ++ y :: post ++ [z]) with (pre ++ (y :: post) ++ [z]) in Heq.
    rewrite app_assoc in Heq. apply app_inj_tail in Heq as [-> _].
    eapply Hgrp. reflexivity.
Qed.

Lemma write_step_ok st closed current tag value item :
  stands_for st closed current -> well_packed closed current ->
  item_of_tag S7Item_new g tag = Some item ->
  request_length (item, value) <= maxPayloadSize ->
  exists st' closed' current',
    write_step Value S7Item_new getWriteBuffer g maxPayloadSize st (TagString tag) value
    = Ok st'
    /\ stands_for st' closed' current' /\ well_packed closed' current'
    /\ concat (closed' ++ [current']) = concat (closed ++ [current]) ++ [(item, value)]
    /\ current' <> [].
Proof.
  intros (Hp & Hi & Hl) (Hne & Hfit & Hadj & Hcur) Hitem Hsize.
  unfold write_step. rewrite Hitem.
  unfold request_length in Hsize. simpl in Hsize.
  rewrite Z.gtb_ltb, (proj2 (Z.ltb_ge _ _)) by lia.
  rewrite Z.gtb_ltb.
  destruct (Z.ltb_spec maxPayloadSize
              (curRequestLength st + (overheadPerItem + byteLengthWithFill item)))
    as [Hover|Hroom].
  - (* a new packet *)
    assert (Hcne : current <> []).
    { intros ->. unfold packet_length, sumZ in Hl. simpl in Hl. lia. }
    eexists _, (closed ++ [current]), [(item, value)].
    split; [reflexivity|]. split; [|split; [|split]].
    + repeat split; simpl.
      * now rewrite Hp, Hi, map_app.
      * unfold packet_length, sumZ, request_length. simpl. lia.
    + split; [|split; [|split]].
      * apply Forall_app. split; [assumption | now repeat constructor].
      * apply Forall_app. split; [assumption|]. repeat constructor.
        apply no_overflow_singleton. unfold request_length. simpl. lia.
      * apply adjacent_snoc; [assumption|]. intros a Ha. rewrite last_snoc in Ha.
        injection Ha as <-. exists (item, value), []. split; [reflexivity|].
        unfold request_length. simpl. lia.
      * discriminate.
    + rewrite !concat_app. simpl. now rewrite !app_nil_r.
    + discriminate.
  - (* the same packet *)
    eexists _, closed, (current ++ [(item, value)]).
    split; [reflexivity|]. split; [|split; [|split]].
    + repeat split; simpl.
      * assumption.
      * now rewrite Hi, map_app.
      * rewrite Hl, packet_length_snoc. unfold request_length. simpl. lia.
    + apply Forall_app in Hfit as [Hfit1 Hfit2]. apply Forall_cons in Hfit2 as [Hfit2 _].
      split; [assumption|]. split; [|split].
      * apply Forall_app. split; [assumption|]. repeat constructor.
        apply no_overflow_snoc; [assumption|]. unfold request_length. simpl. lia.
      * eapply adjacent_change_last; [exact Hadj|].
        intros a (x & rest & -> & Hx). exists x, (rest ++ [(item, value)]). auto.
      * intros H. now destruct current.
    + rewrite !concat_app. simpl. now rewrite !app_nil_r, app_assoc.
    + now destruct current.
Qed.

Lemma write_loop_ok tags : forall values items st closed current,
  stands_for st closed current -> well_packed closed current ->
  Forall2 (fun tag item => item_of_tag S7Item_new g tag = Some item) tags items ->
  List.length values = List.length tags ->
  Forall (fun x => request_length x <= maxPayloadSize) (combine items values) ->
  exists st' closed' current',
    write_loop Value S7Item_new getWriteBuffer g maxPayloadSize st (map TagString tags) values
    = Ok st'
    /\ stands_for st' closed' current' /\ well_packed closed' current'
    /\ concat (closed' ++ [current']) = concat (closed ++ [current]) ++ combine items values
    /\ (tags <> [] -> current' <> []).
Proof.
  induction tags as [|tag tags IH]; intros values items st closed current Hst Hwp Hres Hlen Hfit.
  - apply Forall2_nil_inv_l in Hres as ->. destruct values; [|discriminate].
    exists st, closed, current. simpl. rewrite app_nil_r.
    split; [reflexivity|]. split; [assumption|]. split; [assumption|].
    split; [reflexivity|]. intros H. exfalso. now apply H.
  - apply Forall2_cons_inv_l in Hres as (item & items' & Hitem & Hres & ->).
    destruct values as [|value values]; [discriminate|].
    simpl in Hfit. apply Forall_cons in Hfit as [Hx Hfit].
    destruct (write_step_ok st closed current tag value item Hst Hwp Hitem Hx)
      as (st1 & closed1 & current1 & Hstep & Hst1 & Hwp1 & Hcat1 & Hne1).
    cbn [map write_loop]. rewrite Hstep.
    destruct (IH values items' st1 closed1 current1 Hst1 Hwp1 Hres) as
      (st' & closed' & current' & Hloop & Hst' & Hwp' & Hcat' & Hne');
      [simpl in Hlen; lia | assumption |].
    exists st', closed', current'. split; [assumption|]. split; [assumption|].
    split; [assumption|]. split.
    + rewrite Hcat', Hcat1, <- app_assoc. reflexivity.
    + intros _. destruct tags as [|tag' tags'].
      * apply Forall2_nil_inv_l in Hres as ->. destruct values; [|discriminate].
        simpl in Hloop. injection Hloop as <-.
        destruct Hst' as (_ & E1 & _), Hst1 as (_ & E2 & _).
        rewrite E2 in E1. intros ->. destruct current1; [congruence | discriminate].
      * apply Hne'. discriminate.
Qed.

Lemma write_loop_too_big tags : forall values items st,
  Forall2 (fun tag item => item_of_tag S7Item_new g tag = Some item) tags items ->
  List.length values = List.length tags ->
  Exists (fun x => request_length x > maxPayloadSize) (combine items values) ->
  exists tag,
    write_loop Value S7Item_new getWriteBuffer g maxPayloadSize st (map TagString tags) values
    = Throw (NodeS7Error ERR_ITEM_TOO_BIG (Some (InfoTag tag))).
Proof.
  induction tags as [|tag tags IH]; intros values items st Hres Hlen Hbig.
  - apply Forall2_nil_inv_l in Hres as ->. simpl in Hbig. now apply Exists_nil in Hbig.
  - apply Forall2_cons_inv_l in Hres as (item & items' & Hitem & Hres & ->).
    destruct values as [|value values]; [discriminate|].
    simpl. unfold write_step. rewrite Hitem.
    rewrite Z.gtb_ltb.
    destruct (Z.ltb_spec maxPayloadSize (overheadPerItem + byteLengthWithFill item)) as [Hhd|Hhd].
    + eauto.
    + simpl in Hbig. apply Exists_cons in Hbig as [Hbig|Hbig].
      * unfold request_length in Hbig. simpl in Hbig. lia.
      * apply (IH values items'); [assumption | simpl in Hlen; lia | assumption].
Qed.

End WriteItems.

Lemma fits_or_too_big {A} (size : A -> Z) (bound : Z) (l : list A) :
  Forall (fun x => size x <= bound) l \/ Exists (fun x => size x > bound) l.
Proof.
  induction l as [|x l [IH|IH]].
  - left. constructor.
  - destruct (Z.le_gt_cases (size x) bound).
    + left. now constructor.
    + right. apply Exists_cons. left. lia.
  - right. apply Exists_cons. now right.
Qed.

(** C5: on a connected endpoint, for string tags with one value each that
    all have an item (in the group or by parsing), [writeItems] throws
    [ERR_ITEM_TOO_BIG] without issuing any request exactly when the size
    16 + byteLengthWithFill of some item exceeds pduSize - 12; otherwise the
    packets it issues hold the request parts of the items in order, each
    item in one packet, and a new packet starts exactly at the items whose
    size added to the accumulated length of the current packet would exceed
    pduSize - 12. *)
Theorem writeItems_packing
  (Value : Type) (S7Item_new : string -> string -> option S7Item)
  (getWriteBuffer : S7Item -> Value -> Buffer) (conn : Connection) (hrtime : Z)
  (w : World) (tags : list string) (values : list Value) (items : list S7Item)
  (Hendpoint : _endpoint (group w) = true)
  (Hconnected : S7Endpoint.isConnected (endpoint w) = true)
  (Hvalues : List.length values = List.length tags)
  (Hitems : Forall2 (fun tag item => item_of_tag S7Item_new (group w) tag = Some item)
              tags items) :
  let maxPayloadSize := S7Endpoint.to_number (S7Endpoint.pduSize (endpoint w)) - 12 in
  let r := writeItems Value S7Item_new getWriteBuffer conn hrtime
             (ArgArray (map TagString tags)) (ValArray Value values) w in
  ((exists tag, outcome r = Throw (NodeS7Error ERR_ITEM_TOO_BIG (Some (InfoTag tag)))
                /\ issued r = [])
   <-> Exists (fun x => 16 + byteLengthWithFill (fst x) > maxPayloadSize)
              (combine items values))
  /\ (Forall (fun x => 16 + byteLengthWithFill (fst x) <= maxPayloadSize)
             (combine items values) ->
      exists grps,
        issued r = map (map (pair_request Value getWriteBuffer)) grps
        /\ packed Value maxPayloadSize (combine items values) grps).
Proof.
  intros maxPayloadSize r.
  assert (Hrun : r = match tags with
                     | [] => mkRun (Ok tt) w []
                     | _ :: _ =>
                         match write_packets Value S7Item_new getWriteBuffer (group w)
                                 (S7Endpoint.pduSize (endpoint w)) (map TagString tags) values
                         with
                         | Throw e => mkRun (Throw e) w []
                         | Diverge => mkRun Diverge w []
                         | Ok reqPackets =>
                             match promise_all
                                     (S7Endpoint.issue (S7Endpoint.writeVars conn (endpoint w))
                                        0%nat reqPackets) with
                             | Rejected e => mkRun (Throw e) w reqPackets
                             | Resolved responses =>
                                 mkRun (check_write_responses (concat responses))
                                   (with_group w (with_lastRequestTime (group w) (Some hrtime)))
                                   reqPackets
                             end
                         end
                     end).
  { unfold r, writeItems. rewrite Hendpoint, Hconnected, length_map, Hvalues, Nat.eqb_refl.
    simpl. destruct tags; reflexivity. }
  destruct tags as [|tag0 tags0].
  { apply Forall2_nil_inv_l in Hitems as ->. simpl. rewrite Hrun. simpl. split.
    - split; [intros (tag & H & _); discriminate | intros H; now apply Exists_nil in H].
    - intros _. exists []. split; [reflexivity|].
      split; [reflexivity|]. split; [constructor|]. split; [constructor | apply adjacent_nil]. }
  set (tags := tag0 :: tags0) in *.
  assert (Hfit : Forall (fun x => request_length Value x <= maxPayloadSize)
                   (combine items values) ->
                 exists grps,
                   write_packets Value S7Item_new getWriteBuffer (group w)
                     (S7Endpoint.pduSize (endpoint w)) (map TagString tags) values
                   = Ok (map (map (pair_request Value getWriteBuffer)) grps)
                   /\ packed Value maxPayloadSize (combine items values) grps
                   /\ grps <> []).
  { intros Hall.
    destruct (write_loop_ok Value S7Item_new getWriteBuffer (group w) maxPayloadSize
                tags values items (mkWriteState [] [] 0) [] [])
      as (st' & closed & current & Hloop & (Hp & Hi & _) & (Hne & Hno & Hadj & _) & Hcat & Hcur);
      try assumption.
    - repeat split.
    - repeat split; try constructor; try apply adjacent_nil.
      + intros [|x pre] y post; discriminate.
      + constructor.
      + intros [|x [|y l1]] a b l2; discriminate.
    - exists (closed ++ [current]). unfold write_packets. fold maxPayloadSize.
      rewrite Hloop, Hp, Hi, map_app. split; [reflexivity|]. split.
      + split; [exact Hcat|]. split; [|split; assumption].
        apply Forall_app. split; [assumption|]. repeat constructor.
        apply Hcur. discriminate.
      + now destruct closed. }
  rewrite Hrun. split.
  - split.
    + intros (tag & Hthrow & Hnone).
      destruct (fits_or_too_big (request_length Value) maxPayloadSize (combine items values))
        as [Hall|Hbig]; [|exact Hbig].
      exfalso. destruct (Hfit Hall) as (grps & Hpk & _ & Hgrps).
      rewrite Hpk in Hnone. destruct (promise_all _); simpl in Hnone;
        now destruct grps.
    + intros Hbig.
      destruct (write_loop_too_big Value S7Item_new getWriteBuffer (group w) maxPayloadSize
                  tags values items (mkWriteState [] [] 0) Hitems Hvalues Hbig) as [tag Hloop].
      exists tag. unfold write_packets. fold maxPayloadSize. rewrite Hloop. auto.
  - intros Hall. destruct (Hfit Hall) as (grps & Hpk & Hpacked & _).
    exists grps. rewrite Hpk. split; [|assumption].
    destruct (promise_all _); reflexivity.
Qed.

(** [writeItems_packing] for two one-byte items that are not in the group,
    at a pdu size of 45: each item is charged 17 bytes and the payload is
    33, so each item gets a packet of its own. *)
Lemma writeItems_packing_witness :
  let r := example_writeItems (Fixture.plc 255)
             (ArgArray [TagString "DB1,BYTE0"; TagString "DB1,BYTE3"])
             (ValArray Buffer [[x01]; [x02]]) (example_world 45 []) in
  (~ exists tag, outcome r = Throw (NodeS7Error ERR_ITEM_TOO_BIG (Some (InfoTag tag)))
                 /\ issued r = [])
  /\ exists grps,
       issued r = map (map (pair_request Fixture.Value Fixture.getWriteBuffer)) grps
       /\ packed Fixture.Value (45 - 12)
            [(Fixture.DB1_BYTE0, [x01]); (Fixture.DB1_BYTE3, [x02])] grps.
Proof.
  destruct (writeItems_packing Fixture.Value Fixture.S7Item_new Fixture.getWriteBuffer
              (Fixture.plc 255) 0 (example_world 45 [])
              ["DB1,BYTE0"%string; "DB1,BYTE3"%string] [[x01]; [x02]]
              [Fixture.DB1_BYTE0; Fixture.DB1_BYTE3]
              eq_refl eq_refl eq_refl
              ltac:(repeat constructor)) as [Hthrow Hpack].
  split.
  - intros H. apply Hthrow in H. simpl in H.
    repeat (apply Exists_cons in H as [H|H]; [simpl in H; lia|]).
    now apply Exists_nil in H.
  - apply Hpack. simpl. repeat constructor; simpl; lia.
Defined.

(** ** writeItems leaves the item map and the cached plan alone *)

(** C10: whatever its arguments, [writeItems] leaves the item map of the
    group and its cached read plan as they were; and a call with a tag that
    is not in the item map, on a connected endpoint, builds an item for the
    tag, issues the write request of that item, and resolves when the PLC
    accepts it: the write needs no prior [addItems]. *)
Theorem writeItems_temporary_item
  (Value : Type) (S7Item_new : string -> string -> option S7Item)
  (getWriteBuffer : S7Item -> Value -> Buffer) (conn : Connection) (hrtime : Z) :
  (forall (tags : TagsArg) (values : ValuesArg Value) (w : World),
     _items (group (after (writeItems Value S7Item_new getWriteBuffer conn hrtime
                             tags values w))) = _items (group w)
     /\ _readPackets (group (after (writeItems Value S7Item_new getWriteBuffer conn hrtime
                                      tags values w))) = _readPackets (group w))
  /\ (forall (w : World) (tag : string) (value : Value) (item : S7Item),
        _endpoint (group w) = true ->
        S7Endpoint.isConnected (endpoint w) = true ->
        ItemMap.get tag (_items (group w)) = None ->
        S7Item_new tag (_translationCallback (group w) tag) = Some item ->
        16 + byteLengthWithFill item
        <= S7Endpoint.to_number (S7Endpoint.pduSize (endpoint w)) - 12 ->
        issued (writeItems Value S7Item_new getWriteBuffer conn hrtime
                  (ArgOne (TagString tag)) (ValOne Value value) w)
        = [[write_request item (getWriteBuffer item value)]]
        /\ (S7Endpoint.writeVars conn (endpoint w) 0%nat
              [write_request item (getWriteBuffer item value)]
            = Resolved [mkWriteRes constants.retval.DATA_OK] ->
            outcome (writeItems Value S7Item_new getWriteBuffer conn hrtime
                       (ArgOne (TagString tag)) (ValOne Value value) w) = Ok tt)).
Proof.
  split.
  - intros tags values w.
    destruct (writeItems_frame Value S7Item_new getWriteBuffer conn hrtime tags values w)
      as (_ & _ & _ & Hitems & Hplan & _). auto.
  - intros w tag value item Hendpoint Hconnected Hget Hnew Hsize.
    unfold writeItems. rewrite Hendpoint, Hconnected. simpl.
    unfold write_packets. simpl. unfold write_step, item_of_tag. rewrite Hget, Hnew.
    rewrite Z.gtb_ltb, (proj2 (Z.ltb_ge _ _)) by (unfold overheadPerItem; lia).
    rewrite Z.gtb_ltb, (proj2 (Z.ltb_ge _ _)) by (unfold overheadPerItem; simpl; lia).
    simpl.
    destruct (S7Endpoint.writeVars conn (endpoint w) 0 _) as [res|e] eqn:Hsend; simpl.
    + split; [reflexivity|]. intros [= ->]. reflexivity.
    + split; [reflexivity|]. discriminate.
Qed.

(** [writeItems_temporary_item] for a write of DB1,BYTE0 through a group
    that holds DB1,BYTE3 only. *)
Lemma writeItems_temporary_item_witness :
  let w := example_world 240 [Fixture.DB1_BYTE3] in
  let r := example_writeItems (Fixture.plc 255) (ArgOne (TagString "DB1,BYTE0"))
             (ValOne Buffer [x2a]) w in
  _items (group (after r)) = _items (group w)
  /\ _readPackets (group (after r)) = _readPackets (group w)
  /\ issued r = [[write_request Fixture.DB1_BYTE0 [x2a]]]
  /\ outcome r = Ok tt.
Proof.
  destruct (writeItems_temporary_item Fixture.Value Fixture.S7Item_new
              Fixture.getWriteBuffer (Fixture.plc 255) 0) as [Hframe Htemp].
  destruct (Hframe (ArgOne (TagString "DB1,BYTE0")) (ValOne Buffer [x2a])
              (example_world 240 [Fixture.DB1_BYTE3])) as [Hitems Hplan].
  destruct (Htemp (example_world 240 [Fixture.DB1_BYTE3]) "DB1,BYTE0"%string [x2a]
              Fixture.DB1_BYTE0 eq_refl eq_refl eq_refl eq_refl ltac:(simpl; lia))
    as [Hissued Hok].
  split; [exact Hitems|]. split; [exact Hplan|]. split; [exact Hissued|].
  apply Hok. reflexivity.
Defined.

(** ** When the packing loop ends *)

Section PlannerTermination.
Variable skip : bool.
Variable gap : Z.
Variable maxPayloadSize : Z.
Hypothesis room : 18 < maxPayloadSize.

Local Abbreviation while_item := (Planner.while_item skip gap maxPayloadSize).
Local Abbreviation place_items := (Planner.place_items skip gap maxPayloadSize).

(** More fuel does not change the result of a loop that ended. *)
Lemma while_item_more_fuel fuel : forall st item v st' fuel',
  while_item fuel st item v = Some st' -> (fuel <= fuel')%nat ->
  while_item fuel' st item v = Some st'.
Proof.
  induction fuel as [|fuel IH]; intros st item v st' fuel'; simpl; [discriminate|].
  intros Hrun Hle. destruct fuel' as [|fuel']; [lia|]. simpl.
  destruct (Planner.round skip gap maxPayloadSize st item v) as [st1 v1].
  destruct (Planner.itemComplete v1); [assumption|].
  apply (IH _ _ _ _ _ Hrun). lia.
Qed.

(** After [packet] was set to [null], every round opens a packet and takes
    [maxPayloadSize - 18] bytes of the item, so the loop ends. *)
Lemma while_item_fresh_ends (k : nat) : forall st item len off,
  Planner.packet st = false -> len <= Z.of_nat k ->
  exists st', while_item (S k) st item (Planner.mkVars false len off) = Some st'.
Proof.
  induction k as [|k IH]; intros st item len off Hpk Hlen.
  - simpl. unfold Planner.round, Planner.choose_branch, Planner.current_part.
    rewrite Hpk. simpl.
    unfold Planner.resHeaderSize, Planner.resPartSize.
    rewrite (proj2 (Z.leb_le (14 + 4 + len) maxPayloadSize)) by lia. simpl. eauto.
  - cbn [Planner.while_item].
    unfold Planner.round, Planner.choose_branch, Planner.current_part.
    rewrite Hpk. cbn [andb].
    unfold Planner.resHeaderSize, Planner.resPartSize.
    cbn [Planner.itemLength Planner.itemOffset].
    destruct (Z.leb_spec (14 + 4 + len) maxPayloadSize) as [Hfit|Hsplit].
    + cbn [Planner.itemComplete]. eauto.
    + cbn [Planner.itemComplete]. apply IH; [reflexivity | lia].
Qed.

Lemma while_item_ends st item v :
  exists fuel st', while_item fuel st item v = Some st'.
Proof.
  destruct (Planner.round skip gap maxPayloadSize st item v) as [st1 v1] eqn:Hround.
  destruct (Planner.itemComplete v1) eqn:Hdone.
  - exists 1%nat, st1. simpl. now rewrite Hround, Hdone.
  - destruct (while_item_fresh_ends (Z.to_nat (Planner.itemLength v1))
                (Planner.forget_packet st1) item (Planner.itemLength v1)
                (Planner.itemOffset v1) eq_refl ltac:(lia)) as [st' Hrun].
    exists (S (S (Z.to_nat (Planner.itemLength v1)))), st'.
    cbn [Planner.while_item]. rewrite Hround, Hdone.
    destruct v1 as [c l o]. simpl in *. subst c. exact Hrun.
Qed.

(** The packing loop ends on every list of items once the payload is
    larger than 18, and a larger fuel gives the same state. *)
Lemma place_items_ends items : forall st,
  exists fuel st', forall fuel', (fuel <= fuel')%nat ->
    place_items fuel' st items = Some st'.
Proof.
  induction items as [|item items IH]; intros st.
  - exists 0%nat, st. reflexivity.
  - destruct (while_item_ends st item
                (Planner.mkVars false (byteLength item) (offset item))) as (f1 & st1 & H1).
    set (st1' := Planner.mkState (Planner.packets st1) (Planner.packet st1)
                   (Planner.part st1) (Planner.pktReqLength st1)
                   (Planner.pktResLength st1) (Some item)).
    destruct (IH st1') as (f2 & st2 & H2).
    exists (Nat.max f1 f2), st2. intros fuel' Hle. simpl.
    unfold Planner.place_item.
    rewrite (while_item_more_fuel _ _ _ _ _ fuel' H1) by lia.
    apply H2. lia.
Qed.

End PlannerTermination.

(** X4: whenever the pdu size is larger than 36, [_prepareReadPackets]
    returns or throws: from some fuel on the loop never runs out of fuel,
    and more fuel does not change the result. *)
Lemma prepareReadPackets_ends getoff n g :
  36 < n ->
  exists fuel, forall fuel', (fuel <= fuel')%nat ->
    fst (_prepareReadPackets getoff fuel' (Some n) g) <> Diverge
    /\ _prepareReadPackets getoff fuel' (Some n) g = _prepareReadPackets getoff fuel (Some n) g.
Proof.
  intros Hn.
  destruct (place_items_ends (_skipOptimization g) (_optimizationGap g) (n - 18)
              ltac:(lia) (array_sort itemListSorter (ItemMap.values (_items g))) Planner.init)
    as (fuel & st & Hrun).
  exists fuel. intros fuel' Hle. unfold _prepareReadPackets.
  destruct (negb (truthy (Some n))); [split; [discriminate | reflexivity]|].
  destruct (_ =? _)%nat; [split; [discriminate | reflexivity]|].
  simpl S7Endpoint.to_number. rewrite (Hrun fuel' Hle), (Hrun fuel (Nat.le_refl _)).
  destruct (Planner.packet_offsets _ _) as [plan [|]]; split; try discriminate; reflexivity.
Qed.

(** With a pdu size of 36 the loop of the planner makes no progress on
    an item of one byte. *)
Lemma prepareReadPackets_pdu36_diverges fuel :
  fst (_prepareReadPackets Fixture._getCopyBufferOffsets fuel (Some 36)
         (Fixture.group_of [Fixture.DB1_BYTE0])) = Diverge.
Proof.
  unfold _prepareReadPackets. simpl.
  assert (H : forall st, Planner.packet st = false ->
            Planner.while_item false 5 18 fuel st Fixture.DB1_BYTE0
              (Planner.mkVars false 1 0) = None).
  { induction fuel as [|fuel IH]; intros st Hpk; simpl; [reflexivity|].
    unfold Planner.round, Planner.choose_branch, Planner.current_part. rewrite Hpk. simpl.
    apply IH. reflexivity. }
  unfold Planner.place_item. rewrite H by reflexivity. reflexivity.
Qed.

(** ** The shape of a stored plan *)

Lemma uniform_new_part item off len : uniform_part (Planner.new_part item off len).
Proof. split; simpl; [discriminate|]. repeat constructor. Qed.

Section PlannerShape.
Variable skip : bool.
Variable gap : Z.
Variable maxPayloadSize : Z.

Lemma round_shaped st item v st' v' :
  shaped st -> ends_with st (Planner.lastItem st) \/ Planner.current_part st = None ->
  Planner.round skip gap maxPayloadSize st item v = (st', v') ->
  shaped st' /\ forall x, holds (Planner.packets st') x <-> holds (Planner.packets st) x \/ x = item.
Proof.
  intros [Hopen Hsh] Hend. unfold Planner.round.
  destruct (Planner.choose_branch skip gap maxPayloadSize st item _ _) as [p| |] eqn:Hb.
  - apply choose_branch_SamePart in Hb as (Hp & Hopt & _).
    apply _isOptimizable_true in Hopt as (_ & a & Hlast & (Harea & _ & Hdb & _)).
    destruct Hend as [Hend|Hnone]; [|congruence].
    specialize (Hend p Hp). rewrite Hlast in Hend.
    destruct (current_part_Some _ _ Hp) as (Hpk & Hpt & ps & rest & Hpkts).
    rewrite Hpkts in Hsh.
    apply Forall_cons in Hsh as [[_ Hsh1] Hsh]. apply Forall_cons in Hsh1 as [[Hne Hun] Hsh1].
    apply last_Some in Hend as [l' Hl'].
    assert (Ha : areaCode a = Part.area p /\ dbNumber a = Part.db p).
    { rewrite Hl' in Hun. apply Forall_app in Hun as [_ Hun].
      now apply Forall_cons in Hun as [Hun _]. }
    assert (Hnew : forall n, uniform_part (Part.push_item item (Part.add_length n p))).
    { intros n. split; simpl.
      - destruct (Part.items p); discriminate.
      - apply Forall_app. split; [assumption|]. repeat constructor; simpl; intuition congruence. }
    assert (Hholds : forall n x,
              holds ((Part.push_item item (Part.add_length n p) :: ps) :: rest) x
              <-> holds ((p :: ps) :: rest) x \/ x = item).
    { intros n x. split.
      - intros (pk & q & [<-|Hpk'] & Hq & Hx).
        + destruct Hq as [<-|Hq].
          * simpl in Hx. apply in_app_iff in Hx as [Hx | [<- | [] ] ]; [|now right].
            left. exists (p :: ps), p. simpl. auto.
          * left. exists (p :: ps), q. simpl. auto.
        + left. exists pk, q. simpl. auto.
      - intros [(pk & q & [<-|Hpk'] & Hq & Hx) | ->].
        + destruct Hq as [<-|Hq].
          * eexists _, _. split; [left; reflexivity|]. split; [left; reflexivity|].
            simpl. apply in_app_iff. now left.
          * eexists _, q. split; [left; reflexivity|]. split; [now right | assumption].
        + exists pk, q. simpl. auto.
        + eexists _, _. split; [left; reflexivity|]. split; [left; reflexivity|].
          simpl. apply in_app_iff. right. now left. }
    destruct (_ <=? _); intros [= <- <-]; unfold shaped; simpl; rewrite Hpkts; simpl;
      (split; [split; [discriminate|];
               repeat (apply Forall_cons; split); try assumption; try (split; [discriminate|]);
               repeat (apply Forall_cons; split); try assumption; apply Hnew
              | apply Hholds]).
  - apply choose_branch_NewPart in Hb as (Hpk & _).
    specialize (Hopen Hpk). destruct (Planner.packets st) as [|pk rest] eqn:Hpkts; [congruence|].
    apply Forall_cons in Hsh as [[Hne Hun] Hsh].
    assert (Hholds : forall off len x,
              holds ((Planner.new_part item off len :: pk) :: rest) x
              <-> holds (pk :: rest) x \/ x = item).
    { intros off len x. split.
      - intros (pk' & q & [<-|Hpk'] & Hq & Hx).
        + destruct Hq as [<-|Hq].
          * simpl in Hx. destruct Hx as [<- | [] ]. now right.
          * left. exists pk, q. simpl. auto.
        + left. exists pk', q. simpl. auto.
      - intros [(pk' & q & [<-|Hpk'] & Hq & Hx) | ->].
        + eexists _, q. split; [left; reflexivity|]. split; [now right | assumption].
        + exists pk', q. simpl. auto.
        + eexists _, _. split; [left; reflexivity|]. split; [left; reflexivity|].
          simpl. now left. }
    destruct (_ <=? _); intros [= <- <-]; unfold shaped; simpl;
      (split; [split; [discriminate|];
               apply Forall_cons; split; [|assumption]; split; [discriminate|];
               apply Forall_cons; split; [apply uniform_new_part | assumption]
              | apply Hholds]).
  - assert (Hholds : forall off len x,
              holds ([Planner.new_part item off len] :: Planner.packets st) x
              <-> holds (Planner.packets st) x \/ x = item).
    { intros off len x. split.
      - intros (pk' & q & [<-|Hpk'] & Hq & Hx).
        + destruct Hq as [<- | [] ]. simpl in Hx. destruct Hx as [<- | [] ]. now right.
        + left. exists pk', q. auto.
      - intros [(pk' & q & Hpk' & Hq & Hx) | ->].
        + exists pk', q. simpl. auto.
        + eexists _, _. split; [left; reflexivity|]. split; [left; reflexivity|].
          simpl. now left. }
    destruct (_ <=? _); intros [= <- <-]; unfold shaped; simpl;
      (split; [split; [discriminate|];
               apply Forall_cons; split; [|assumption]; split; [discriminate|];
               apply Forall_cons; split; [apply uniform_new_part | constructor]
              | apply Hholds]).
Qed.

Lemma while_item_shaped fuel : forall st item v st',
  shaped st -> chained gap st ->
  ends_with st (Planner.lastItem st) \/ Planner.current_part st = None ->
  Planner.while_item skip gap maxPayloadSize fuel st item v = Some st' ->
  shaped st' /\ forall x, holds (Planner.packets st') x <-> holds (Planner.packets st) x \/ x = item.
Proof.
  induction fuel as [|fuel IH]; intros st item v st' Hsh Hch Hend; simpl; [discriminate|].
  destruct (Planner.round skip gap maxPayloadSize st item v) as [st1 v1] eqn:Hr.
  destruct (round_shaped _ _ _ _ _ Hsh Hend Hr) as [Hsh1 Hholds1].
  apply (round_chained _ _ _ _ _ _ _ _ Hch Hend) in Hr as (Hch1 & _ & _).
  destruct (Planner.itemComplete v1).
  - intros [= <-]. auto.
  - intros Hrun. apply IH in Hrun as [Hsh' Hholds'].
    + split; [assumption|]. intros x. rewrite Hholds'. simpl. rewrite Hholds1. tauto.
    + destruct Hsh1 as [_ Hsh1]. split; [discriminate | exact Hsh1].
    + exact Hch1.
    + right. reflexivity.
Qed.

Lemma place_items_shaped fuel items : forall st st',
  shaped st -> chained gap st ->
  ends_with st (Planner.lastItem st) \/ Planner.current_part st = None ->
  Planner.place_items skip gap maxPayloadSize fuel st items = Some st' ->
  shaped st'
  /\ forall x, holds (Planner.packets st') x <-> holds (Planner.packets st) x \/ In x items.
Proof.
  induction items as [|item items IH]; intros st st' Hsh Hch Hend; simpl.
  - intros [= <-]. split; [assumption|]. tauto.
  - unfold Planner.place_item.
    destruct (Planner.while_item _ _ _ _ _ _ _) as [st1|] eqn:Hw; [|discriminate].
    destruct (while_item_shaped _ _ _ _ _ Hsh Hch Hend Hw) as [Hsh1 Hholds1].
    apply (while_item_chained _ _ _ _ _ _ _ _ Hch Hend) in Hw as [Hch1 Hend1].
    intros Hrun. apply IH in Hrun as [Hsh' Hholds'].
    + split; [assumption|]. intros x. rewrite Hholds'. simpl. rewrite Hholds1.
      intuition congruence.
    + exact Hsh1.
    + exact Hch1.
    + left. exact Hend1.
Qed.

End PlannerShape.

Lemma init_shaped : shaped Planner.init.
Proof. split; [discriminate | constructor]. Qed.

Lemma Forall2_in_left {A B} (R : A -> B -> Prop) (l : list A) (l' : list B) (x : A) :
  Forall2 R l l' -> In x l -> exists y, In y l' /\ R x y.
Proof.
  induction 1 as [|x' y l l' Hxy _ IH]; simpl; [tauto|].
  intros [<-|Hin]; [eauto|]. destruct (IH Hin) as (y0 & ? & ?). eauto.
Qed.

(** What the stored plan has to do with the packets of the final loop
    state: same packets and parts, up to the copy descriptors. *)
Lemma stored_plan_parts getoff pkts plan ok :
  Planner.packet_offsets getoff (Planner.plan_of pkts) = (plan, ok) ->
  (forall pkt, In pkt plan -> exists pk, In pk pkts /\ Forall2 same_part (rev pk) pkt)
  /\ (forall pk, In pk pkts -> exists pkt, In pkt plan /\ Forall2 same_part (rev pk) pkt).
Proof.
  intros Hoff. apply packet_offsets_same in Hoff. split.
  - intros pkt Hin. apply (Forall2_in_right _ _ _ _ Hoff) in Hin as (pkt0 & Hin0 & Hsame).
    unfold Planner.plan_of in Hin0. apply in_rev, in_map_iff in Hin0 as (q & <- & Hq). eauto.
  - intros pk Hin. apply (Forall2_in_left _ (Planner.plan_of pkts) plan (rev pk)) in Hoff.
    + destruct Hoff as (pkt & ? & ?). eauto.
    + unfold Planner.plan_of. apply in_rev. rewrite rev_involutive. now apply in_map.
Qed.

(** X1: in a plan that [_prepareReadPackets] stores, no packet is empty, no
    part is without items, and every item of a part lies in the area and in
    the data block that the part requests. *)
Theorem plan_parts_are_uniform
  (getoff : S7Item -> Z -> Z -> option CopyOffsets) (fuel : nat) (n : Z)
  (g g' : S7ItemGroup) (plan : Plan) (pkt : Packet)
  (Hrun : _prepareReadPackets getoff fuel (Some n) g = (Ok tt, g'))
  (Hplan : _readPackets g' = Some plan)
  (Hin : In pkt plan) :
  pkt <> [] /\ Forall uniform_part pkt.
Proof.
  apply prepareReadPackets_Ok in Hrun as [[_ Hnil]|(st & plan' & Hplace & Hoff & Hst)].
  - rewrite Hnil in Hplan. injection Hplan as <-. destruct Hin.
  - rewrite Hst in Hplan. injection Hplan as ->.
    apply place_items_shaped in Hplace as [[_ Hsh] _];
      [|apply init_shaped|constructor|right; reflexivity].
    apply stored_plan_parts in Hoff as [Hoff _].
    destruct (Hoff pkt Hin) as (pk & Hpk & Hsame).
    rewrite Forall_forall in Hsh. apply list_elem_of_In, Hsh in Hpk as [Hne Hun].
    split.
    + intros ->. inversion Hsame as [Hrev|]. apply Hne.
      destruct pk as [|q pk]; [reflexivity|]. simpl in Hrev.
      symmetry in Hrev. apply app_eq_nil in Hrev as [_ Hrev]. discriminate.
    + apply Forall_rev in Hun. clear -Hsame Hun.
      induction Hsame as [|p p' l l' [os ->] _ IH]; [constructor|].
      apply Forall_cons in Hun as [Hp Hl]. constructor; [exact Hp | auto].
Qed.

(** [plan_parts_are_uniform] at the two bytes of DB1 that share a part. *)
Lemma plan_parts_are_uniform_witness :
  exists g' plan pkt,
    _prepareReadPackets Fixture._getCopyBufferOffsets 5 (Some 240)
      (Fixture.group_of [Fixture.DB1_BYTE0; Fixture.DB1_BYTE3]) = (Ok tt, g')
    /\ _readPackets g' = Some plan
    /\ In pkt plan
    /\ (pkt <> [] /\ Forall uniform_part pkt).
Proof.
  eexists _, _, _.
  split; [vm_compute; reflexivity|].
  split; [reflexivity|].
  split; [left; reflexivity|].
  eapply (plan_parts_are_uniform Fixture._getCopyBufferOffsets 5 240
            (Fixture.group_of [Fixture.DB1_BYTE0; Fixture.DB1_BYTE3]));
    [vm_compute; reflexivity | reflexivity | left; reflexivity].
Defined.


(** X2: the items that the parts of a stored plan list are exactly the items
    of the group: every item of the group is in some part, and no part
    lists anything else. *)
Theorem plan_holds_the_items_of_the_group
  (getoff : S7Item -> Z -> Z -> option CopyOffsets) (fuel : nat) (n : Z)
  (g g' : S7ItemGroup) (plan : Plan) (item : S7Item)
  (Hrun : _prepareReadPackets getoff fuel (Some n) g = (Ok tt, g'))
  (Hplan : _readPackets g' = Some plan) :
  In item (ItemMap.values (_items g)) <-> holds plan item.
Proof.
  apply prepareReadPackets_Ok in Hrun as [[Hv Hnil]|(st & plan' & Hplace & Hoff & Hst)].
  - rewrite Hnil in Hplan. injection Hplan as <-. rewrite Hv. split; [intros []|].
    intros (pk & _ & [] & _).
  - rewrite Hst in Hplan. injection Hplan as ->.
    apply place_items_shaped in Hplace as [_ Hholds];
      [|apply init_shaped|constructor|right; reflexivity].
    apply stored_plan_parts in Hoff as [Hoff1 Hoff2].
    assert (Hsort : In item (ItemMap.values (_items g))
                    <-> In item (array_sort itemListSorter (ItemMap.values (_items g)))).
    { split; apply Permutation_in; [symmetry|]; apply array_sort_perm. }
    rewrite Hsort.
    assert (Hinit : ~ holds (Planner.packets Planner.init) item).
    { intros (pk & _ & [] & _). }
    transitivity (holds (Planner.packets st) item); [rewrite Hholds; tauto|].
    split.
    + intros (pk & p & Hpk & Hp & Hx). destruct (Hoff2 pk Hpk) as (pkt & Hpkt & Hsame).
      apply in_rev in Hp. apply (Forall2_in_left _ _ _ _ Hsame) in Hp as (p' & Hp' & os & ->).
      exists pkt, (Part.set_offsets os p). auto.
    + intros (pkt & p' & Hpkt & Hp' & Hx). destruct (Hoff1 pkt Hpkt) as (pk & Hpk & Hsame).
      apply (Forall2_in_right _ _ _ _ Hsame) in Hp' as (p & Hp & os & ->).
      apply in_rev in Hp. exists pk, p. auto.
Qed.

(** [plan_holds_the_items_of_the_group] at the two bytes of DB1: the
    second one is in the plan. *)
Lemma plan_holds_the_items_of_the_group_witness :
  exists g' plan,
    _prepareReadPackets Fixture._getCopyBufferOffsets 5 (Some 240)
      (Fixture.group_of [Fixture.DB1_BYTE0; Fixture.DB1_BYTE3]) = (Ok tt, g')
    /\ _readPackets g' = Some plan
    /\ holds plan Fixture.DB1_BYTE3.
Proof.
  eexists _, _.
  split; [vm_compute; reflexivity|].
  split; [reflexivity|].
  eapply (plan_holds_the_items_of_the_group Fixture._getCopyBufferOffsets 5 240
            (Fixture.group_of [Fixture.DB1_BYTE0; Fixture.DB1_BYTE3]));
    [vm_compute; reflexivity | reflexivity | right; left; reflexivity].
Defined.


(** ** Items that share no part *)

Lemma flat_new_packet p pkts : flat ([p] :: pkts) = flat pkts ++ [p].
Proof. unfold flat, Planner.plan_of. simpl. rewrite concat_app. simpl. reflexivity. Qed.

Lemma flat_push_part p pkts : pkts <> [] -> flat (Planner.push_part p pkts) = flat pkts ++ [p].
Proof.
  destruct pkts as [|pk rest]; [congruence|]. intros _.
  unfold flat, Planner.plan_of. simpl. rewrite !concat_app. simpl.
  rewrite !app_nil_r. now rewrite app_assoc.
Qed.

Lemma tiles_app it a ps b qs c : tiles it a ps b -> tiles it b qs c -> tiles it a (ps ++ qs) c.
Proof.
  revert a. induction ps as [|p ps IH]; simpl; intros a.
  - now intros ->.
  - intros (H1 & H2 & H3 & H4) Hq. auto.
Qed.

Section PlannerTiles.
Variable skip : bool.
Variable gap : Z.
Variable maxPayloadSize : Z.
Hypothesis gap_pos : 0 < gap.
Hypothesis room : 18 < maxPayloadSize.

Lemma round_separate st item v st' v' :
  opened st -> Planner._isOptimizable skip gap (Planner.lastItem st) item = false ->
  0 < Planner.itemLength v ->
  Planner.round skip gap maxPayloadSize st item v = (st', v') ->
  exists p,
    flat (Planner.packets st') = flat (Planner.packets st) ++ [p]
    /\ Part.items p = [item] /\ Part.address p = Planner.itemOffset v /\ 0 < Part.length p
    /\ Planner.lastItem st' = Planner.lastItem st /\ opened st'
    /\ if Planner.itemComplete v' then Part.length p = Planner.itemLength v
       else Planner.itemLength v' = Planner.itemLength v - Part.length p
            /\ Planner.itemOffset v' = Planner.itemOffset v + Part.length p
            /\ 0 < Planner.itemLength v'.
Proof.
  intros Hopen Hsep Hlen. unfold Planner.round.
  destruct (Planner.choose_branch skip gap maxPayloadSize st item _ _) as [p| |] eqn:Hb.
  - apply choose_branch_SamePart in Hb as (_ & Hopt & _). congruence.
  - apply choose_branch_NewPart in Hb as (Hpk & _ & Hmin).
    unfold Planner.resPartSize in *.
    destruct (Z.leb_spec (Planner.pktResLength st + 4 + Planner.itemLength v) maxPayloadSize);
      intros [= <- <-]; eexists; simpl;
      (split; [apply flat_push_part; exact (Hopen Hpk)|]); unfold opened; simpl;
      repeat split; try reflexivity; try lia;
      try (intros _; pose proof (Hopen Hpk); destruct (Planner.packets st);
           [congruence | discriminate]).
  - unfold Planner.resPartSize, Planner.resHeaderSize in *.
    destruct (Z.leb_spec (14 + 4 + Planner.itemLength v) maxPayloadSize);
      intros [= <- <-]; eexists; simpl;
      (split; [apply flat_new_packet|]); unfold opened; simpl;
      repeat split; try reflexivity; try lia; discriminate.
Qed.

Lemma while_item_separate fuel : forall st item v st',
  opened st -> Planner._isOptimizable skip gap (Planner.lastItem st) item = false ->
  0 < Planner.itemLength v ->
  Planner.while_item skip gap maxPayloadSize fuel st item v = Some st' ->
  exists ps,
    flat (Planner.packets st') = flat (Planner.packets st) ++ ps
    /\ tiles item (Planner.itemOffset v) ps (Planner.itemOffset v + Planner.itemLength v)
    /\ opened st' /\ Planner.lastItem st' = Planner.lastItem st.
Proof.
  induction fuel as [|fuel IH]; intros st item v st' Hopen Hsep Hlen; simpl; [discriminate|].
  destruct (Planner.round skip gap maxPayloadSize st item v) as [st1 v1] eqn:Hr.
  apply (round_separate _ _ _ _ _ Hopen Hsep Hlen) in Hr
    as (p & Hflat & Hitems & Haddr & Hpos & Hlast & Hopen1 & Hv).
  destruct (Planner.itemComplete v1).
  - intros [= <-]. exists [p]. simpl. repeat split; try assumption. lia.
  - destruct Hv as (Hl1 & Ho1 & Hpos1). intros Hrun.
    apply IH in Hrun as (ps & Hflat' & Htiles & Hopen' & Hlast'); simpl.
    + exists (p :: ps). simpl in *. rewrite Hflat', Hflat, <- app_assoc. simpl.
      repeat split; try assumption; try congruence.
      rewrite Ho1, Hl1 in Htiles.
      replace (Planner.itemOffset v + Part.length p + (Planner.itemLength v - Part.length p))
        with (Planner.itemOffset v + Planner.itemLength v) in Htiles by lia.
      exact Htiles.
    + discriminate.
    + simpl. congruence.
    + exact Hpos1.
Qed.

Lemma place_items_separate fuel items : forall st st',
  opened st -> separate skip gap (Planner.lastItem st) items ->
  Forall (fun it => 0 < byteLength it) items ->
  Planner.place_items skip gap maxPayloadSize fuel st items = Some st' ->
  exists pieces,
    flat (Planner.packets st') = flat (Planner.packets st) ++ concat pieces
    /\ Forall2 (fun it ps => tiles it (offset it) ps (offset it + byteLength it)) items pieces.
Proof.
  induction items as [|item items IH]; intros st st' Hopen Hsep Hlen; simpl.
  - intros [= <-]. exists []. simpl. rewrite app_nil_r. split; [reflexivity | constructor].
  - destruct Hsep as [Hsep1 Hsep]. apply Forall_cons in Hlen as [Hlen1 Hlen].
    unfold Planner.place_item.
    destruct (Planner.while_item _ _ _ _ _ _ _) as [st1|] eqn:Hw; [|discriminate].
    apply while_item_separate in Hw as (ps & Hflat & Htiles & Hopen1 & Hlast1);
      [|assumption..].
    intros Hrun. apply IH in Hrun as (pieces & Hflat' & Hall); try assumption.
    exists (ps :: pieces). simpl in *. rewrite Hflat', Hflat, <- app_assoc.
    split; [reflexivity|]. constructor; assumption.
Qed.

End PlannerTiles.

Lemma adjacent_separate skip gap items : forall prev,
  (forall x rest, items = x :: rest -> Planner._isOptimizable skip gap prev x = false) ->
  adjacent (fun a b => Planner._isOptimizable skip gap (Some a) b = false) items ->
  separate skip gap prev items.
Proof.
  induction items as [|x items IH]; intros prev Hhd Hadj; simpl; [exact I|].
  split; [now apply (Hhd x items)|]. apply IH.
  - intros y rest ->. now apply (Hadj [] x y rest).
  - intros l1 a b l2 ->. now apply (Hadj (x :: l1) a b l2).
Qed.

Lemma Forall2_same_part_concat (plan plan' : Plan) :
  Forall2 (Forall2 same_part) plan plan' -> Forall2 same_part (concat plan) (concat plan').
Proof. induction 1; simpl; [constructor|]. now apply Forall2_app. Qed.

Lemma Forall2_concat_split {A B} (R : A -> B -> Prop) (ls : list (list A)) : forall l',
  Forall2 R (concat ls) l' -> exists ls', l' = concat ls' /\ Forall2 (Forall2 R) ls ls'.
Proof.
  induction ls as [|l ls IH]; simpl; intros l' H.
  - inversion H. exists []. split; [reflexivity | constructor].
  - apply Forall2_app_inv_l in H as (k1 & k2 & H1 & H2 & ->).
    destruct (IH _ H2) as (ls' & -> & Hall). exists (k1 :: ls'). split; [reflexivity|].
    now constructor.
Qed.

Lemma tiles_same_part it ps : forall a e ps',
  tiles it a ps e -> Forall2 same_part ps ps' -> tiles it a ps' e.
Proof.
  induction ps as [|p ps IH]; intros a e ps' Ht Hsame; inversion Hsame; subst; simpl in *.
  - assumption.
  - destruct Ht as (Ht1 & Ht2 & Ht3 & Ht4).
    match goal with H : same_part p _ |- _ => destruct H as [os ->] end. simpl.
    repeat split; try assumption. eapply IH; eassumption.
Qed.

(** X3: with an optimization gap above 0 and a pdu size above 36, when no
    item (of at least one byte) is optimizable with the one sorted right
    before it, as it is with [skipOptimization], every item gets parts of
    its own, in the sorted order of the items, that read its bytes from
    [offset] to [offset + byteLength] one after the other, without a gap
    and without a byte more. *)
Theorem separate_items_are_tiled
  (getoff : S7Item -> Z -> Z -> option CopyOffsets) (fuel : nat) (n : Z)
  (g g' : S7ItemGroup) (plan : Plan)
  (Hgap : 0 < _optimizationGap g)
  (Hn : 36 < n)
  (Hlen : Forall (fun it => 0 < byteLength it) (ItemMap.values (_items g)))
  (Hsep : adjacent (fun a b => Planner._isOptimizable (_skipOptimization g)
                                 (_optimizationGap g) (Some a) b = false)
            (array_sort itemListSorter (ItemMap.values (_items g))))
  (Hrun : _prepareReadPackets getoff fuel (Some n) g = (Ok tt, g'))
  (Hplan : _readPackets g' = Some plan) :
  exists pieces,
    concat plan = concat pieces
    /\ Forall2 (fun it ps => tiles it (offset it) ps (offset it + byteLength it))
         (array_sort itemListSorter (ItemMap.values (_items g))) pieces.
Proof.
  apply prepareReadPackets_Ok in Hrun as [[Hv Hnil]|(st & plan' & Hplace & Hoff & Hst)].
  - rewrite Hnil in Hplan. injection Hplan as <-. rewrite Hv. exists [].
    split; [reflexivity | constructor].
  - rewrite Hst in Hplan. injection Hplan as ->.
    apply place_items_separate in Hplace as (pieces & Hflat & Hall).
    + apply packet_offsets_same, Forall2_same_part_concat in Hoff.
      fold (flat (Planner.packets st)) in Hoff. rewrite Hflat in Hoff. simpl in Hoff.
      apply Forall2_concat_split in Hoff as (pieces' & -> & Hsame).
      exists pieces'. split; [reflexivity|].
      clear -Hall Hsame. revert pieces' Hsame.
      induction Hall as [|it ps items pieces Ht _ IH]; intros pieces' Hsame;
        inversion Hsame; subst; constructor.
      * eapply tiles_same_part; eassumption.
      * now apply IH.
    + assumption.
    + lia.
    + discriminate.
    + apply adjacent_separate; [|assumption].
      intros x rest _. unfold Planner._isOptimizable. now destruct (_skipOptimization g).
    + apply Forall_forall. intros it Hin. rewrite Forall_forall in Hlen. apply Hlen.
      apply list_elem_of_In. apply list_elem_of_In in Hin.
      eapply Permutation_in; [apply array_sort_perm | exact Hin].
Qed.

(** [separate_items_are_tiled] at a byte of DB1 and 500 bytes of flags,
    which lie in different areas: the 500 bytes are read in three parts,
    the byte in one. *)
Lemma separate_items_are_tiled_witness :
  exists g' plan pieces,
    _prepareReadPackets Fixture._getCopyBufferOffsets 5 (Some 240)
      (Fixture.group_of [Fixture.DB1_BYTE0; Fixture.M0_BYTE500]) = (Ok tt, g')
    /\ _readPackets g' = Some plan
    /\ concat plan = concat pieces
    /\ Forall2 (fun it ps => tiles it (offset it) ps (offset it + byteLength it))
         [Fixture.M0_BYTE500; Fixture.DB1_BYTE0] pieces.
Proof.
  destruct (separate_items_are_tiled Fixture._getCopyBufferOffsets 5 240
              (Fixture.group_of [Fixture.DB1_BYTE0; Fixture.M0_BYTE500])
              (snd (_prepareReadPackets Fixture._getCopyBufferOffsets 5 (Some 240)
                      (Fixture.group_of [Fixture.DB1_BYTE0; Fixture.M0_BYTE500])))
              (default [] (_readPackets
                 (snd (_prepareReadPackets Fixture._getCopyBufferOffsets 5 (Some 240)
                         (Fixture.group_of [Fixture.DB1_BYTE0; Fixture.M0_BYTE500]))))))
    as (pieces & Hcat & Htiles).
  - simpl. lia.
  - lia.
  - repeat constructor.
  - intros [|x [|y l1]] a b l2 Heq; vm_compute in Heq.
    + injection Heq as <- <- _. reflexivity.
    + injection Heq as _ _ Heq. discriminate.
    + injection Heq as _ _ Heq. destruct l1; discriminate.
  - vm_compute. reflexivity.
  - vm_compute. reflexivity.
  - eexists _, _, pieces. split; [vm_compute; reflexivity|].
    split; [reflexivity|]. split; [exact Hcat | exact Htiles].
Defined.


(** ** The items of a group: addItems, removeItems, setTranslationCB *)

Lemma get_set_eq k v m : ItemMap.get k (ItemMap.set k v m) = Some v.
Proof.
  induction m as [|[k' v'] m IH]; simpl; [now rewrite String.eqb_refl|].
  destruct (String.eqb k' k) eqn:E; simpl; rewrite E; [reflexivity | exact IH].
Qed.

Lemma get_set_ne k k' v m : k <> k' -> ItemMap.get k' (ItemMap.set k v m) = ItemMap.get k' m.
Proof.
  intros Hne. induction m as [|[k0 v0] m IH]; simpl.
  - apply String.eqb_neq in Hne. now rewrite Hne.
  - destruct (String.eqb k0 k) eqn:E; simpl.
    + apply String.eqb_eq in E. subst k0. apply String.eqb_neq in Hne. now rewrite Hne.
    + now rewrite IH.
Qed.

Lemma get_None_keys k m : ItemMap.get k m = None <-> ~ In k (keys m).
Proof.
  induction m as [|[k0 v0] m IH]; simpl; [tauto|].
  destruct (String.eqb_spec k0 k) as [->|Hne].
  - split; [discriminate | tauto].
  - rewrite IH. tauto.
Qed.

Lemma keys_set k v m :
  (In k (keys m) /\ keys (ItemMap.set k v m) = keys m)
  \/ (~ In k (keys m) /\ keys (ItemMap.set k v m) = keys m ++ [k]).
Proof.
  induction m as [|[k0 v0] m IH]; simpl; [right; tauto|].
  destruct (String.eqb_spec k0 k) as [->|Hne]; simpl; [left; tauto|].
  destruct IH as [[Hin ->]|[Hnin ->]]; [left; tauto | right].
  split; [tauto | reflexivity].
Qed.

Lemma NoDup_keys_set k v m : NoDup (keys m) -> NoDup (keys (ItemMap.set k v m)).
Proof.
  intros H. destruct (keys_set k v m) as [[_ ->]|[Hn ->]]; [assumption|].
  apply NoDup_app. split; [assumption|]. split; [|apply NoDup_singleton].
  intros x Hx [->|[]]%list_elem_of_In. apply Hn. now apply list_elem_of_In.
Qed.

Lemma keys_delete_subset k m x : In x (keys (ItemMap.delete k m)) -> In x (keys m).
Proof.
  induction m as [|[k0 v0] m IH]; simpl; [tauto|].
  destruct (String.eqb k0 k); simpl; tauto.
Qed.

Lemma NoDup_keys_delete k m : NoDup (keys m) -> NoDup (keys (ItemMap.delete k m)).
Proof.
  induction m as [|[k0 v0] m IH]; simpl; [auto|].
  intros [Hnin Hnd]%NoDup_cons. destruct (String.eqb k0 k); simpl; [assumption|].
  apply NoDup_cons. split; [|auto].
  intros Hin%list_elem_of_In. apply Hnin, list_elem_of_In. eapply keys_delete_subset, Hin.
Qed.

Lemma get_delete_eq k m : NoDup (keys m) -> ItemMap.get k (ItemMap.delete k m) = None.
Proof.
  induction m as [|[k0 v0] m IH]; simpl; [reflexivity|].
  intros [Hnin Hnd]%NoDup_cons. destruct (String.eqb_spec k0 k) as [->|Hne]; simpl.
  - apply get_None_keys. intros Hin. apply Hnin. now apply list_elem_of_In.
  - apply String.eqb_neq in Hne. rewrite Hne. auto.
Qed.

Lemma get_delete_ne k k' m : k <> k' -> ItemMap.get k' (ItemMap.delete k m) = ItemMap.get k' m.
Proof.
  intros Hne. induction m as [|[k0 v0] m IH]; simpl; [reflexivity|].
  destruct (String.eqb_spec k0 k) as [->|Hne0]; simpl.
  - apply String.eqb_neq in Hne. now rewrite Hne.
  - now rewrite IH.
Qed.

Lemma keys_update k f m : keys (ItemMap.update k f m) = keys m.
Proof.
  induction m as [|[k0 v0] m IH]; simpl; [reflexivity|].
  destruct (String.eqb k0 k); simpl; [reflexivity | now rewrite IH].
Qed.

Lemma fold_delete_lookup l : forall m k,
  NoDup (keys m) ->
  NoDup (keys (fold_left delete_tag l m))
  /\ (In (TagString k) l -> ItemMap.get k (fold_left delete_tag l m) = None)
  /\ (~ In (TagString k) l -> ItemMap.get k (fold_left delete_tag l m) = ItemMap.get k m).
Proof.
  induction l as [|t l IH]; intros m k Hnd; simpl; [tauto|].
  assert (Hnd' : NoDup (keys (delete_tag m t))).
  { destruct t; simpl; try assumption. now apply NoDup_keys_delete. }
  destruct (IH (delete_tag m t) k Hnd') as (H1 & H2 & H3).
  split; [assumption|]. split.
  - intros [->|Hin].
    + assert (Hgone : ItemMap.get k (delete_tag m (TagString k)) = None)
        by now apply get_delete_eq.
      clear -Hgone Hnd'. revert Hgone Hnd'. generalize (delete_tag m (TagString k)).
      induction l as [|t l IHl]; simpl; intros m' Hgone Hnd'; [assumption|].
      apply IHl.
      * destruct t as [|s|]; simpl; try assumption.
        destruct (String.eqb_spec s k) as [->|Hne]; [now apply get_delete_eq|].
        now rewrite get_delete_ne.
      * destruct t; simpl; try assumption. now apply NoDup_keys_delete.
    + auto.
  - intros Hnot. rewrite H3 by tauto.
    destruct t as [|s|]; simpl; try reflexivity.
    apply get_delete_ne. intros ->. apply Hnot. now left.
Qed.

(** X6: [removeItems] with [undefined], [null] or the empty string empties
    the group; otherwise, in a group with distinct keys, the string tags of
    the call are gone afterwards and every other key holds what it held
    before (an [S7Item] object as a tag removes nothing); either way the
    cached plan is dropped. *)
Theorem removeItems_lookup (g : S7ItemGroup) (tags : TagsArg) (k : string)
  (Hkeys : NoDup (keys (_items g))) :
  let g' := removeItems tags g in
  (falsy_tags tags = true -> _items g' = [])
  /\ (falsy_tags tags = false ->
      (In (TagString k) (tags_list tags) -> ItemMap.get k (_items g') = None)
      /\ (~ In (TagString k) (tags_list tags) ->
          ItemMap.get k (_items g') = ItemMap.get k (_items g)))
  /\ _readPackets g' = None.
Proof.
  unfold removeItems. simpl.
  split; [now intros ->|]. split; [|reflexivity].
  intros Hf. rewrite Hf. destruct tags as [|t|l]; simpl.
  - discriminate Hf.
  - destruct (fold_delete_lookup [t] (_items g) k Hkeys) as (_ & H2 & H3). auto.
  - destruct (fold_delete_lookup l (_items g) k Hkeys) as (_ & H2 & H3). auto.
Qed.

Section GroupItems.
Variable Value : Type.
Variable S7Item_new : string -> string -> option S7Item.
Variable _getCopyBufferOffsets : S7Item -> Z -> Z -> option CopyOffsets.
Variable getWriteBuffer : S7Item -> Value -> Buffer.
Variable _copyFromBuffer : S7Item -> Buffer -> option CopyOffsets -> Result unit * S7Item.
Variable updated_value : S7Item -> Value.

Local Abbreviation readAllItems' :=
  (readAllItems Value _getCopyBufferOffsets _copyFromBuffer updated_value).
Local Abbreviation writeItems' := (writeItems Value S7Item_new getWriteBuffer).
Local Abbreviation Later :=
  (Later Value S7Item_new _getCopyBufferOffsets getWriteBuffer _copyFromBuffer
     updated_value).
Local Abbreviation built := (built S7Item_new).

Lemma addItem_Ok g tag g' :
  addItem S7Item_new g tag = Ok g' ->
  exists k item, key_of tag = Some k /\ built g tag = Some item
                 /\ g' = with_items g (ItemMap.set k item (_items g)).
Proof.
  destruct tag as [item|s|]; simpl; [| |discriminate].
  - intros [= <-]. eauto.
  - destruct (S7Item_new s _) as [item|] eqn:Hnew; [|discriminate].
    intros [= <-]. eauto.
Qed.

Lemma addItems_loop_keys l : forall g r g',
  addItems_loop S7Item_new g l = (r, g') -> NoDup (keys (_items g)) -> NoDup (keys (_items g')).
Proof.
  induction l as [|tag l IH]; intros g r g'; simpl.
  - now intros [= <- <-].
  - destruct (addItem S7Item_new g tag) as [g1|e|] eqn:Hadd; try (now intros [= <- <-]).
    apply addItem_Ok in Hadd as (k & item & _ & _ & ->).
    intros Hloop Hnd. apply (IH _ _ _ Hloop). simpl. now apply NoDup_keys_set.
Qed.

Lemma addItems_loop_lookup l : forall g g',
  addItems_loop S7Item_new g l = (Ok tt, g') ->
  forall k,
    (exists tag item, In tag l /\ key_of tag = Some k /\ built g tag = Some item
                      /\ ItemMap.get k (_items g') = Some item)
    \/ ((forall tag, In tag l -> key_of tag <> Some k)
        /\ ItemMap.get k (_items g') = ItemMap.get k (_items g)).
Proof.
  induction l as [|tag l IH]; intros g g'; simpl.
  - intros [= <-] k. right. split; [tauto | reflexivity].
  - destruct (addItem S7Item_new g tag) as [g1|e|] eqn:Hadd; try discriminate.
    apply addItem_Ok in Hadd as (k0 & item0 & Hkey & Hbuilt & ->).
    intros Hloop k.
    destruct (IH _ _ Hloop k) as [(tag1 & item & Hin & Hk & Hb & Hget)|[Hno Hget]].
    + left. exists tag1, item. auto.
    + simpl in Hget. destruct (String.eqb_spec k0 k) as [->|Hne].
      * left. exists tag, item0. rewrite get_set_eq in Hget. auto.
      * right. rewrite get_set_ne in Hget by assumption. split; [|assumption].
        intros tag' [<-|Hin]; [congruence | auto].
Qed.

(** X5: after a call of [addItems] that returns, a key that some tag of
    the call stands for holds the item built for one of these tags (the
    item itself, or the one parsed from the translated address), and every
    other key holds what it held before. *)
Theorem addItems_lookup (tags : TagsArg) (g g' : S7ItemGroup) (k : string)
  (Hadd : addItems S7Item_new tags g = (Ok tt, g')) :
  ((exists tag, In tag (tags_list tags) /\ key_of tag = Some k) ->
   exists tag item, In tag (tags_list tags) /\ key_of tag = Some k
                    /\ built g tag = Some item
                    /\ ItemMap.get k (_items g') = Some item)
  /\ ((forall tag, In tag (tags_list tags) -> key_of tag <> Some k) ->
      ItemMap.get k (_items g') = ItemMap.get k (_items g)).
Proof.
  unfold addItems in Hadd.
  destruct (addItems_loop S7Item_new g _) as [[[]|e|] g1] eqn:Hloop; try discriminate.
  injection Hadd as <-. simpl.
  assert (Hl : (match tags with ArgMissing => [TagOther] | ArgOne t => [t] | ArgArray l => l end)
               = tags_list tags).
  { destruct tags; try reflexivity. simpl in Hloop. discriminate. }
  rewrite Hl in Hloop.
  destruct (addItems_loop_lookup _ _ _ Hloop k) as [Hyes|[Hno Hget]]; split.
  - intros _. exact Hyes.
  - intros Hno. destruct Hyes as (tag & _ & Hin & Hk & _). now apply Hno in Hin.
  - intros (tag & Hin & Hk). now apply Hno in Hin.
  - intros _. exact Hget.
Qed.

Lemma copy_items_keys its : forall offs resData m,
  keys (snd (copy_items _copyFromBuffer its offs resData m)) = keys m.
Proof.
  induction its as [|it its IH]; intros offs resData m; simpl; [reflexivity|].
  unfold copy_item. destruct (_copyFromBuffer _ _ _) as [r it'].
  destruct r as [[]|e|]; simpl; rewrite ?IH; apply keys_update.
Qed.

Lemma parse_parts_keys req : forall res m,
  keys (snd (parse_parts _copyFromBuffer req res m)) = keys m.
Proof.
  induction req as [|q req IH]; intros [|s res] m; simpl; try reflexivity.
  destruct (negb _); simpl; [reflexivity|].
  pose proof (copy_items_keys (Part.items q) (Part.offsets q) (data s) m) as Hc.
  destruct (copy_items _ _ _ _ _) as [[[]|e|] m1]; simpl in *; try assumption.
  now rewrite IH.
Qed.

Lemma parse_packets_keys plan : forall responses m,
  keys (snd (parse_packets _copyFromBuffer plan responses m)) = keys m.
Proof.
  induction plan as [|q plan IH]; intros [|r responses] m; simpl; try reflexivity.
  pose proof (parse_parts_keys q r m) as Hp.
  destruct (parse_parts _ _ _ _) as [[[]|e|] m1]; simpl in *; try assumption.
  now rewrite IH.
Qed.

Lemma readAllItems_keys conn hrtime fuel w :
  keys (_items (group (after (readAllItems' conn hrtime fuel w)))) = keys (_items (group w)).
Proof.
  unfold readAllItems. destruct (negb _); simpl; [reflexivity|].
  set (prep := match _readPackets (group w) with
               | Some _ => (Ok tt, group w)
               | None => _prepareReadPackets _getCopyBufferOffsets fuel
                           (S7Endpoint.pduSize (endpoint w)) (group w)
               end).
  assert (Hprep : _items (snd prep) = _items (group w)).
  { unfold prep. destruct (_readPackets (group w)); [reflexivity|].
    apply (prepare_frame _getCopyBufferOffsets fuel _ (group w)). }
  destruct prep as [prepared g1]. simpl in Hprep.
  destruct prepared as [[]|e|]; simpl; try (now rewrite Hprep).
  destruct (_readPackets g1) as [plan|]; simpl; [|now rewrite Hprep].
  destruct (List.length plan =? 0)%nat; simpl; [now rewrite Hprep|].
  destruct (promise_all _) as [responses|e]; simpl; [|now rewrite Hprep].
  pose proof (parse_packets_keys plan responses (_items g1)) as Hk.
  destruct (parse_packets _ _ _ _) as [[[]|e|] m]; simpl in *; now rewrite Hk, Hprep.
Qed.

(** The methods and the events keep the tags of a group pairwise
    distinct. *)
Lemma later_keys_unique w0 w :
  NoDup (keys (_items (group w0))) -> Later w0 w -> NoDup (keys (_items (group w))).
Proof.
  intros H0.
  induction 1 as [ | w tags _ IH | w tags _ IH | w func _ IH | w size _ IH | w s _ IH
                 | w conn hrtime fuel _ IH | w conn hrtime tags values _ IH | w _ IH].
  - exact H0.
  - simpl. unfold addItems.
    destruct (addItems_loop S7Item_new (group w) _) as [r g1] eqn:Hloop.
    apply addItems_loop_keys in Hloop; [|assumption]. now destruct r.
  - simpl. unfold removeItems. destruct (falsy_tags tags); simpl; [constructor|].
    destruct tags as [|t|l]; simpl; [constructor| |].
    + destruct t; simpl; try assumption. now apply NoDup_keys_delete.
    + revert IH. generalize (_items (group w)). induction l as [|t l IHl]; simpl; [auto|].
      intros m Hm. apply IHl. destruct t; simpl; try assumption. now apply NoDup_keys_delete.
  - simpl. now destruct func.
  - unfold _onConnectionConnected. simpl. now destruct (_ && _).
  - exact IH.
  - now rewrite readAllItems_keys.
  - destruct (writeItems_frame Value S7Item_new getWriteBuffer conn hrtime tags values w)
      as (_ & _ & _ & -> & _). exact IH.
  - unfold destroy_call. destruct (_endpoint (group w)); [constructor | exact IH].
Qed.

(** X22: after [setTranslationCB(func)], [addItems(tag)] parses the address
    that [func] gives for the tag (the tag itself after [null] or
    [undefined]) and stores the item under the tag; the other keys hold
    what they held, and [setTranslationCB] itself leaves the items and the
    cached plan as they are. *)
Theorem translation_applies_to_later_tags (func : CallbackArg) (tag : string)
  (g g1 g2 : S7ItemGroup)
  (Hset : setTranslationCB func g = (Ok tt, g1))
  (Hadd : addItems S7Item_new (ArgOne (TagString tag)) g1 = (Ok tt, g2)) :
  ItemMap.get tag (_items g2) = S7Item_new tag (translate func tag)
  /\ (forall k, k <> tag -> ItemMap.get k (_items g2) = ItemMap.get k (_items g))
  /\ _items g1 = _items g /\ _readPackets g1 = _readPackets g.
Proof.
  assert (Hg1 : _translationCallback g1 tag = translate func tag
                /\ _items g1 = _items g /\ _readPackets g1 = _readPackets g).
  { destruct func; simpl in Hset; try discriminate; injection Hset as <-; auto. }
  destruct Hg1 as (Hcb & Hitems & Hplan).
  unfold addItems in Hadd. simpl in Hadd. rewrite Hcb in Hadd.
  destruct (S7Item_new tag (translate func tag)) as [item|]; [|discriminate].
  injection Hadd as <-. simpl. rewrite Hitems.
  split; [apply get_set_eq|]. split; [|auto].
  intros k Hk. apply get_set_ne. congruence.
Qed.

Lemma fresh_plan_nil fuel pduSize g g' :
  _prepareReadPackets _getCopyBufferOffsets fuel pduSize g = (Ok tt, g') ->
  _readPackets g' = Some [] -> _items g = [].
Proof.
  intros Hrun Hplan. destruct pduSize as [n|]; [|discriminate Hrun].
  apply prepareReadPackets_Ok in Hrun as [[Hv _]|(st & plan & Hplace & Hoff & Hst)].
  - unfold ItemMap.values in Hv. now destruct (_items g).
  - rewrite Hst in Hplan. injection Hplan as ->.
    destruct (_items g) as [|[k x] m] eqn:Hm; [reflexivity|]. exfalso.
    apply place_items_shaped in Hplace as [_ Hholds];
      [|apply init_shaped|constructor|right; reflexivity].
    apply stored_plan_parts in Hoff as [_ Hoff].
    destruct (proj2 (Hholds x)) as (pk & _ & Hpk & _).
    { right. eapply Permutation_in; [symmetry; apply array_sort_perm|]. now left. }
    destruct (Hoff pk Hpk) as (pkt & [] & _).
Qed.

(** The own properties of the object filled from a map without a double
    key. *)
Lemma result_object_lookup (m : ItemMap.t) (k : string) :
  NoDup (keys m) ->
  result_object Value updated_value m !! k
  = if String.eqb k "__proto__" then None
    else option_map updated_value (ItemMap.get k m).
Proof.
  unfold result_object.
  assert (Hgen : forall acc : gmap string Value, NoDup (keys m) ->
            fold_left (fun result kv =>
                         object_set Value (fst kv) (updated_value (snd kv)) result) m acc !! k
            = if String.eqb k "__proto__" then acc !! k
              else match ItemMap.get k m with
                   | Some item => Some (updated_value item)
                   | None => acc !! k
                   end).
  { induction m as [|[k0 v0] m IH]; intros acc Hnd; simpl.
    - now destruct (String.eqb k "__proto__").
    - apply NoDup_cons in Hnd as [Hk0 Hnd]. rewrite (IH _ Hnd). unfold object_set.
      cbn [fst snd].
      destruct (String.eqb k "__proto__") eqn:Hk.
      + apply String.eqb_eq in Hk.
        destruct (String.eqb k0 "__proto__") eqn:Hk0'; [reflexivity|].
        apply String.eqb_neq in Hk0'. rewrite lookup_insert_ne; congruence.
      + cbn [ItemMap.get]. destruct (String.eqb k0 k) eqn:Hne.
        * apply String.eqb_eq in Hne. subst k0.
          assert (Hnot : ~ In k (keys m)).
          { intros Hin. apply Hk0. apply list_elem_of_In. exact Hin. }
          rewrite (proj2 (get_None_keys k m) Hnot), Hk. apply lookup_insert_eq.
        * apply String.eqb_neq in Hne.
          destruct (ItemMap.get k m); [reflexivity|].
          destruct (String.eqb k0 "__proto__"); [reflexivity|].
          now rewrite lookup_insert_ne. }
  intros Hnd. rewrite (Hgen empty Hnd), lookup_empty.
  destruct (String.eqb k "__proto__"); [reflexivity|]. now destruct (ItemMap.get k m).
Qed.

(** X7: on a group with pairwise distinct tags whose cached plan, if it is
    the empty one, is that of a group without items, the object that a
    call of [readAllItems] resolves to has no own property [__proto__];
    when [__proto__] is not among the tags, its own properties are exactly
    the tags of the group, each with the value of the stored item after
    the read; and the read leaves the tags of the group as they were. *)
Theorem readAllItems_returns_every_tag (conn : Connection) (hrtime : Z) (fuel : nat)
  (w : World) (result : gmap string Value)
  (Hkeys : NoDup (keys (_items (group w))))
  (Hplan : _readPackets (group w) = Some [] -> _items (group w) = [])
  (Hok : outcome (readAllItems' conn hrtime fuel w) = Ok result) :
  result !! "__proto__"%string = None
  /\ (~ In "__proto__"%string (keys (_items (group w))) ->
      forall k : string,
        result !! k
        = option_map updated_value
            (ItemMap.get k (_items (group (after (readAllItems' conn hrtime fuel w))))))
  /\ keys (_items (group (after (readAllItems' conn hrtime fuel w)))) = keys (_items (group w)).
Proof.
  pose proof (readAllItems_keys conn hrtime fuel w) as Hsame.
  cut (forall k : string,
         result !! k
         = if String.eqb k "__proto__" then None
           else option_map updated_value
                  (ItemMap.get k (_items (group (after (readAllItems' conn hrtime fuel w)))))).
  { intros Hall. split; [exact (Hall "__proto__"%string)|]. split; [|exact Hsame].
    intros Hno k. rewrite Hall. destruct (String.eqb_spec k "__proto__") as [Hk|_];
      [|reflexivity].
    subst k. rewrite <- Hsame in Hno. now rewrite (proj2 (get_None_keys _ _) Hno). }
  assert (Hres : result = result_object Value updated_value
                            (_items (group (after (readAllItems' conn hrtime fuel w))))).
  { revert Hok. unfold readAllItems. destruct (negb _); simpl; [discriminate|].
    assert (Hprep : forall prepared g1,
              match _readPackets (group w) with
              | Some _ => (Ok tt, group w)
              | None => _prepareReadPackets _getCopyBufferOffsets fuel
                          (S7Endpoint.pduSize (endpoint w)) (group w)
              end = (prepared, g1) ->
              _items g1 = _items (group w)
              /\ (prepared = Ok tt -> _readPackets g1 = Some [] -> _items (group w) = [])).
    { intros prepared g1. destruct (_readPackets (group w)) as [plan|] eqn:Hcached.
      - intros [= <- <-]. split; [reflexivity|]. intros _ Hnil. apply Hplan.
        now rewrite <- Hcached.
      - intros Hrun.
        pose proof (prepare_frame _getCopyBufferOffsets fuel
                      (S7Endpoint.pduSize (endpoint w)) (group w)) as (_ & Hitems & _).
        rewrite Hrun in Hitems. simpl in Hitems. split; [exact Hitems|].
        intros -> Hnil. now apply (fresh_plan_nil _ _ _ _ Hrun). }
    destruct (match _readPackets (group w) with Some _ => _ | None => _ end)
      as [prepared g1].
    destruct (Hprep prepared g1 eq_refl) as [Hitems Hnil].
    destruct prepared as [[]|e|]; simpl; try discriminate.
    destruct (_readPackets g1) as [plan|] eqn:Hp; simpl; [|discriminate].
    destruct (List.length plan =? 0)%nat eqn:Hlen; simpl.
    - apply Nat.eqb_eq, length_zero_iff_nil in Hlen. subst plan.
      intros [= <-]. rewrite Hitems, (Hnil eq_refl eq_refl). reflexivity.
    - destruct (promise_all _) as [responses|e]; simpl; [|discriminate].
      destruct (parse_packets _ _ _ _) as [[[]|e|] m]; simpl; try discriminate.
      now intros [= <-]. }
  intros k. rewrite Hres. apply result_object_lookup. now rewrite Hsame.
Qed.

(** X8: after [destroy()], whatever methods are called and whatever events
    arrive, the group stays without endpoint, listener and plan, and
    [readAllItems] and [writeItems] throw 'Already destroyed' without
    issuing a request. *)
Theorem destroyed_group_stays_destroyed (w0 w : World)
  (Hlater : Later (destroy w0) w) :
  _endpoint (group w) = false /\ listening w = false /\ _readPackets (group w) = None
  /\ (forall conn hrtime fuel,
        outcome (readAllItems' conn hrtime fuel w) = Throw (Error "Already destroyed")
        /\ issued (readAllItems' conn hrtime fuel w) = [])
  /\ (forall conn hrtime tags values,
        outcome (writeItems' conn hrtime tags values w) = Throw (Error "Already destroyed")
        /\ issued (writeItems' conn hrtime tags values w) = []).
Proof.
  assert (Hinv : _endpoint (group w) = false /\ listening w = false
                 /\ _readPackets (group w) = None).
  { induction Hlater as [ | w tags _ IH | w tags _ IH | w func _ IH | w size _ IH | w s _ IH
                         | w conn hrtime fuel _ IH | w conn hrtime tags values _ IH | w _ IH].
    - auto.
    - destruct IH as (I1 & I2 & I3).
      destruct (addItems_frame S7Item_new tags (group w)) as (F1 & F2 & _). simpl in *.
      rewrite F1. repeat split; try assumption. destruct F2 as [F2|F2]; congruence.
    - destruct IH as (I1 & I2 & I3). auto.
    - destruct IH as (I1 & I2 & I3). destruct func; simpl; auto.
    - destruct IH as (I1 & I2 & I3). unfold _onConnectionConnected. simpl.
      rewrite I2, andb_false_r. auto.
    - exact IH.
    - destruct IH as (I1 & I2 & I3). unfold readAllItems. rewrite I1. simpl. auto.
    - destruct IH as (I1 & I2 & I3). unfold writeItems. rewrite I1. simpl. auto.
    - unfold destroy_call. destruct (_endpoint (group w)) eqn:Hep; [simpl; auto|].
      simpl. now rewrite Hep. }
  destruct Hinv as (I1 & I2 & I3). repeat split; try assumption.
  - unfold readAllItems. now rewrite I1.
  - unfold readAllItems. now rewrite I1.
  - unfold writeItems. now rewrite I1.
  - unfold writeItems. now rewrite I1.
Qed.

End GroupItems.

(** [addItems_lookup] for a string tag and an item added to an empty
    group: the item is found under its name. *)
Lemma addItems_lookup_witness :
  exists tag item,
    In tag [TagString "DB1,BYTE0"; TagItem Fixture.MB406]
    /\ key_of tag = Some "MB406"%string
    /\ built Fixture.S7Item_new (Fixture.group_of []) tag = Some item
    /\ ItemMap.get "MB406"
         (_items (snd (addItems Fixture.S7Item_new
                         (ArgArray [TagString "DB1,BYTE0"; TagItem Fixture.MB406])
                         (Fixture.group_of []))))
       = Some item.
Proof.
  apply (addItems_lookup Fixture.S7Item_new
           (ArgArray [TagString "DB1,BYTE0"; TagItem Fixture.MB406]) (Fixture.group_of [])
           (snd (addItems Fixture.S7Item_new
                   (ArgArray [TagString "DB1,BYTE0"; TagItem Fixture.MB406])
                   (Fixture.group_of [])))
           "MB406").
  - vm_compute. reflexivity.
  - exists (TagItem Fixture.MB406). split; [right; left; reflexivity | reflexivity].
Defined.

(** [removeItems_lookup] for a group of two bytes of DB1 from which the
    first is removed. *)
Lemma removeItems_lookup_witness :
  ItemMap.get "DB1,BYTE0"
    (_items (removeItems (ArgOne (TagString "DB1,BYTE0"))
               (Fixture.group_of [Fixture.DB1_BYTE0; Fixture.DB1_BYTE3])))
  = None.
Proof.
  assert (Hkeys : NoDup (keys (_items (Fixture.group_of
                                         [Fixture.DB1_BYTE0; Fixture.DB1_BYTE3])))).
  { apply (bool_decide_unpack _). vm_compute. exact I. }
  destruct (removeItems_lookup (Fixture.group_of [Fixture.DB1_BYTE0; Fixture.DB1_BYTE3])
              (ArgOne (TagString "DB1,BYTE0")) "DB1,BYTE0" Hkeys) as (_ & Hgone & _).
  apply Hgone; [reflexivity | left; reflexivity].
Defined.

(** [translation_applies_to_later_tags] for a callback that maps every tag
    to the address DB1,BYTE3. *)
Lemma translation_applies_to_later_tags_witness :
  ItemMap.get "valve"
    (_items (snd (addItems Fixture.S7Item_new (ArgOne (TagString "valve"))
                    (snd (setTranslationCB (CbFunction (fun _ => "DB1,BYTE3"%string))
                            (Fixture.group_of [])))))) 
  = Fixture.S7Item_new "valve" "DB1,BYTE3".
Proof.
  apply (translation_applies_to_later_tags Fixture.S7Item_new
           (CbFunction (fun _ => "DB1,BYTE3"%string)) "valve" (Fixture.group_of [])
           (snd (setTranslationCB (CbFunction (fun _ => "DB1,BYTE3"%string))
                   (Fixture.group_of [])))).
  - reflexivity.
  - vm_compute. reflexivity.
Defined.

(** [readAllItems_returns_every_tag] for two bytes of DB1 stored under the
    tags 10 and 9 and a PLC that answers every part: the object has the
    two bytes and no property [__proto__]. *)
Lemma readAllItems_returns_every_tag_witness :
  let w := example_world 240
             [Fixture.byte_item "10" "DB" constants.area.DB (Some 1) 0 1;
              Fixture.byte_item "9" "DB" constants.area.DB (Some 1) 3 1] in
  exists result,
    outcome (example_readAllItems (Fixture.plc 255) 5 w) = Ok result
    /\ result !! "10"%string = Some [x00]
    /\ result !! "9"%string = Some [x00]
    /\ result !! "__proto__"%string = None.
Proof.
  intros w.
  destruct (example_readAllItems (Fixture.plc 255) 5 w) as [[result|e|] w' reqs] eqn:Hrun;
    try (vm_compute in Hrun; discriminate Hrun).
  exists result. split; [reflexivity|].
  assert (Hkeys : NoDup (keys (_items (group w)))).
  { apply (bool_decide_unpack _). vm_compute. exact I. }
  assert (Hplan : _readPackets (group w) = Some [] -> _items (group w) = [])
    by discriminate.
  assert (Hok : outcome (example_readAllItems (Fixture.plc 255) 5 w) = Ok result)
    by now rewrite Hrun.
  pose proof (readAllItems_returns_every_tag Fixture.Value Fixture._getCopyBufferOffsets
                Fixture._copyFromBuffer Fixture.updated_value (Fixture.plc 255) 0 5%nat
                w result Hkeys Hplan Hok) as (Hproto & Hget & _).
  assert (Hno : ~ In "__proto__"%string (keys (_items (group w)))).
  { intros [H|[H|[]]]; discriminate H. }
  split; [|split; [|exact Hproto]].
  - etrans; [exact (Hget Hno "10"%string)|]. vm_compute. reflexivity.
  - etrans; [exact (Hget Hno "9"%string)|]. vm_compute. reflexivity.
Defined.

(** A byte stored under the tag [__proto__] gives no property. *)
Lemma readAllItems_proto_tag :
  outcome (example_readAllItems (Fixture.plc 255) 5
             (example_world 240
                [Fixture.byte_item "__proto__" "DB" constants.area.DB (Some 1) 0 1]))
  = Ok empty.
Proof. vm_compute. reflexivity. Qed.

(** [destroyed_group_stays_destroyed] for a group that is destroyed, is
    given an item and sees a connection with a pdu size of 240. *)
Lemma destroyed_group_stays_destroyed_witness :
  let w0 := constructor S7Endpoint._initParams Fixture.default_opts in
  let w1 := with_group (destroy w0)
              (snd (addItems Fixture.S7Item_new (ArgOne (TagString "DB1,BYTE0"))
                      (group (destroy w0)))) in
  outcome (example_readAllItems (Fixture.plc 255) 5 (_onConnectionConnected (Some 240) w1))
  = Throw (Error "Already destroyed").
Proof.
  intros w0 w1.
  destruct (destroyed_group_stays_destroyed Fixture.Value Fixture.S7Item_new
              Fixture._getCopyBufferOffsets Fixture.getWriteBuffer Fixture._copyFromBuffer
              Fixture.updated_value w0 (_onConnectionConnected (Some 240) w1))
    as (_ & _ & _ & Hread & _).
  - apply later_connected. apply later_addItems. apply later_now.
  - apply Hread.
Defined.

(** [prepareReadPackets_ends] at the 500-byte item and a pdu size of
    240. *)
Lemma prepareReadPackets_ends_witness :
  exists fuel, forall fuel', (fuel <= fuel')%nat ->
    fst (_prepareReadPackets Fixture._getCopyBufferOffsets fuel' (Some 240)
           (Fixture.group_of [Fixture.M0_BYTE500])) <> Diverge
    /\ _prepareReadPackets Fixture._getCopyBufferOffsets fuel' (Some 240)
         (Fixture.group_of [Fixture.M0_BYTE500])
       = _prepareReadPackets Fixture._getCopyBufferOffsets fuel (Some 240)
           (Fixture.group_of [Fixture.M0_BYTE500]).
Proof.
  apply (prepareReadPackets_ends Fixture._getCopyBufferOffsets 240
           (Fixture.group_of [Fixture.M0_BYTE500])).
  lia.
Defined.

(** ** writeItems: what is issued and what the responses decide *)

Section WriteOutcome.
Variable Value : Type.
Variable S7Item_new : string -> string -> option S7Item.
Variable getWriteBuffer : S7Item -> Value -> Buffer.

Local Abbreviation writeItems' := (writeItems Value S7Item_new getWriteBuffer).

Lemma write_step_count g maxPayloadSize st tag value st' :
  write_step Value S7Item_new getWriteBuffer g maxPayloadSize st tag value = Ok st' ->
  exists req,
    concat (reqPackets st' ++ [reqItems st']) = concat (reqPackets st ++ [reqItems st]) ++ [req].
Proof.
  unfold write_step. destruct tag as [|s|]; try discriminate.
  destruct (item_of_tag S7Item_new g s) as [item|]; [|discriminate].
  destruct (_ >? _); [discriminate|].
  destruct (_ >? _); intros [= <-]; simpl; eexists; rewrite !concat_app; simpl;
    rewrite ?app_nil_r, ?app_assoc; reflexivity.
Qed.

Lemma write_loop_count g maxPayloadSize tags : forall values st st',
  List.length values = List.length tags ->
  write_loop Value S7Item_new getWriteBuffer g maxPayloadSize st tags values = Ok st' ->
  List.length (concat (reqPackets st' ++ [reqItems st']))
  = (List.length (concat (reqPackets st ++ [reqItems st])) + List.length tags)%nat.
Proof.
  induction tags as [|tag tags IH]; intros [|value values] st st' Hlen; try discriminate; simpl.
  - intros [= <-]. lia.
  - destruct (write_step _ _ _ _ _ _ _ _) as [st1|e|] eqn:Hstep; try discriminate.
    apply write_step_count in Hstep as [req Hreq]. intros Hloop.
    apply IH in Hloop; [|simpl in Hlen; lia]. rewrite Hloop, Hreq, length_app. simpl. lia.
Qed.

(** The two ways a call of [writeItems] goes: it stops before any request
    and leaves the world as it was, or it hands the packets of the packing
    loop to [writeVars]. *)
Lemma writeItems_run conn hrtime tags values w :
  (exists o, writeItems' conn hrtime tags values w = mkRun o w [])
  \/ exists vs reqs,
       List.length vs = List.length (tags_list tags)
       /\ write_packets Value S7Item_new getWriteBuffer (group w)
            (S7Endpoint.pduSize (endpoint w)) (tags_list tags) vs = Ok reqs
       /\ writeItems' conn hrtime tags values w
          = match promise_all (S7Endpoint.issue (S7Endpoint.writeVars conn (endpoint w))
                                 0%nat reqs) with
            | Rejected e => mkRun (Throw e) w reqs
            | Resolved responses =>
                mkRun (check_write_responses (concat responses))
                      (with_group w (with_lastRequestTime (group w) (Some hrtime))) reqs
            end.
Proof.
  unfold writeItems.
  destruct (negb (_endpoint (group w))); [left; eexists; reflexivity|].
  destruct (match tags with ArgOne (TagString s) => _ | ArgArray l => _ | _ => None end)
    as [tl|] eqn:Htl; [|left; eexists; reflexivity].
  assert (Htags : tl = tags_list tags).
  { destruct tags as [|[item|s|]|l]; simpl in *; congruence. }
  subst tl. clear Htl.
  set (vs := match values with ValArray _ l => l | ValOne _ v => [v] end).
  destruct (Nat.eqb_spec (List.length vs) (List.length (tags_list tags))) as [Hlen|Hlen];
    [|left; eexists; reflexivity].
  destruct (List.length (tags_list tags) =? 0)%nat; [left; eexists; reflexivity|].
  destruct (negb (S7Endpoint.isConnected (endpoint w))); [left; eexists; reflexivity|].
  destruct (write_packets _ _ _ _ _ _ _) as [reqs|e|] eqn:Hpk;
    [|left; eexists; reflexivity..].
  right. exists vs, reqs. auto.
Qed.

(** X9: [writeItems] either issues no request and leaves the world as it
    was, or hands to [writeVars] packets that hold exactly one request part
    per tag. *)
Theorem writeItems_issues_all_or_nothing (conn : Connection) (hrtime : Z)
  (tags : TagsArg) (values : ValuesArg Value) (w : World) :
  let r := writeItems' conn hrtime tags values w in
  (issued r = [] /\ after r = w)
  \/ List.length (concat (issued r)) = List.length (tags_list tags).
Proof.
  intros r. unfold r.
  destruct (writeItems_run conn hrtime tags values w) as [[o ->]|(vs & reqs & Hlen & Hpk & ->)].
  - left. auto.
  - right. unfold write_packets in Hpk.
    destruct (write_loop _ _ _ _ _ _ _ _) as [st| |] eqn:Hloop; try discriminate.
    injection Hpk as <-. apply write_loop_count in Hloop; [|exact Hlen].
    destruct (promise_all _); exact Hloop.
Qed.

Lemma check_write_responses_Ok responses :
  check_write_responses responses = Ok tt <-> Forall written_ok responses.
Proof.
  unfold written_ok. induction responses as [|res rest IH]; simpl.
  - split; [constructor | reflexivity].
  - destruct (Z.eqb_spec (w_returnCode res) constants.retval.DATA_OK) as [Heq|Hne]; simpl.
    + rewrite IH. split; [now constructor | now intros [_ ?]%Forall_cons].
    + split; [discriminate | now intros [? _]%Forall_cons].
Qed.

Lemma check_write_responses_first pre res post :
  Forall written_ok pre -> ~ written_ok res ->
  check_write_responses (pre ++ res :: post)
  = Throw (NodeS7Error (RetCode (w_returnCode res)) None).
Proof.
  unfold written_ok. intros Hpre Hres. induction Hpre as [|x pre Hx _ IH]; simpl.
  - apply Z.eqb_neq in Hres. now rewrite Hres.
  - apply Z.eqb_eq in Hx. now rewrite Hx.
Qed.

(** X10: when [writeItems] has issued its packets and all jobs resolve, it
    resolves exactly when every return code received is 0xFF, and it
    rejects with the first other return code, in the order of the packets
    and their parts; how many codes were received is not checked; the time
    of the request is stored either way. *)
Theorem writeItems_first_bad_code_decides (conn : Connection) (hrtime : Z)
  (tags : TagsArg) (values : ValuesArg Value) (w : World)
  (responses : list (list WriteRes))
  (Hissued : issued (writeItems' conn hrtime tags values w) <> [])
  (Hresolved : promise_all (S7Endpoint.issue (S7Endpoint.writeVars conn (endpoint w)) 0%nat
                              (issued (writeItems' conn hrtime tags values w)))
               = Resolved responses) :
  let r := writeItems' conn hrtime tags values w in
  (outcome r = Ok tt <-> Forall written_ok (concat responses))
  /\ (forall pre res post,
        concat responses = pre ++ res :: post -> Forall written_ok pre -> ~ written_ok res ->
        outcome r = Throw (NodeS7Error (RetCode (w_returnCode res)) None))
  /\ _lastRequestTime (group (after r)) = Some hrtime.
Proof.
  intros r.
  assert (Hrun : outcome r = check_write_responses (concat responses)
                 /\ _lastRequestTime (group (after r)) = Some hrtime).
  { revert Hissued Hresolved. unfold r.
    destruct (writeItems_run conn hrtime tags values w)
      as [[o ->]|(vs & reqs & _ & _ & ->)]; simpl; [congruence|].
    destruct (promise_all _) as [responses'|e] eqn:Hall; simpl; intros _.
    - rewrite Hall. intros [= <-]. auto.
    - rewrite Hall. discriminate. }
  destruct Hrun as [-> Htime]. split; [apply check_write_responses_Ok|].
  split; [|exact Htime].
  intros pre res post -> Hpre Hres. now apply check_write_responses_first.
Qed.

End WriteOutcome.

(** [writeItems_first_bad_code_decides] for a write of one byte that the
    PLC answers with the return code 5. *)
Lemma writeItems_first_bad_code_decides_witness :
  outcome (example_writeItems (Fixture.plc 5) (ArgOne (TagString "DB1,BYTE0"))
             (ValOne Buffer [x01]) (example_world 240 []))
  = Throw (NodeS7Error (RetCode 5) None).
Proof.
  destruct (writeItems_first_bad_code_decides Fixture.Value Fixture.S7Item_new
              Fixture.getWriteBuffer (Fixture.plc 5) 0 (ArgOne (TagString "DB1,BYTE0"))
              (ValOne Buffer [x01]) (example_world 240 []) [[mkWriteRes 5]])
    as (_ & Hfirst & _).
  - vm_compute. discriminate.
  - vm_compute. reflexivity.
  - apply (Hfirst [] (mkWriteRes 5) []).
    + reflexivity.
    + constructor.
    + vm_compute. discriminate.
Defined.

(** ** The addresses of readVars and writeVars, and the bytes of writeArea *)

Lemma to_int32_small x : - 2 ^ 31 <= x < 2 ^ 31 -> to_int32 x = x.
Proof.
  intros H. unfold to_int32.
  destruct (Z.ltb_spec (x mod 2 ^ 32) (2 ^ 31)) as [Hlt|Hge].
  - destruct (Z.le_gt_cases 0 x).
    + apply Z.mod_small. lia.
    + exfalso. replace x with (x + 1 * 2 ^ 32 - 1 * 2 ^ 32) in Hlt by lia.
      rewrite <- Zminus_mod_idemp_r, Z_mod_mult, Z.sub_0_r in Hlt.
      rewrite Z.mod_small in Hlt; lia.
  - destruct (Z.le_gt_cases 0 x).
    + rewrite Z.mod_small in Hge; lia.
    + replace x with (x + 1 * 2 ^ 32 - 1 * 2 ^ 32) at 1 by lia.
      rewrite <- Zminus_mod_idemp_r, Z_mod_mult, Z.sub_0_r.
      rewrite Z.mod_small; lia.
Qed.

Lemma js_shl_small x n :
  0 <= n < 32 -> - 2 ^ 31 <= x * 2 ^ n < 2 ^ 31 -> - 2 ^ 31 <= x < 2 ^ 31 ->
  js_shl x n = x * 2 ^ n.
Proof.
  intros Hn Hx Hx'. unfold js_shl. rewrite (Z.mod_small n 32) by lia.
  rewrite (to_int32_small x) by assumption. rewrite Z.shiftl_mul_pow2 by lia.
  now apply to_int32_small.
Qed.

Lemma s7any_address_sent transport address :
  0 <= address < 2 ^ 28 ->
  S7Endpoint.s7any_address transport address = sent_address transport address.
Proof.
  intros Hrange. unfold S7Endpoint.s7any_address, sent_address.
  destruct (transport =? constants.transport.BIT); [reflexivity|].
  rewrite js_shl_small; lia.
Qed.

(** X11: on a connected endpoint, for items whose addresses lie in
    0..2^28-1, [readVars] hands to [requestReadVars], and [writeVars] to
    [requestWriteVar], one address specification per item, in the order of
    the items, with the area, the db, the transport and the length of the
    item and with its address times 8, or the address as given when the
    transport is BIT; [writeVars] hands over, next to them, the data
    transport and the data of every item.  Eight times an address is its
    bit address: the low three bits are 0 and the bits above them are the
    address. *)
Theorem s7any_address_counts_bits (conn : Connection) (e : S7Endpoint.t) (job : nat)
  (reads : list VarItem) (writes : list WriteItem)
  (Hconnected : S7Endpoint.isConnected e = true)
  (Hreads : Forall (fun item => 0 <= vi_address item < 2 ^ 28) reads)
  (Hwrites : Forall (fun item => 0 <= wi_address item < 2 ^ 28) writes) :
  S7Endpoint.readVars conn e job reads = requestReadVars conn job (map read_spec reads)
  /\ S7Endpoint.writeVars conn e job writes
     = requestWriteVar conn job (map write_spec writes)
         (map (fun item => mkWriteData (wi_dataTransport item) (wi_data item)) writes)
  /\ (forall transport address,
        transport <> constants.transport.BIT ->
        Z.shiftr (sent_address transport address) 3 = address
        /\ Z.land (sent_address transport address) 7 = 0).
Proof.
  unfold S7Endpoint.readVars, S7Endpoint.writeVars. rewrite Hconnected. simpl negb. cbv iota.
  split; [|split].
  - f_equal. apply map_ext_Forall. eapply Forall_impl; [exact Hreads|].
    intros item Hitem. cbv beta in *. unfold read_spec. now rewrite s7any_address_sent.
  - f_equal. apply map_ext_Forall. eapply Forall_impl; [exact Hwrites|].
    intros item Hitem. cbv beta in *. unfold write_spec. now rewrite s7any_address_sent.
  - intros transport address Hne. unfold sent_address.
    apply Z.eqb_neq in Hne. rewrite Hne. split.
    + rewrite Z.shiftr_div_pow2 by lia. change (2 ^ 3) with 8.
      rewrite Z.mul_comm. apply Z.div_mul. lia.
    + change 7 with (Z.ones 3). rewrite Z.land_ones by lia. change (2 ^ 3) with 8.
      rewrite Z.mul_comm. apply Z.mod_mul. lia.
Qed.

(** [s7any_address_counts_bits] for a read of the byte 406 of the flags
    and a write of the bit 3 of the byte 2 of DB1: the connection is
    asked for the address 3248 and for the address 19. *)
Lemma s7any_address_counts_bits_witness :
  S7Endpoint.readVars (Fixture.plc 255) (Fixture.connected 240) 0
    [mkVarItem constants.area.FLAGS None constants.transport.BYTE 406 1]
  = requestReadVars (Fixture.plc 255) 0
      [mkS7Any constants.area.FLAGS None constants.transport.BYTE 3248 1]
  /\ S7Endpoint.writeVars (Fixture.plc 255) (Fixture.connected 240) 0
       [mkWriteItem constants.area.DB (Some 1) 19 constants.transport.BIT
          constants.dataTransport.BBIT [x01] 1]
     = requestWriteVar (Fixture.plc 255) 0
         [mkS7Any constants.area.DB (Some 1) constants.transport.BIT 19 1]
         [mkWriteData constants.dataTransport.BBIT [x01]].
Proof.
  destruct (s7any_address_counts_bits (Fixture.plc 255) (Fixture.connected 240) 0
              [mkVarItem constants.area.FLAGS None constants.transport.BYTE 406 1]
              [mkWriteItem constants.area.DB (Some 1) 19 constants.transport.BIT
                 constants.dataTransport.BBIT [x01] 1]) as (Hread & Hwrite & _).
  - reflexivity.
  - repeat constructor; simpl; lia.
  - repeat constructor; simpl; lia.
  - split; [exact Hread | exact Hwrite].
Defined.

(** Beyond 2^28 the shift wraps around: the address 2^29 is sent as 0. *)
Lemma readVars_address_wraps (conn : Connection) (job : nat) :
  S7Endpoint.readVars conn (Fixture.connected 240) job
    [mkVarItem constants.area.DB (Some 1) constants.transport.BYTE (2 ^ 29) 1]
  = requestReadVars conn job
      [mkS7Any constants.area.DB (Some 1) constants.transport.BYTE 0 1].
Proof. reflexivity. Qed.

Lemma slice_from_start (buf : Buffer) (e : Z) :
  0 <= e -> slice buf 0 e = take (Z.to_nat e) buf.
Proof.
  intros He. unfold slice, slice_index. simpl.
  destruct (Z.ltb_spec e 0); [lia|].
  rewrite (Z.min_l 0) by lia.
  destruct (Z.leb_spec (Z.min e (Z.of_nat (List.length buf))) 0) as [Hle|Hgt].
  - assert (Hz : e = 0 \/ buf = []) by (destruct buf; simpl in *; [auto | lia]).
    destruct Hz as [->| ->]; [reflexivity | now rewrite take_nil].
  - rewrite Z.sub_0_r. change (Z.to_nat 0) with 0%nat. rewrite drop_0.
    destruct (Z.le_ge_cases e (Z.of_nat (List.length buf))).
    + now rewrite Z.min_l by lia.
    + rewrite Z.min_r by lia. rewrite Nat2Z.id.
      rewrite (take_ge buf (List.length buf)), (take_ge buf (Z.to_nat e)) by lia. reflexivity.
Qed.

(** What the requests of the loop of [writeArea] carry, once the loop has
    ended. *)
Lemma writeArea_requests_first_slice (fuel : nat) (area address : Z) (data : Buffer)
  (db : option Z) (maxPayload : Z) (reqs : list (list WriteItem))
  (Hmax : 0 < maxPayload)
  (Hreqs : S7Endpoint.writeArea_requests fuel area address data db maxPayload 0 = Some reqs) :
  concat (map wi_data (concat reqs)) = take (Z.to_nat maxPayload) data
  /\ (Z.of_nat (List.length data) <= maxPayload ->
      concat (map wi_data (concat reqs)) = data /\ (List.length reqs <= 1)%nat)
  /\ Forall (fun w => wi_area w = area /\ wi_db w = db
                      /\ wi_length w = Z.of_nat (List.length (wi_data w))) (concat reqs).
Proof.
  assert (Hmeta : forall fuel ptr reqs,
            S7Endpoint.writeArea_requests fuel area address data db maxPayload ptr = Some reqs ->
            Forall (fun w => wi_area w = area /\ wi_db w = db
                             /\ wi_length w = Z.of_nat (List.length (wi_data w))) (concat reqs)).
  { clear. induction fuel as [|fuel IH]; intros ptr reqs; simpl.
    - destruct (ptr <? _); [discriminate | intros [= <-]; constructor].
    - destruct (ptr <? _); [|intros [= <-]; constructor].
      destruct (S7Endpoint.writeArea_requests fuel _ _ _ _ _ _) as [rest|] eqn:Hrest;
        [|discriminate].
      intros [= <-]. simpl. constructor; [auto | eauto]. }
  split; [|split; [|eapply Hmeta; eassumption]].
  - destruct fuel as [|fuel]; simpl in Hreqs.
    + destruct (Z.ltb_spec 0 (Z.of_nat (List.length data))); [discriminate|].
      injection Hreqs as <-. destruct data; [now rewrite take_nil | simpl in *; lia].
    + destruct (Z.ltb_spec 0 (Z.of_nat (List.length data))) as [Hlt|Hge].
      * destruct (S7Endpoint.writeArea_requests fuel _ _ _ _ _ _) as [rest|] eqn:Hrest;
          [|discriminate].
        injection Hreqs as <-.
        apply writeArea_later_slices_empty in Hrest; [|lia|lia].
        simpl. rewrite Z.sub_0_r, slice_from_start by lia.
        assert (Hnil : concat (map wi_data (concat rest)) = []).
        { clear -Hrest. induction Hrest as [|r rest Hr _ IH]; simpl; [reflexivity|].
          rewrite map_app, concat_app, IH, app_nil_r.
          induction Hr as [|w r [Hw _] _ IHr]; simpl; [reflexivity|]. now rewrite Hw, IHr. }
        rewrite Hnil, app_nil_r.
        destruct (Z.le_ge_cases (Z.of_nat (List.length data)) maxPayload).
        -- rewrite Z.min_l by lia. rewrite Nat2Z.id.
           rewrite (take_ge data (List.length data)), (take_ge data (Z.to_nat maxPayload)) by lia.
           reflexivity.
        -- now rewrite Z.min_r by lia.
      * injection Hreqs as <-. destruct data; [now rewrite take_nil | simpl in *; lia].
  - intros Hfit.
    destruct fuel as [|fuel]; simpl in Hreqs.
    + destruct (Z.ltb_spec 0 (Z.of_nat (List.length data))); [discriminate|].
      injection Hreqs as <-. destruct data; [simpl; auto | simpl in *; lia].
    + destruct (Z.ltb_spec 0 (Z.of_nat (List.length data))) as [Hlt|Hge].
      * destruct fuel as [|fuel]; simpl in Hreqs.
        -- destruct (Z.ltb_spec (0 + maxPayload) (Z.of_nat (List.length data))); [lia|].
           injection Hreqs as <-. simpl. rewrite Z.sub_0_r, Z.min_l, slice_from_start by lia.
           rewrite Nat2Z.id, take_ge, app_nil_r by lia. auto.
        -- destruct (Z.ltb_spec (0 + maxPayload) (Z.of_nat (List.length data))); [lia|].
           injection Hreqs as <-. simpl. rewrite Z.sub_0_r, Z.min_l, slice_from_start by lia.
           rewrite Nat2Z.id, take_ge, app_nil_r by lia. auto.
      * injection Hreqs as <-. destruct data; [simpl; auto | simpl in *; lia].
Qed.

(** With a positive payload the loop of [writeArea] ends: one round of
    fuel per byte of the data is enough. *)
Lemma writeArea_requests_total area address (data : Buffer) db maxPayload :
  0 < maxPayload ->
  forall fuel ptr, 0 <= ptr ->
    (Z.to_nat (Z.of_nat (List.length data) - ptr) <= fuel)%nat ->
    exists reqs,
      S7Endpoint.writeArea_requests fuel area address data db maxPayload ptr = Some reqs.
Proof.
  intros Hmax. induction fuel as [|fuel IH]; intros ptr Hptr Hfuel; simpl.
  - destruct (Z.ltb_spec ptr (Z.of_nat (List.length data))); [lia | eauto].
  - destruct (Z.ltb_spec ptr (Z.of_nat (List.length data))); [|eauto].
    destruct (IH (ptr + maxPayload)) as [rest ->]; [lia | lia | eauto].
Qed.

(** More fuel does not change what the loop returns. *)
Lemma writeArea_requests_more_fuel area address (data : Buffer) db maxPayload :
  forall fuel fuel' ptr reqs, (fuel <= fuel')%nat ->
    S7Endpoint.writeArea_requests fuel area address data db maxPayload ptr = Some reqs ->
    S7Endpoint.writeArea_requests fuel' area address data db maxPayload ptr = Some reqs.
Proof.
  induction fuel as [|fuel IH]; intros fuel' ptr reqs Hle; simpl.
  - destruct (ptr <? _) eqn:Hlt; [discriminate|]. intros [= <-].
    destruct fuel'; simpl; now rewrite Hlt.
  - destruct (ptr <? _) eqn:Hlt.
    + destruct fuel' as [|fuel']; [lia|]. simpl. rewrite Hlt.
      destruct (S7Endpoint.writeArea_requests fuel _ _ _ _ _ _) as [rest|] eqn:Hrest;
        [|discriminate].
      intros [= <-]. rewrite (IH fuel' _ rest); [reflexivity | lia | exact Hrest].
    + intros [= <-]. destruct fuel'; simpl; now rewrite Hlt.
Qed.

(** X12: on a connected endpoint with a pdu size above 28, [writeArea]
    comes to issue its jobs (the loop ends, with one round of fuel per byte
    of the data at the latest), and what it returns is decided by the
    responses to these jobs.  The jobs carry together the first
    [pduSize - 28] bytes of the data and nothing else, every item with the
    area and the db of the call and the length of its data; data of at
    most [pduSize - 28] bytes is sent whole, in at most one job. *)
Theorem writeArea_sends_the_first_slice (conn : Connection) (e : S7Endpoint.t)
  (n area address : Z) (data : Buffer) (db : option Z)
  (Hconnected : S7Endpoint.isConnected e = true)
  (Hpdu : S7Endpoint._pduSize e = Some n)
  (Hn : 28 < n) :
  exists reqs : list (list WriteItem),
    (forall fuel, (List.length data <= fuel)%nat ->
       S7Endpoint.writeArea_requests fuel area address data db (n - 28) 0 = Some reqs
       /\ S7Endpoint.writeArea conn fuel e area address data db
          = match promise_all (S7Endpoint.issue (S7Endpoint.writeVars conn e) 0%nat reqs) with
            | Rejected err => Throw err
            | Resolved results => S7Endpoint.writeArea_check results
            end)
    /\ concat (map wi_data (concat reqs)) = take (Z.to_nat (n - 28)) data
    /\ (Z.of_nat (List.length data) <= n - 28 ->
        concat (map wi_data (concat reqs)) = data /\ (List.length reqs <= 1)%nat)
    /\ Forall (fun w => wi_area w = area /\ wi_db w = db
                        /\ wi_length w = Z.of_nat (List.length (wi_data w))) (concat reqs).
Proof.
  assert (Hmax : 0 < n - 28) by lia.
  destruct (writeArea_requests_total area address data db (n - 28) Hmax
              (List.length data) 0) as [reqs Hreqs]; [lia | lia |].
  exists reqs. split.
  - intros fuel Hfuel.
    pose proof (writeArea_requests_more_fuel area address data db (n - 28)
                  (List.length data) fuel 0 reqs Hfuel Hreqs) as Hsame.
    split; [exact Hsame|].
    unfold S7Endpoint.writeArea. rewrite Hconnected, Hpdu. simpl S7Endpoint.to_number.
    simpl negb. cbv iota. rewrite Hsame. reflexivity.
  - exact (writeArea_requests_first_slice _ area address data db (n - 28) reqs Hmax Hreqs).
Qed.

(** [writeArea_sends_the_first_slice] at 300 bytes and a pdu size of 240:
    the 212 first bytes are sent and the call resolves. *)
Lemma writeArea_sends_the_first_slice_witness :
  exists reqs,
    S7Endpoint.writeArea_requests 300 constants.area.DB 0 (repeat x01 300) (Some 1) 212 0
    = Some reqs
    /\ concat (map wi_data (concat reqs)) = take 212 (repeat x01 300)
    /\ S7Endpoint.writeArea (Fixture.plc 255) 300 (Fixture.connected 240)
         constants.area.DB 0 (repeat x01 300) (Some 1) = Ok tt.
Proof.
  destruct (writeArea_sends_the_first_slice (Fixture.plc 255) (Fixture.connected 240) 240
              constants.area.DB 0 (repeat x01 300) (Some 1))
    as (reqs & Hrun & Hdata & _).
  - reflexivity.
  - reflexivity.
  - lia.
  - exists reqs. destruct (Hrun 300%nat) as [Hreqs Hcall].
    + rewrite repeat_length. lia.
    + split; [exact Hreqs|]. split; [exact Hdata|].
      vm_compute. reflexivity.
Defined.

(** ** System status lists *)

Lemma byte_value_range b : 0 <= byte_value b <= 255.
Proof. unfold byte_value. pose proof (Byte.to_N_bounded b). lia. Qed.

Lemma byte_of_value b : byte_of (byte_value b) = b.
Proof. unfold byte_of, byte_value. now rewrite N2Z.id, Byte.of_to_N. Qed.

Lemma byte_value_of n : 0 <= n <= 255 -> byte_value (byte_of n) = n.
Proof.
  intros Hn. unfold byte_of, byte_value.
  destruct (Byte.of_N (Z.to_N n)) as [b|] eqn:Hb; simpl.
  - apply Byte.to_of_N in Hb. lia.
  - apply Byte.of_N_None_iff in Hb. lia.
Qed.

Lemma readUInt16BE_range (buf : list byte) offset v :
  readUInt16BE buf offset = Some v -> 0 <= v <= 65535.
Proof.
  unfold readUInt16BE, Buffer. destruct (buf !! offset) as [hi|]; [|discriminate].
  destruct (buf !! S offset) as [lo|]; [|discriminate].
  intros [= <-]. pose proof (byte_value_range hi). pose proof (byte_value_range lo). lia.
Qed.

Lemma readUInt16BE_Some (buf : list byte) offset :
  (offset + 2 <= List.length buf)%nat <-> exists v, readUInt16BE buf offset = Some v.
Proof.
  unfold readUInt16BE, Buffer. split.
  - intros Hlen.
    assert (Hhi : is_Some (buf !! offset)) by (apply lookup_lt_is_Some_2; lia).
    assert (Hlo : is_Some (buf !! S offset)) by (apply lookup_lt_is_Some_2; lia).
    destruct Hhi as [hi Hhi], Hlo as [lo Hlo]. rewrite Hhi, Hlo. eauto.
  - intros [v Hv]. destruct (buf !! offset) as [hi|]; [|discriminate].
    destruct (buf !! S offset) as [lo|] eqn:Hlo; [|discriminate].
    apply lookup_lt_Some in Hlo. lia.
Qed.

(** The bytes of a request carry the id and the index, and a request is
    built exactly for ids and indexes of 16 bits. *)
Lemma request_spec id index :
  (0 <= id <= 65535 /\ 0 <= index <= 65535 ->
   SSL.request id index
   = Some [byte_of (id / 256); byte_of (id mod 256);
           byte_of (index / 256); byte_of (index mod 256)])
  /\ (~ (0 <= id <= 65535 /\ 0 <= index <= 65535) -> SSL.request id index = None).
Proof.
  unfold SSL.request, writeUInt16BE. simpl. split.
  - intros [Hid Hidx].
    rewrite (proj2 (Z.leb_le 0 id)), (proj2 (Z.leb_le id 65535)) by lia. simpl.
    rewrite (proj2 (Z.leb_le 0 index)), (proj2 (Z.leb_le index 65535)) by lia. reflexivity.
  - intros Hno. destruct (Z.leb_spec 0 id); simpl; [|reflexivity].
    destruct (Z.leb_spec id 65535); simpl; [|reflexivity].
    destruct (Z.leb_spec 0 index); simpl; [|reflexivity].
    destruct (Z.leb_spec index 65535); simpl; [lia | reflexivity].
Qed.

Lemma slice_inside (buf : Buffer) (a len : Z) :
  0 <= a -> 0 <= len -> a + len <= Z.of_nat (List.length buf) ->
  slice buf a (a + len) = take (Z.to_nat len) (drop (Z.to_nat a) buf).
Proof.
  intros Ha Hlen Hin. unfold slice, slice_index.
  destruct (Z.ltb_spec a 0); [lia|]. destruct (Z.ltb_spec (a + len) 0); [lia|].
  rewrite !Z.min_l by lia.
  destruct (Z.leb_spec (a + len) a).
  - replace len with 0 by lia. reflexivity.
  - f_equal. lia.
Qed.

(** Consecutive chunks of the same length put together give back the
    bytes they were cut from. *)
Lemma chunks_concat {A} (l : list A) (size : nat) (count : nat) :
  concat (map (fun i => take size (drop (size * i) l)) (seq 0 count)) = take (size * count) l.
Proof.
  induction count as [|count IH].
  - simpl. now rewrite Nat.mul_0_r.
  - rewrite seq_S, map_app, concat_app, IH. simpl. rewrite app_nil_r.
    rewrite take_take_drop. f_equal. lia.
Qed.

Lemma getSSL_Returned conn id index strict entries :
  SSL.getSSL conn id index strict = SSL.Returned entries ->
  exists send reqBuf res resId resIdx entryLength entryCount,
    conn = Some send /\ SSL.request id index = Some reqBuf /\ send reqBuf = Resolved res
    /\ readUInt16BE res 0 = Some resId /\ readUInt16BE res 2 = Some resIdx
    /\ (strict = true -> resId = id /\ resIdx = index)
    /\ readUInt16BE res 4 = Some entryLength /\ readUInt16BE res 6 = Some entryCount
    /\ entryLength * entryCount = Z.of_nat (List.length res) - 8
    /\ entries = SSL.entries res entryLength entryCount.
Proof.
  unfold SSL.getSSL.
  destruct (SSL.request id index) as [reqBuf|]; [|discriminate].
  destruct conn as [send|]; [|discriminate].
  destruct (send reqBuf) as [res|e] eqn:Hsend; [|discriminate].
  destruct (readUInt16BE res 0) as [resId|] eqn:H0; [|discriminate].
  destruct (readUInt16BE res 2) as [resIdx|] eqn:H2; [|discriminate].
  destruct (strict && _) eqn:Hstrict; [discriminate|].
  destruct (readUInt16BE res 4) as [entryLength|] eqn:HL; [|discriminate].
  destruct (readUInt16BE res 6) as [entryCount|] eqn:HC; [|discriminate].
  destruct (Z.eqb_spec (entryLength * entryCount) (Z.of_nat (List.length res) - 8)) as [Hsize|];
    simpl; [|discriminate].
  intros [= <-]. exists send, reqBuf, res, resId, resIdx, entryLength, entryCount.
  split; [reflexivity|]. split; [reflexivity|]. split; [exact Hsend|].
  split; [exact H0|]. split; [exact H2|]. split.
  { intros ->. simpl in Hstrict. apply orb_false_iff in Hstrict as [E1 E2].
    apply negb_false_iff, Z.eqb_eq in E1. apply negb_false_iff, Z.eqb_eq in E2. auto. }
  split; [exact HL|]. split; [exact HC|]. split; [exact Hsize | reflexivity].
Qed.

Lemma entries_spec (res : list byte) (entryLength entryCount : Z) :
  0 <= entryLength -> 0 <= entryCount ->
  entryLength * entryCount = Z.of_nat (List.length res) - 8 ->
  SSL.entries res entryLength entryCount
  = map (fun i => take (Z.to_nat entryLength) (drop (Z.to_nat entryLength * i) (drop 8 res)))
        (seq 0 (Z.to_nat entryCount)).
Proof.
  intros HL HC Hsize. unfold SSL.entries. apply map_ext_in. intros i Hi.
  apply in_seq in Hi. simpl.
  rewrite slice_inside; [|nia..].
  rewrite drop_drop. do 2 f_equal. nia.
Qed.

(** X14: when [getSSL] returns, it returns [entryCount] buffers of
    [entryLength] bytes each (the two numbers at the bytes 4..7 of the
    response), and the eight header bytes followed by these buffers are
    the response. *)
Theorem getSSL_entries_tile_the_response
  (conn : option (Buffer -> Settled Buffer)) (id index : Z) (strict : bool)
  (entries : list Buffer)
  (Hret : SSL.getSSL conn id index strict = SSL.Returned entries) :
  exists send reqBuf res entryLength entryCount,
    conn = Some send /\ SSL.request id index = Some reqBuf /\ send reqBuf = Resolved res
    /\ readUInt16BE res 4 = Some entryLength /\ readUInt16BE res 6 = Some entryCount
    /\ List.length entries = Z.to_nat entryCount
    /\ Forall (fun b => Z.of_nat (List.length b) = entryLength) entries
    /\ take 8 res ++ concat entries = res.
Proof.
  apply getSSL_Returned in Hret
    as (send & reqBuf & res & resId & resIdx & L & C & -> & Hreq & Hsend & _ & _ & _
        & HL & HC & Hsize & ->).
  exists send, reqBuf, res, L, C.
  pose proof (readUInt16BE_range _ _ _ HL) as HLr.
  pose proof (readUInt16BE_range _ _ _ HC) as HCr.
  unfold Buffer in *.
  rewrite entries_spec by lia.
  repeat split; try assumption.
  - now rewrite length_map, length_seq.
  - apply Forall_map, Forall_forall. intros i Hi%list_elem_of_In%in_seq. cbv beta.
    rewrite length_take, drop_drop, length_drop. nia.
  - rewrite chunks_concat.
    rewrite (take_ge (drop 8 res)) by (rewrite length_drop; nia). apply take_drop.
Qed.

(** [getSSL_entries_tile_the_response] for a response with three entries
    of two bytes. *)
Lemma getSSL_entries_tile_the_response_witness :
  exists entries send reqBuf res entryLength entryCount,
    SSL.getSSL (SSL.echo SSL.three_ids) 17 0 true = SSL.Returned entries
    /\ SSL.echo SSL.three_ids = Some send /\ SSL.request 17 0 = Some reqBuf
    /\ send reqBuf = Resolved res
    /\ readUInt16BE res 4 = Some entryLength /\ readUInt16BE res 6 = Some entryCount
    /\ List.length entries = Z.to_nat entryCount
    /\ Forall (fun b => Z.of_nat (List.length b) = entryLength) entries
    /\ take 8 res ++ concat entries = res.
Proof.
  destruct (getSSL_entries_tile_the_response (SSL.echo SSL.three_ids) 17 0 true
              [[x00; x11]; [x00; x1c]; [x01; x31]])
    as (send & reqBuf & res & entryLength & entryCount & H).
  - vm_compute. reflexivity.
  - exists [[x00; x11]; [x00; x1c]; [x01; x31]], send, reqBuf, res, entryLength, entryCount.
    split; [vm_compute; reflexivity | exact H].
Defined.


Lemma readUInt16BE_bytes (res : list byte) (offset : nat) (v : Z) :
  0 <= v <= 65535 ->
  readUInt16BE res offset = Some v
  <-> res !! offset = Some (byte_of (v / 256)) /\ res !! S offset = Some (byte_of (v mod 256)).
Proof.
  intros Hv. unfold readUInt16BE, Buffer. split.
  - destruct (res !! offset) as [hi|]; [|discriminate].
    destruct (res !! S offset) as [lo|]; [|discriminate].
    intros [= <-]. pose proof (byte_value_range hi). pose proof (byte_value_range lo).
    replace ((byte_value hi * 256 + byte_value lo) / 256) with (byte_value hi)
      by (apply Z.div_unique with (byte_value lo); lia).
    replace ((byte_value hi * 256 + byte_value lo) mod 256) with (byte_value lo)
      by (apply Z.mod_unique with (byte_value hi); lia).
    now rewrite !byte_of_value.
  - intros [-> ->]. rewrite !byte_value_of.
    + f_equal. pose proof (Z.div_mod v 256). lia.
    + pose proof (Z.mod_pos_bound v 256). lia.
    + assert (v / 256 < 256) by (apply Z.div_lt_upper_bound; lia).
      assert (0 <= v / 256) by (apply Z.div_pos; lia). lia.
Qed.

(** X15: for an id and an index of 16 bits and a request that resolves,
    [getSSL] returns exactly when the response has its header,
    [entryLength * entryCount] is its length less 8 and, in strict mode,
    its first four bytes repeat the four bytes of the request. *)
Theorem getSSL_accepts_exactly
  (send : Buffer -> Settled Buffer) (id index : Z) (strict : bool) (reqBuf res : Buffer)
  (Hreq : SSL.request id index = Some reqBuf)
  (Hres : send reqBuf = Resolved res) :
  (exists entries, SSL.getSSL (Some send) id index strict = SSL.Returned entries)
  <-> (exists entryLength entryCount,
         readUInt16BE res 4 = Some entryLength /\ readUInt16BE res 6 = Some entryCount
         /\ entryLength * entryCount = Z.of_nat (List.length res) - 8
         /\ (strict = true -> take 4 res = reqBuf)).
Proof.
  assert (Hrange : 0 <= id <= 65535 /\ 0 <= index <= 65535).
  { destruct (request_spec id index) as [_ Hno].
    destruct (Z.le_gt_cases 0 id), (Z.le_gt_cases id 65535), (Z.le_gt_cases 0 index),
      (Z.le_gt_cases index 65535); try lia; rewrite Hno in Hreq by lia; discriminate. }
  destruct (request_spec id index) as [Hyes _]. rewrite (Hyes Hrange) in Hreq.
  injection Hreq as <-. destruct Hrange as [Hid Hidx].
  assert (Hecho : forall resId resIdx,
            readUInt16BE res 0 = Some resId -> readUInt16BE res 2 = Some resIdx ->
            (8 <= List.length res)%nat ->
            (resId = id /\ resIdx = index
             <-> take 4 res = [byte_of (id / 256); byte_of (id mod 256);
                               byte_of (index / 256); byte_of (index mod 256)])).
  { unfold Buffer in *. intros resId resIdx H0 H2 Hlen.
    destruct res as [|b0 [|b1 [|b2 [|b3 rest]]]]; simpl in Hlen; try lia. simpl.
    split.
    - intros [-> ->].
      apply readUInt16BE_bytes in H0 as [[= ->] [= ->]]; [|assumption].
      apply readUInt16BE_bytes in H2 as [[= ->] [= ->]]; [|assumption]. reflexivity.
    - intros [= -> -> -> ->].
      assert (E0 : readUInt16BE (byte_of (id / 256) :: byte_of (id mod 256)
                                 :: byte_of (index / 256) :: byte_of (index mod 256) :: rest) 0
                   = Some id) by (apply readUInt16BE_bytes; [assumption | split; reflexivity]).
      assert (E2 : readUInt16BE (byte_of (id / 256) :: byte_of (id mod 256)
                                 :: byte_of (index / 256) :: byte_of (index mod 256) :: rest) 2
                   = Some index) by (apply readUInt16BE_bytes; [assumption | split; reflexivity]).
      unfold Buffer in *. split; congruence. }
  split.
  - intros [entries Hret]. apply getSSL_Returned in Hret
      as (send' & reqBuf' & res' & resId & resIdx & L & C & [= <-] & Hreq' & Hsend & H0 & H2
          & Hstrict & HL & HC & Hsize & _).
    rewrite (Hyes (conj Hid Hidx)) in Hreq'. injection Hreq' as <-.
    rewrite Hres in Hsend. injection Hsend as <-.
    exists L, C. repeat split; try assumption.
    intros Hs.
    assert (Hlen : (8 <= List.length res)%nat)
      by (apply (readUInt16BE_Some res 6); unfold Buffer in *; eauto).
    apply (proj1 (Hecho resId resIdx H0 H2 Hlen)). auto.
  - intros (L & C & HL & HC & Hsize & Hstrict).
    assert (Hlen : (8 <= List.length res)%nat)
      by (apply (readUInt16BE_Some res 6); unfold Buffer in *; eauto).
    destruct (proj1 (readUInt16BE_Some res 0) ltac:(lia)) as [resId H0].
    destruct (proj1 (readUInt16BE_Some res 2) ltac:(lia)) as [resIdx H2].
    exists (SSL.entries res L C). unfold SSL.getSSL.
    destruct (request_spec id index) as [Hyes' _]. rewrite Hyes' by auto.
    rewrite Hres. unfold Buffer in *. rewrite H0, H2.
    assert (Hpass : strict && (negb (resId =? id) || negb (resIdx =? index)) = false).
    { destruct strict; [|reflexivity]. simpl.
      destruct (proj2 (Hecho resId resIdx H0 H2 Hlen) (Hstrict eq_refl)) as [-> ->].
      now rewrite !Z.eqb_refl. }
    rewrite Hpass, HL, HC. rewrite (proj2 (Z.eqb_eq _ _) Hsize). reflexivity.
Qed.

(** [getSSL_accepts_exactly] for the same response in strict mode. *)
Lemma getSSL_accepts_exactly_witness :
  (exists entries, SSL.getSSL (SSL.echo SSL.three_ids) 17 0 true = SSL.Returned entries)
  <-> (exists entryLength entryCount,
         readUInt16BE ([x00; x11; x00; x00] ++ SSL.three_ids) 4 = Some entryLength
         /\ readUInt16BE ([x00; x11; x00; x00] ++ SSL.three_ids) 6 = Some entryCount
         /\ entryLength * entryCount
            = Z.of_nat (List.length ([x00; x11; x00; x00] ++ SSL.three_ids)) - 8
         /\ (true = true -> take 4 ([x00; x11; x00; x00] ++ SSL.three_ids)
                            = [x00; x11; x00; x00])).
Proof.
  apply (getSSL_accepts_exactly (fun reqBuf => Resolved (reqBuf ++ SSL.three_ids)) 17 0 true
           [x00; x11; x00; x00] ([x00; x11; x00; x00] ++ SSL.three_ids)).
  - vm_compute. reflexivity.
  - reflexivity.
Defined.


(** X16: [getAvailableSSL] returns, for the entries that [getSSL(0, 0)]
    returns, the 16-bit number at the start of each entry when every entry
    has at least two bytes, and throws a [RangeError] when some entry is
    shorter. *)
Theorem getAvailableSSL_needs_two_bytes
  (conn : option (Buffer -> Settled Buffer)) (entries : list Buffer)
  (Hssl : SSL.getSSL conn 0 0 false = SSL.Returned entries) :
  (Forall (fun b => (2 <= List.length b)%nat) entries ->
   exists ids, SSL.getAvailableSSL conn = SSL.Returned ids
               /\ Forall2 (fun b id => readUInt16BE b 0 = Some id) entries ids
               /\ Forall (fun id => 0 <= id <= 65535) ids)
  /\ (Exists (fun b => (List.length b < 2)%nat) entries ->
      SSL.getAvailableSSL conn = SSL.Failed SSL.RangeError).
Proof.
  unfold SSL.getAvailableSSL. rewrite Hssl. split.
  - intros Hlen.
    assert (Hsome : is_Some (mapM (fun b => readUInt16BE b 0) entries)).
    { apply mapM_is_Some. eapply Forall_impl; [exact Hlen|].
      intros b Hb. simpl in *. destruct (proj1 (readUInt16BE_Some b 0) Hb) as [v Hv].
      unfold Buffer in *. rewrite Hv. eauto. }
    destruct Hsome as [ids Hids]. unfold Buffer in *. rewrite Hids.
    exists ids. split; [reflexivity|]. apply mapM_Some in Hids. split; [exact Hids|].
    clear -Hids. induction Hids as [|b id entries ids Hb _ IH]; constructor; [|exact IH].
    eapply readUInt16BE_range, Hb.
  - intros Hshort.
    assert (Hnone : mapM (fun b => readUInt16BE b 0) entries = None).
    { apply mapM_None. eapply Exists_impl; [exact Hshort|].
      intros b Hb. simpl in *. destruct (readUInt16BE b 0) as [v|] eqn:Hv; [|reflexivity].
      exfalso. assert (2 <= List.length b)%nat by (apply (readUInt16BE_Some b 0); eauto).
      lia. }
    unfold Buffer in *. now rewrite Hnone.
Qed.

(** [getAvailableSSL_needs_two_bytes] for the same response to the ids 0
    and 0. *)
Lemma getAvailableSSL_needs_two_bytes_witness :
  exists ids,
    SSL.getAvailableSSL (SSL.echo SSL.three_ids) = SSL.Returned ids
    /\ Forall2 (fun b id => readUInt16BE b 0 = Some id)
         [[x00; x11]; [x00; x1c]; [x01; x31]] ids
    /\ Forall (fun id => 0 <= id <= 65535) ids.
Proof.
  apply (getAvailableSSL_needs_two_bytes (SSL.echo SSL.three_ids)
           [[x00; x11]; [x00; x1c]; [x01; x31]]).
  - vm_compute. reflexivity.
  - repeat constructor.
Defined.

(** ** The life of an endpoint *)

Lemma step_invariant a e : endpoint_invariant e -> endpoint_invariant (Lifecycle.step a e).
Proof.
  intros (I1 & I2 & I3 & I4). destruct e as [ar tcp st c tr p tm sc]. simpl in *.
  unfold endpoint_invariant.
  destruct a; simpl;
    unfold Lifecycle.connect, Lifecycle.disconnect, Lifecycle.timer_fires,
      Lifecycle.on_transport_ready, Lifecycle._onTransportError, Lifecycle._onTransportClose,
      Lifecycle._onTransportEnd, Lifecycle._onConnectionConnected,
      Lifecycle._onConnectionError, Lifecycle._onConnectionTimeout, Lifecycle._connect,
      Lifecycle._disconnect, Lifecycle._closeTransport, Lifecycle._destroyTransport,
      Lifecycle._destroyConnection, Lifecycle._scheduleReconnection, Lifecycle.clearTimeout,
      Lifecycle.beyond_disconnected; simpl;
    destruct st, c, tr, tm, sc; destruct (0 <? ar) eqn:Har; simpl in *;
    rewrite ?Har; simpl;
    (apply Z.ltb_lt in Har || apply Z.ltb_ge in Har);
    repeat split; intros; try congruence; try lia; try discriminate; auto;
    try (now destruct I3); try (now apply I2); try (now apply I4).
Qed.

Lemma constructor_invariant opts : endpoint_invariant (Lifecycle.constructor opts).
Proof.
  unfold Lifecycle.constructor.
  set (e0 := Lifecycle.mk _ _ S7Endpoint.CONN_DISCONNECTED false false None false false).
  assert (H0 : endpoint_invariant e0).
  { unfold endpoint_invariant. simpl. repeat split; intros; congruence. }
  destruct (0 <? _); [|exact H0].
  apply (step_invariant Lifecycle.CallConnect e0 H0).
Qed.

Lemma reachable_invariant e : Lifecycle.Reachable e -> endpoint_invariant e.
Proof.
  induction 1 as [opts|a e _ IH]; [apply constructor_invariant | now apply step_invariant].
Qed.

(** X17: no endpoint that the constructor, the public methods, the timer
    and the events lead to is in the state DISCONNECTING, so [connect()]
    never rejects with [ERR_ILLEGAL_STATE]. *)
Theorem connect_is_never_refused (e : Lifecycle.t) (Hreach : Lifecycle.Reachable e) :
  Lifecycle._connectionState e <> S7Endpoint.CONN_DISCONNECTING
  /\ fst (Lifecycle.connect e) = None.
Proof.
  apply reachable_invariant in Hreach as (I1 & _).
  split; [exact I1|]. unfold Lifecycle.connect. simpl.
  destruct (Lifecycle._connectionState e); simpl; congruence.
Qed.

(** [connect_is_never_refused] after a call of [disconnect()] on a new
    endpoint. *)
Lemma connect_is_never_refused_witness :
  fst (Lifecycle.connect
         (Lifecycle.step Lifecycle.CallDisconnect
            (Lifecycle.constructor Lifecycle.default_opts))) = None.
Proof.
  apply (connect_is_never_refused
           (Lifecycle.step Lifecycle.CallDisconnect
              (Lifecycle.constructor Lifecycle.default_opts))).
  apply Lifecycle.reach_step. apply Lifecycle.reach_new.
Defined.


(** X18: whenever a reachable endpoint is connected (the test of
    [readVars] and [writeVars]), its connection and its transport exist and
    no reconnection timer is armed. *)
Theorem connected_endpoint_has_its_connection (e : Lifecycle.t)
  (Hreach : Lifecycle.Reachable e)
  (Hconnected : S7Endpoint.isConnected (Lifecycle.view e) = true) :
  Lifecycle._connection e = true /\ Lifecycle._transport e = true
  /\ Lifecycle._reconnectTimer e = false.
Proof.
  apply reachable_invariant in Hreach as (_ & I2 & I3 & _).
  unfold S7Endpoint.isConnected, Lifecycle.view in Hconnected. simpl in Hconnected.
  assert (Hst : Lifecycle._connectionState e = S7Endpoint.CONN_CONNECTED)
    by (destruct (Lifecycle._connectionState e); simpl in *; congruence).
  destruct (I3 Hst) as [Hc Ht]. auto.
Qed.

(** [connected_endpoint_has_its_connection] for a new endpoint whose
    transport got ready and whose connection reported a pdu size of 240. *)
Lemma connected_endpoint_has_its_connection_witness :
  let e := Lifecycle.step (Lifecycle.ConnectionConnected (Some 240))
             (Lifecycle.step Lifecycle.TransportReady
                (Lifecycle.constructor Lifecycle.default_opts)) in
  Lifecycle._connection e = true /\ Lifecycle._transport e = true
  /\ Lifecycle._reconnectTimer e = false.
Proof.
  intros e. apply (connected_endpoint_has_its_connection e).
  - apply Lifecycle.reach_step. apply Lifecycle.reach_step. apply Lifecycle.reach_new.
  - reflexivity.
Defined.


(** X19: with [autoReconnect] at 0 or below, no reachable endpoint has an
    armed reconnection timer. *)
Theorem no_reconnection_without_autoReconnect (e : Lifecycle.t)
  (Hreach : Lifecycle.Reachable e) (Hoff : Lifecycle._autoReconnect e <= 0) :
  Lifecycle._reconnectTimer e = false /\ Lifecycle.timer_fires e = e.
Proof.
  apply reachable_invariant in Hreach as (_ & _ & _ & I4).
  unfold Lifecycle.timer_fires. rewrite (I4 Hoff). auto.
Qed.

(** [no_reconnection_without_autoReconnect] for an endpoint built with
    [autoReconnect: 0] on which [connect()] was called and whose transport
    failed. *)
Lemma no_reconnection_without_autoReconnect_witness :
  let e := Lifecycle.step Lifecycle.TransportError
             (Lifecycle.step Lifecycle.CallConnect
                (Lifecycle.constructor
                   (Lifecycle.mkOpts None None None None None None (Some 0)))) in
  Lifecycle._reconnectTimer e = false /\ Lifecycle.timer_fires e = e.
Proof.
  intros e. apply (no_reconnection_without_autoReconnect e).
  - apply Lifecycle.reach_step. apply Lifecycle.reach_step. apply Lifecycle.reach_new.
  - simpl. lia.
Defined.


(** X20: [disconnect()] on an endpoint that is connecting with its
    reconnection timer armed (as it is right after the constructor) leaves
    the timer armed; when the timer fires, the endpoint starts to connect
    again. *)
Theorem disconnect_while_connecting_keeps_the_timer (e : Lifecycle.t)
  (Hstate : Lifecycle._connectionState e = S7Endpoint.CONN_CONNECTING)
  (Htimer : Lifecycle._reconnectTimer e = true) :
  let e' := Lifecycle.disconnect e in
  Lifecycle._shouldConnect e' = false
  /\ Lifecycle._connectionState e' = S7Endpoint.CONN_DISCONNECTED
  /\ Lifecycle._reconnectTimer e' = true
  /\ Lifecycle._connectionState (Lifecycle.timer_fires e') = S7Endpoint.CONN_CONNECTING.
Proof.
  destruct e as [ar tcp st c tr p tm sc]. simpl in *. subst st tm.
  unfold Lifecycle.disconnect, Lifecycle.timer_fires, Lifecycle._connect,
    Lifecycle._disconnect, Lifecycle._closeTransport, Lifecycle._destroyTransport,
    Lifecycle._destroyConnection, Lifecycle._scheduleReconnection, Lifecycle.clearTimeout,
    Lifecycle.beyond_disconnected; simpl.
  destruct c, tr; simpl; auto.
Qed.

(** [disconnect_while_connecting_keeps_the_timer] right after the
    constructor with the default options. *)
Lemma disconnect_while_connecting_keeps_the_timer_witness :
  let e' := Lifecycle.disconnect (Lifecycle.constructor Lifecycle.default_opts) in
  Lifecycle._shouldConnect e' = false
  /\ Lifecycle._connectionState e' = S7Endpoint.CONN_DISCONNECTED
  /\ Lifecycle._reconnectTimer e' = true
  /\ Lifecycle._connectionState (Lifecycle.timer_fires e') = S7Endpoint.CONN_CONNECTING.
Proof.
  apply (disconnect_while_connecting_keeps_the_timer
           (Lifecycle.constructor Lifecycle.default_opts)); reflexivity.
Defined.


(** X21: after [disconnect()] on a reachable endpoint that is not
    connecting, no timer is armed, and until [connect()] is called the
    endpoint never starts to connect again, whatever events arrive. *)
Theorem disconnect_is_final_unless_connecting (e e' : Lifecycle.t)
  (Hreach : Lifecycle.Reachable e)
  (Hstate : Lifecycle._connectionState e <> S7Endpoint.CONN_CONNECTING)
  (Hlater : Lifecycle.Unattended (Lifecycle.disconnect e) e') :
  Lifecycle._shouldConnect e' = false
  /\ Lifecycle._reconnectTimer e' = false
  /\ Lifecycle._connectionState e' <> S7Endpoint.CONN_CONNECTING.
Proof.
  apply reachable_invariant in Hreach as (I1 & I2 & I3 & I4).
  assert (Hquiet : Lifecycle._shouldConnect e' = false
                   /\ Lifecycle._reconnectTimer e' = false
                   /\ Lifecycle._connectionState e' <> S7Endpoint.CONN_CONNECTING
                   /\ Lifecycle._connectionState e' <> S7Endpoint.CONN_DISCONNECTING);
    [|tauto].
  induction Hlater as [|a e1 _ IH Ha].
  - destruct e as [ar tcp st c tr p tm sc]. simpl in *.
    unfold Lifecycle.disconnect, Lifecycle._disconnect, Lifecycle._closeTransport,
      Lifecycle._destroyConnection, Lifecycle._scheduleReconnection, Lifecycle.clearTimeout;
      simpl.
    destruct st, c; simpl in *; repeat split; try congruence; try discriminate;
      try (now destruct (I3 eq_refl)).
  - destruct IH as (Q1 & Q2 & Q3 & Q4).
    destruct e1 as [ar tcp st c tr p tm sc]. simpl in *. subst sc tm.
    destruct a; try congruence; simpl;
      unfold Lifecycle.disconnect, Lifecycle.timer_fires,
        Lifecycle.on_transport_ready, Lifecycle._onTransportError, Lifecycle._onTransportClose,
        Lifecycle._onTransportEnd, Lifecycle._onConnectionConnected,
        Lifecycle._onConnectionError, Lifecycle._onConnectionTimeout, Lifecycle._connect,
        Lifecycle._disconnect, Lifecycle._closeTransport, Lifecycle._destroyTransport,
        Lifecycle._destroyConnection, Lifecycle._scheduleReconnection, Lifecycle.clearTimeout,
        Lifecycle.beyond_disconnected; simpl;
      destruct st, c, tr; simpl in *; repeat split; try congruence; try discriminate.
Qed.

(** [disconnect_is_final_unless_connecting] for an endpoint that was
    connected, is disconnected by the user and then sees its transport
    close. *)
Lemma disconnect_is_final_unless_connecting_witness :
  let e := Lifecycle.step (Lifecycle.ConnectionConnected (Some 240))
             (Lifecycle.step Lifecycle.TransportReady
                (Lifecycle.constructor Lifecycle.default_opts)) in
  let e' := Lifecycle.step Lifecycle.TransportClose (Lifecycle.disconnect e) in
  Lifecycle._shouldConnect e' = false
  /\ Lifecycle._reconnectTimer e' = false
  /\ Lifecycle._connectionState e' <> S7Endpoint.CONN_CONNECTING.
Proof.
  intros e e'. apply (disconnect_is_final_unless_connecting e e').
  - apply Lifecycle.reach_step. apply Lifecycle.reach_step. apply Lifecycle.reach_new.
  - discriminate.
  - apply Lifecycle.unattended_step; [apply Lifecycle.unattended_now | discriminate].
Defined.


Lemma connect_keeps_options e :
  Lifecycle._connOptsTcp (Lifecycle._connect e) = Lifecycle._connOptsTcp e
  /\ Lifecycle._autoReconnect (Lifecycle._connect e) = Lifecycle._autoReconnect e.
Proof.
  destruct e as [ar tcp st c tr p tm sc].
  unfold Lifecycle._connect, Lifecycle._destroyTransport, Lifecycle._destroyConnection,
    Lifecycle._scheduleReconnection, Lifecycle.clearTimeout, Lifecycle.beyond_disconnected.
  simpl. destruct st, c, tr, sc; destruct (0 <? ar) eqn:Har; simpl; rewrite ?Har; simpl; auto.
Qed.

(** X13: without [opts.dstTSAP], for a rack of 0..7 and a slot of 0..31 (by
    default 0 and 2), the constructor computes the destination TSAP
    0x0100 + 32 * rack + slot, from which the rack and the slot can be read
    back: the bits 5..7 and the bits 0..4. *)
Theorem dstTSAP_encodes_rack_and_slot (opts : Lifecycle.Opts)
  (Hdst : Lifecycle.dstTSAP opts = None)
  (Hrack : 0 <= default 0 (Lifecycle.rack opts) < 8)
  (Hslot : 0 <= default 2 (Lifecycle.slot opts) < 32) :
  let tsap := Lifecycle.tcp_dstTSAP (Lifecycle._connOptsTcp (Lifecycle.constructor opts)) in
  tsap = 256 + 32 * default 0 (Lifecycle.rack opts) + default 2 (Lifecycle.slot opts)
  /\ Z.shiftr tsap 8 = 1
  /\ Z.land (Z.shiftr tsap 5) 7 = default 0 (Lifecycle.rack opts)
  /\ Z.land tsap 31 = default 2 (Lifecycle.slot opts).
Proof.
  intros tsap.
  assert (Htsap : tsap = js_or (js_or 256 (js_shl (default 0 (Lifecycle.rack opts)) 5))
                           (default 2 (Lifecycle.slot opts))).
  { unfold tsap, Lifecycle.constructor. rewrite Hdst.
    destruct (0 <? _); [rewrite (proj1 (connect_keeps_options _))|]; reflexivity. }
  rewrite Htsap. clear tsap Htsap.
  set (r := default 0 (Lifecycle.rack opts)) in *.
  set (s := default 2 (Lifecycle.slot opts)) in *.
  set (check := fun r s =>
         let tsap := js_or (js_or 256 (js_shl r 5)) s in
         (tsap =? 256 + 32 * r + s) && (Z.shiftr tsap 8 =? 1)
         && (Z.land (Z.shiftr tsap 5) 7 =? r) && (Z.land tsap 31 =? s)).
  assert (Hall : forallb (fun r => forallb (check r) (map Z.of_nat (seq 0 32)))
                         (map Z.of_nat (seq 0 8)) = true) by (vm_compute; reflexivity).
  rewrite forallb_forall in Hall.
  assert (Hr : In r (map Z.of_nat (seq 0 8))).
  { apply in_map_iff. exists (Z.to_nat r). split; [lia|]. apply in_seq. lia. }
  specialize (Hall r Hr). rewrite forallb_forall in Hall.
  assert (Hs : In s (map Z.of_nat (seq 0 32))).
  { apply in_map_iff. exists (Z.to_nat s). split; [lia|]. apply in_seq. lia. }
  specialize (Hall s Hs). unfold check in Hall. cbv beta zeta in Hall.
  rewrite !andb_true_iff, !Z.eqb_eq in Hall. tauto.
Qed.

(** [dstTSAP_encodes_rack_and_slot] at the default options: 0x0102. *)
Lemma dstTSAP_encodes_rack_and_slot_witness :
  Lifecycle.tcp_dstTSAP (Lifecycle._connOptsTcp (Lifecycle.constructor Lifecycle.default_opts))
  = 0x0102.
Proof.
  assert (H1 : 0 <= default 0 (Lifecycle.rack Lifecycle.default_opts) < 8) by (simpl; lia).
  assert (H2 : 0 <= default 2 (Lifecycle.slot Lifecycle.default_opts) < 32) by (simpl; lia).
  exact (proj1 (dstTSAP_encodes_rack_and_slot Lifecycle.default_opts eq_refl H1 H2)).
Defined.

(** ** Blocks *)




Section Digits.
Variable radix : Z.
Hypothesis radix_ge_2 : 2 <= radix.







End Digits.





(** From 10^21 on the name holds the string with the exponent: for the
    block number 10^21, which JavaScript prints as [1e+21], it has nine
    characters and the block [_0A1e+21A] is asked for. *)
Lemma uploadBlock_exponent_name (exponent : Z -> string)
  (upload : string -> Settled Buffer) (list_ : string -> Settled (list Z)) :
  exponent Blocks.exponent_from = "1e+21"%string ->
  Blocks.uploadBlock exponent (fun _ => None) (Some (list_, upload)) (Blocks.TypeNumber 10)
    Blocks.exponent_from false "A"
  = match upload "_0A1e+21A"%string with Resolved buf => Ok buf | Rejected e => Throw e end.
Proof.
  intros He.
  assert (Hname : Blocks.file_name exponent 10 Blocks.exponent_from false "A"
                  = "_0A1e+21A"%string).
  { unfold Blocks.file_name, Blocks.toString. rewrite He. reflexivity. }
  unfold Blocks.uploadBlock. change ((10 <? 0) || (10 >? 255)) with false.
  cbv beta iota zeta. rewrite Hname. reflexivity.
Qed.

Section UploadAll.
Variable exponent : Z -> string.
Variable subtype : string -> option Z.
Variable conn : option ((string -> Settled (list Z)) * (string -> Settled Buffer)).

Local Abbreviation uploaded := (uploaded exponent subtype conn).
Local Abbreviation all_uploaded := (all_uploaded exponent subtype conn).

Lemma uploadBlock_returns typ number headerOnly fs :
  Blocks.uploadBlock exponent subtype conn typ number headerOnly fs <> Diverge.
Proof.
  unfold Blocks.uploadBlock.
  destruct (match typ with Blocks.TypeNumber n => _ | Blocks.TypeString s => _
                      | Blocks.TypeOther => None end); [|discriminate].
  destruct (negb _); [discriminate|]. destruct (negb _); [discriminate|].
  destruct conn as [[l u]|]; [|discriminate]. destruct (u _); discriminate.
Qed.

Lemma uploadType_lenient typ blocks : forall res,
  Blocks.uploadType exponent subtype conn false typ blocks res = Ok (res ++ omap (uploaded typ) blocks).
Proof.
  induction blocks as [|number blocks IH]; intros res; simpl.
  - now rewrite app_nil_r.
  - pose proof (uploadBlock_returns (Blocks.TypeString typ) number false "A") as Hret.
    destruct (Blocks.uploadBlock exponent subtype conn (Blocks.TypeString typ) number false "A")
      as [buf|e|] eqn:Hb; [| |contradiction].
    + assert (Hup : uploaded typ number = Some buf) by (unfold uploaded; now rewrite Hb).
      rewrite Hup, IH, <- app_assoc. reflexivity.
    + assert (Hup : uploaded typ number = None) by (unfold uploaded; now rewrite Hb).
      rewrite Hup. apply IH.
Qed.

Lemma uploadType_strict typ blocks : forall res res',
  Blocks.uploadType exponent subtype conn true typ blocks res = Ok res'
  <-> Forall (fun number => uploaded typ number <> None) blocks
      /\ res' = res ++ omap (uploaded typ) blocks.
Proof.
  induction blocks as [|number blocks IH]; intros res res'; simpl.
  - rewrite app_nil_r. split; [intros [= <-]; split; [constructor | reflexivity]|].
    now intros [_ ->].
  - destruct (Blocks.uploadBlock exponent subtype conn (Blocks.TypeString typ) number false "A")
      as [buf|e|] eqn:Hb.
    + assert (Hup : uploaded typ number = Some buf) by (unfold uploaded; now rewrite Hb).
      rewrite Hup, IH, <- app_assoc. simpl. split.
      * intros [Hall ->]. split; [constructor; [congruence | exact Hall] | reflexivity].
      * intros [Hall ->]. apply Forall_cons in Hall as [_ Hall]. auto.
    + assert (Hup : uploaded typ number = None) by (unfold uploaded; now rewrite Hb).
      split; [discriminate|]. intros [Hall _]. apply Forall_cons in Hall as [Hno _]. congruence.
    + assert (Hup : uploaded typ number = None) by (unfold uploaded; now rewrite Hb).
      split; [discriminate|]. intros [Hall _]. apply Forall_cons in Hall as [Hno _]. congruence.
Qed.

Lemma uploadTypes_lenient lists : forall res,
  Blocks.uploadTypes exponent subtype conn false lists res = Ok (res ++ all_uploaded lists).
Proof.
  unfold all_uploaded.
  induction lists as [|[typ blocks] lists IH]; intros res; simpl.
  - now rewrite app_nil_r.
  - rewrite uploadType_lenient, IH, <- app_assoc. reflexivity.
Qed.

Lemma uploadTypes_strict lists : forall res res',
  Blocks.uploadTypes exponent subtype conn true lists res = Ok res'
  <-> Forall (fun tl => Forall (fun number => uploaded (fst tl) number <> None) (snd tl)) lists
      /\ res' = res ++ all_uploaded lists.
Proof.
  unfold all_uploaded.
  induction lists as [|[typ blocks] lists IH]; intros res res'; simpl.
  - rewrite app_nil_r. split; [intros [= <-]; split; [constructor | reflexivity]|].
    now intros [_ ->].
  - destruct (Blocks.uploadType exponent subtype conn true typ blocks res) as [res1|e|] eqn:Hty.
    + apply uploadType_strict in Hty as [Hall1 ->]. rewrite IH, <- app_assoc. split.
      * intros [Hall ->]. split; [constructor; assumption | reflexivity].
      * intros [Hall ->]. apply Forall_cons in Hall as [_ Hall]. auto.
    + split; [discriminate|]. intros [Hall _]. apply Forall_cons in Hall as [Hall1 _].
      simpl in Hall1.
      assert (Hok : Blocks.uploadType exponent subtype conn true typ blocks res
                    = Ok (res ++ omap (uploaded typ) blocks))
        by (apply uploadType_strict; auto).
      congruence.
    + split; [discriminate|]. intros [Hall _]. apply Forall_cons in Hall as [Hall1 _].
      simpl in Hall1.
      assert (Hok : Blocks.uploadType exponent subtype conn true typ blocks res
                    = Ok (res ++ omap (uploaded typ) blocks))
        by (apply uploadType_strict; auto).
      congruence.
Qed.

Lemma listAllBlocks_from_types types : forall lists,
  Blocks.listAllBlocks_from conn types = Ok lists -> map fst lists = types.
Proof.
  induction types as [|typ types IH]; intros lists; simpl.
  - now intros [= <-].
  - destruct (Blocks.listBlocks conn typ) as [blocks|e|]; try discriminate.
    destruct (Blocks.listAllBlocks_from conn types) as [rest|e|]; try discriminate.
    intros [= <-]. simpl. f_equal. now apply IH.
Qed.

(** X24: once the lists of blocks are there, in the order OB, DB, SDB, FC,
    SFC, FB, SFB, [uploadAllBlocks()] without [strict] always returns, with
    the blocks whose upload succeeded, in the order of the lists; with
    [strict] it returns, with the same blocks, exactly when every upload
    succeeds. *)
Theorem uploadAllBlocks_skips_failures (lists : list (string * list Z))
  (Hlist : Blocks.listAllBlocks conn = Ok lists) :
  map fst lists = Blocks.all_types
  /\ Blocks.uploadAllBlocks exponent subtype conn false = Ok (all_uploaded lists)
  /\ (forall res,
        Blocks.uploadAllBlocks exponent subtype conn true = Ok res
        <-> Forall (fun tl => Forall (fun number => uploaded (fst tl) number <> None) (snd tl))
              lists
            /\ res = all_uploaded lists).
Proof.
  split; [now apply listAllBlocks_from_types|].
  unfold Blocks.uploadAllBlocks. rewrite Hlist. split.
  - apply (uploadTypes_lenient lists []).
  - intros res. apply (uploadTypes_strict lists [] res).
Qed.

End UploadAll.

(** [uploadAllBlocks_skips_failures] for a PLC with two data blocks of
    which one can be uploaded. *)
Lemma uploadAllBlocks_skips_failures_witness :
  Blocks.uploadAllBlocks Blocks.exponent_1e21 Blocks.subtypes Blocks.two_blocks false
  = Ok [[x01]].
Proof.
  destruct (uploadAllBlocks_skips_failures Blocks.exponent_1e21 Blocks.subtypes
              Blocks.two_blocks
              [("OB"%string, []); ("DB"%string, [1; 2]); ("SDB"%string, []);
               ("FC"%string, []); ("SFC"%string, []); ("FB"%string, []);
               ("SFB"%string, [])]) as (_ & Hlenient & _).
  - vm_compute. reflexivity.
  - rewrite Hlenient. vm_compute. reflexivity.
Defined.

(** ** Module identification *)


Lemma trimStart_suffix s :
  exists pre, s = pre ++ Identification.trimStart s
              /\ Forall (fun c => Identification.is_space c = true) pre.
Proof.
  induction s as [|c s (pre & Hs & Hpre)]; simpl.
  - exists []. split; [reflexivity | constructor].
  - destruct (Identification.is_space c) eqn:Hc.
    + exists (c :: pre). split; [simpl; congruence | now constructor].
    + exists []. split; [reflexivity | constructor].
Qed.

Lemma trimStart_head s c rest :
  Identification.trimStart s = c :: rest -> Identification.is_space c = false.
Proof.
  induction s as [|d s IH]; simpl; [discriminate|].
  destruct (Identification.is_space d) eqn:Hd; [exact IH|]. now intros [= <- _].
Qed.

Lemma trimStart_length s :
  (List.length (Identification.trimStart s) <= List.length s)%nat.
Proof.
  destruct (trimStart_suffix s) as (pre & Hs & _).
  rewrite Hs at 2. rewrite length_app. lia.
Qed.

Lemma last_rev {A} (l : list A) : last (rev l) = head l.
Proof. destruct l as [|x l]; simpl; [reflexivity | apply last_snoc]. Qed.

Lemma head_rev {A} (l : list A) : head (rev l) = last l.
Proof. rewrite <- (rev_involutive l) at 2. now rewrite last_rev. Qed.

(** A trimmed string is no longer than the string and has no white space
    at either end. *)
Lemma trim_spec s :
  (List.length (Identification.trim s) <= List.length s)%nat
  /\ (forall c, head (Identification.trim s) = Some c -> Identification.is_space c = false)
  /\ (forall c, last (Identification.trim s) = Some c -> Identification.is_space c = false).
Proof.
  unfold Identification.trim.
  set (t := Identification.trimStart s).
  destruct (trimStart_suffix (rev t)) as (pre & Hrev & Hpre).
  set (u := Identification.trimStart (rev t)) in *.
  split; [|split].
  - rewrite length_rev. etransitivity; [apply trimStart_length|].
    rewrite length_rev. apply trimStart_length.
  - intros c Hc. rewrite head_rev in Hc.
    assert (Ht : head t = Some c).
    { rewrite <- (rev_involutive t), head_rev, Hrev.
      destruct u as [|x u'] using rev_ind; [discriminate|].
      rewrite app_assoc, last_snoc. now rewrite last_snoc in Hc. }
    destruct t as [|x t'] eqn:Et; [discriminate|]. injection Ht as ->.
    now apply (trimStart_head s c t').
  - intros c Hc. rewrite last_rev in Hc.
    destruct u as [|x u'] eqn:Eu; [discriminate|]. injection Hc as ->.
    now apply (trimStart_head (rev t) c u').
Qed.

Lemma order_number_spec buf :
  (List.length (order_number buf) <= 20)%nat
  /\ (forall c, head (order_number buf) = Some c -> Identification.is_space c = false)
  /\ (forall c, last (order_number buf) = Some c -> Identification.is_space c = false).
Proof.
  unfold order_number.
  destruct (trim_spec (Identification.toString_ascii buf 2 22)) as (Hlen & Hhd & Hlast).
  split; [|auto]. etransitivity; [exact Hlen|].
  unfold Identification.toString_ascii. rewrite length_map, length_take. lia.
Qed.

Lemma last_of_kind_cons kind (buf : list byte) res :
  last_of_kind kind (buf :: res)
  = if decide (entry_kind buf = Some kind)
    then overridden (Some (order_number buf)) (last_of_kind kind res)
    else last_of_kind kind res.
Proof.
  unfold last_of_kind. rewrite filter_cons.
  destruct (decide (entry_kind buf = Some kind)); [|reflexivity].
  rewrite last_cons. now destruct (last _).
Qed.

Lemma module_entries_spec res : forall info,
  Forall (fun buf : Buffer => List.length buf = 28%nat) res ->
  Identification.module_entries info res
  = SSL.Returned
      (Identification.mkInfo
         (overridden (Identification.moduleOrderNumber info) (last_of_kind 1 res))
         (overridden (Identification.hardwareOrderNumber info) (last_of_kind 6 res))
         (overridden (Identification.firmwareOrderNumber info) (last_of_kind 7 res))).
Proof.
  induction res as [|buf res IH]; intros info Hall.
  - now destruct info.
  - apply Forall_cons in Hall as [Hlen Hall]. simpl.
    unfold Identification.module_entry. rewrite Hlen. simpl.
    destruct (proj1 (readUInt16BE_Some buf 0) ltac:(lia)) as [id Hid].
    unfold Buffer in *. rewrite Hid.
    rewrite !last_of_kind_cons. unfold entry_kind, Buffer. rewrite Hid. simpl.
    fold (order_number buf).
    destruct (Z.eqb_spec (Z.land id 255) 1) as [Hk|Hk1];
      [|destruct (Z.eqb_spec (Z.land id 255) 6) as [Hk|Hk6];
        [|destruct (Z.eqb_spec (Z.land id 255) 7) as [Hk|Hk7]]];
      rewrite IH by assumption; simpl;
      repeat match goal with
             | |- context [decide ?P] => destruct (decide P); try congruence
             end;
      destruct info as [m h f]; simpl;
      destruct (last_of_kind 1 res), (last_of_kind 6 res), (last_of_kind 7 res);
      reflexivity.
Qed.

Lemma module_entries_bad_size res : forall info,
  Exists (fun buf : Buffer => List.length buf <> 28%nat) res ->
  Identification.module_entries info res
  = SSL.Failed (SSL.Raised (NodeS7Error ERR_UNEXPECTED_RESPONSE None)).
Proof.
  induction res as [|buf res IH]; intros info Hex; [now apply Exists_nil in Hex|].
  simpl. unfold Identification.module_entry.
  destruct (Nat.eqb_spec (List.length buf) 28) as [Hlen|Hlen]; simpl; [|reflexivity].
  destruct (proj1 (readUInt16BE_Some buf 0) ltac:(lia)) as [id Hid].
  unfold Buffer in *. rewrite Hid.
  apply IH. apply Exists_cons in Hex as [Hex|Hex]; [contradiction | assumption].
Qed.

(** X25: when [getSSL(0x0011, 0)] returns entries of 28 bytes each,
    [getModuleIdentification] returns, as the module, hardware and firmware
    order number, the one of the last entry whose id has the low byte 1, 6
    and 7 ([null] without such an entry); when some entry has another
    length, it throws [ERR_UNEXPECTED_RESPONSE] and returns nothing; an
    order number has at most 20 characters and no white space at either
    end. *)
Theorem getModuleIdentification_last_entry_wins
  (conn : option (Buffer -> Settled Buffer)) (res : list Buffer)
  (Hssl : SSL.getSSL conn 17 0 false = SSL.Returned res) :
  (Forall (fun buf : Buffer => List.length buf = 28%nat) res ->
   Identification.getModuleIdentification conn
   = SSL.Returned (Identification.mkInfo (last_of_kind 1 res) (last_of_kind 6 res)
                     (last_of_kind 7 res)))
  /\ (Exists (fun buf : Buffer => List.length buf <> 28%nat) res ->
      Identification.getModuleIdentification conn
      = SSL.Failed (SSL.Raised (NodeS7Error ERR_UNEXPECTED_RESPONSE None)))
  /\ (forall buf,
        (List.length (order_number buf) <= 20)%nat
        /\ (forall c, head (order_number buf) = Some c -> Identification.is_space c = false)
        /\ (forall c, last (order_number buf) = Some c -> Identification.is_space c = false)).
Proof.
  unfold Identification.getModuleIdentification. change 0x0011 with 17. rewrite Hssl.
  split; [|split].
  - intros Hall. rewrite module_entries_spec by exact Hall. simpl.
    assert (Hnone : forall x, overridden None x = x) by now intros [x|].
    now rewrite !Hnone.
  - apply module_entries_bad_size.
  - apply order_number_spec.
Qed.

(** [getModuleIdentification_last_entry_wins] for a PLC with one entry: the
    order number comes back without the space at its end. *)
Lemma getModuleIdentification_last_entry_wins_witness :
  Identification.getModuleIdentification (SSL.echo Identification.one_module)
  = SSL.Returned
      (Identification.mkInfo (Some (list_ascii_of_string "6ES7 315-2EH14-0AB0")) None None).
Proof.
  destruct (getModuleIdentification_last_entry_wins (SSL.echo Identification.one_module)
              [drop 4 Identification.one_module]) as (Hok & _ & _).
  - vm_compute. reflexivity.
  - rewrite Hok; [vm_compute; reflexivity|]. repeat constructor.
Defined.
